(** * Polymarket activity ingestor: poll, record once, order, notify

    A shallow embedding of [app/main.py].  The pure helpers
    ([normalize_item], [format_message], the sort key) are Rocq functions;
    the body of [run] is written in a small monad with state, exceptions and
    a trace: the state holds the SQLite table and the counters that index
    the answers of the outside world (the feed, the database driver,
    Telegram), the trace lists the I/O a computation performed.

    Conventions.
    - A Python [str] is a Rocq [string] holding its UTF-8 bytes.
    - The feed's activity objects are flat: a field holds a JSON scalar.
      A float is carried as the text [repr] prints for it, which names a
      double uniquely; float arithmetic is not part of the embedding.
    - A dict is an association list in insertion order.
    - An exception is the pair of its class name and its [str()] text, the
      two things the error report prints. *)

From Stdlib Require Import String Ascii ZArith NArith List Bool Lia.
From Stdlib Require Import Permutation Sorted DecimalString DecimalZ.
Import ListNotations.

Local Open Scope string_scope.
Local Open Scope Z_scope.

(* ================================================================== *)
(** ** Python values *)

Inductive value : Type :=
| VNone
| VBool (b : bool)
| VInt (z : Z)
| VFloat (repr : string)
| VStr (s : string).

Definition value_eq_dec (a b : value) : {a = b} + {a <> b}.
Proof.
  decide equality;
    try apply string_dec; try apply Z.eq_dec; try apply bool_dec.
Defined.

Definition value_eqb (a b : value) : bool :=
  if value_eq_dec a b then true else false.

(** [bool(v)]: the test behind [not tx], [x or 0] and [if title]. *)
Definition truthy (v : value) : bool :=
  match v with
  | VNone => false
  | VBool b => b
  | VInt z => negb (z =? 0)
  | VFloat r => negb (String.eqb r "0.0" || String.eqb r "-0.0")
  | VStr s => negb (String.eqb s "")
  end.

Definition str_of_Z (z : Z) : string := NilZero.string_of_int (Z.to_int z).

(** [str(v)], what an f-string prints for [{v}]. *)
Definition py_str (v : value) : string :=
  match v with
  | VNone => "None"
  | VBool true => "True"
  | VBool false => "False"
  | VInt z => str_of_Z z
  | VFloat r => r
  | VStr s => s
  end.

(** [type(v).__name__]. *)
Definition type_name (v : value) : string :=
  match v with
  | VNone => "NoneType"
  | VBool _ => "bool"
  | VInt _ => "int"
  | VFloat _ => "float"
  | VStr _ => "str"
  end.

(** [Dict[str, Any]]: keys in insertion order, each key once. *)
Definition dict : Type := list (string * value).

Fixpoint dict_lookup (d : dict) (k : string) : option value :=
  match d with
  | [] => None
  | (k', v) :: d' => if String.eqb k' k then Some v else dict_lookup d' k
  end.

(** [d.get(k)]: [None] when the key is absent. *)
Definition dict_get (d : dict) (k : string) : value :=
  match dict_lookup d k with
  | Some v => v
  | None => VNone
  end.

(** [d[k] = v] on a dict: an existing key keeps its place. *)
Fixpoint dict_set (d : dict) (k : string) (v : value) : dict :=
  match d with
  | [] => [(k, v)]
  | (k', v') :: d' =>
      if String.eqb k' k then (k', v) :: d' else (k', v') :: dict_set d' k v
  end.

(** Exceptions: [type(e).__name__] and [str(e)]. *)
Record exn : Type := Exn { exn_type : string; exn_text : string }.

Definition result (A : Type) : Type := (exn + A)%type.

(* ================================================================== *)
(** ** json.dumps(item, ensure_ascii=False) *)

Definition nl : string := String (ascii_of_nat 10) "".

Definition hex_digit (n : N) : ascii :=
  ascii_of_N (if (n <? 10)%N then 48 + n else 87 + n)%N.

(** The escape table of the encoder: the quote, the backslash, the five
    short escapes, [\u00xx] for the other control characters.  Everything
    else, non-ASCII bytes included, is copied. *)
Definition json_escape_char (c : ascii) : string :=
  let n := N_of_ascii c in
  if (n =? 34)%N then "\" ++ String c ""
  else if (n =? 92)%N then "\\"
  else if (n =? 8)%N then "\b"
  else if (n =? 12)%N then "\f"
  else if (n =? 10)%N then "\n"
  else if (n =? 13)%N then "\r"
  else if (n =? 9)%N then "\t"
  else if (n <? 32)%N then
    "\u00" ++ String (hex_digit (n / 16)) (String (hex_digit (n mod 16)) "")
  else String c "".

Fixpoint json_escape (s : string) : string :=
  match s with
  | EmptyString => ""
  | String c s' => json_escape_char c ++ json_escape s'
  end.

Definition dq : string := String (ascii_of_nat 34) "".

Definition json_string (s : string) : string := dq ++ json_escape s ++ dq.

(** A float prints as its [repr], except the three non-finite ones. *)
Definition json_float (r : string) : string :=
  if String.eqb r "inf" then "Infinity"
  else if String.eqb r "-inf" then "-Infinity"
  else if String.eqb r "nan" then "NaN"
  else r.

Definition json_value (v : value) : string :=
  match v with
  | VNone => "null"
  | VBool true => "true"
  | VBool false => "false"
  | VInt z => str_of_Z z
  | VFloat r => json_float r
  | VStr s => json_string s
  end.

Definition json_member (kv : string * value) : string :=
  json_string (fst kv) ++ ": " ++ json_value (snd kv).

Fixpoint json_members (d : dict) : string :=
  match d with
  | [] => ""
  | [kv] => json_member kv
  | kv :: d' => json_member kv ++ ", " ++ json_members d'
  end.

Definition json_dumps (d : dict) : string := "{" ++ json_members d ++ "}".

(* ================================================================== *)
(** ** normalize_item *)

(** The seventeen keys of the dict [normalize_item] builds, which are the
    seventeen columns of [polymarket_activity]. *)
Record Row : Type := mkRow {
  transactionHash : value;
  timestamp : value;
  proxyWallet : value;
  conditionId : value;
  type_ : value;
  side : value;
  asset : value;
  outcome : value;
  outcomeIndex : value;
  price : value;
  size : value;
  usdcSize : value;
  title : value;
  slug : value;
  eventSlug : value;
  icon : value;
  raw_json : string
}.

Definition normalize_item (item : dict) : Row :=
  {| transactionHash := dict_get item "transactionHash";
     timestamp := dict_get item "timestamp";
     proxyWallet := dict_get item "proxyWallet";
     conditionId := dict_get item "conditionId";
     type_ := dict_get item "type";
     side := dict_get item "side";
     asset := dict_get item "asset";
     outcome := dict_get item "outcome";
     outcomeIndex := dict_get item "outcomeIndex";
     price := dict_get item "price";
     size := dict_get item "size";
     usdcSize := dict_get item "usdcSize";
     title := dict_get item "title";
     slug := dict_get item "slug";
     eventSlug := dict_get item "eventSlug";
     icon := dict_get item "icon";
     raw_json := json_dumps item |}.

(* ================================================================== *)
(** ** str.strip() *)

Definition bytes_of (s : string) : list N :=
  map N_of_ascii (list_ascii_of_string s).
Definition string_of_bytes (l : list N) : string :=
  string_of_list_ascii (map ascii_of_N l).

(** The one-byte characters for which [str.isspace] holds:
    U+0009..U+000D, U+001C..U+001F and the space. *)
Definition ascii_space (b : N) : bool :=
  ((9 <=? b) && (b <=? 13) || (28 <=? b) && (b <=? 32))%N.

(** One leading whitespace character removed, if there is one.  The
    multi-byte cases are the UTF-8 forms of U+0085, U+00A0, U+1680,
    U+2000..U+200A, U+2028, U+2029, U+202F, U+205F and U+3000. *)
Definition drop_space (l : list N) : option (list N) :=
  match l with
  | [] => None
  | b :: t =>
      if ascii_space b then Some t
      else match b, t with
           | 194%N, c :: t' =>
               if ((c =? 133) || (c =? 160))%N then Some t' else None
           | 225%N, 154%N :: 128%N :: t' => Some t'
           | 226%N, 128%N :: c :: t' =>
               if ((128 <=? c) && (c <=? 138)
                   || (c =? 168) || (c =? 169) || (c =? 175))%N
               then Some t' else None
           | 226%N, 129%N :: 159%N :: t' => Some t'
           | 227%N, 128%N :: 128%N :: t' => Some t'
           | _, _ => None
           end
  end.

(** The same from the right end, on the reversed byte list. *)
Definition drop_space_rev (l : list N) : option (list N) :=
  match l with
  | [] => None
  | b :: t =>
      if ascii_space b then Some t
      else match b, t with
           | 133%N, 194%N :: t' => Some t'
           | 160%N, 194%N :: t' => Some t'
           | 128%N, 154%N :: 225%N :: t' => Some t'
           | 128%N, 128%N :: 227%N :: t' => Some t'
           | 159%N, 129%N :: 226%N :: t' => Some t'
           | c, 128%N :: 226%N :: t' =>
               if ((128 <=? c) && (c <=? 138)
                   || (c =? 168) || (c =? 169) || (c =? 175))%N
               then Some t' else None
           | _, _ => None
           end
  end.

Fixpoint drop_while (step : list N -> option (list N)) (fuel : nat)
    (l : list N) : list N :=
  match fuel with
  | O => l
  | S fuel' =>
      match step l with
      | Some l' => drop_while step fuel' l'
      | None => l
      end
  end.

Definition strip (s : string) : string :=
  let l := bytes_of s in
  let l1 := drop_while drop_space (length l) l in
  let l2 := drop_while drop_space_rev (length l1) (rev l1) in
  string_of_bytes (rev l2).

(* ================================================================== *)
(** ** format_message *)

Fixpoint join (sep : string) (lines : list string) : string :=
  match lines with
  | [] => ""
  | [x] => x
  | x :: rest => x ++ sep ++ join sep rest
  end.

(** [(r.get("title") or "").strip()]: a truthy title that is not a [str]
    has no [strip]. *)
Definition stripped_title (r : Row) : result string :=
  let t := title r in
  if truthy t then
    match t with
    | VStr s => inr (strip s)
    | _ => inl (Exn "AttributeError"
                  ("'" ++ type_name t ++ "' object has no attribute 'strip'"))
    end
  else inr (strip "").

Definition is_none (v : value) : bool :=
  match v with VNone => true | _ => false end.

Definition line_header : string := "🆕 Polymarket activity".
Definition line_title (t : string) : string := "📝 " ++ t.
Definition line_kind (typ sd : value) : string :=
  "🔁 " ++ py_str typ ++ " / " ++ py_str sd.
Definition line_size (sz usdc : value) : string :=
  "📦 size=" ++ py_str sz ++ " | usdc=" ++ py_str usdc.
Definition line_price (p : value) : string := "💲 price=" ++ py_str p.
Definition line_tx (tx : value) : string := "🧾 tx=" ++ py_str tx.

(** The list [lines] at the point of the [join]. *)
Definition message_lines (t : string) (r : Row) : list string :=
  ([line_header]
   ++ (if negb (String.eqb t "") then [line_title t] else [])
   ++ [line_kind (type_ r) (side r)]
   ++ (if negb (is_none (size r)) || negb (is_none (usdcSize r))
       then [line_size (size r) (usdcSize r)] else [])
   ++ (if negb (is_none (price r)) then [line_price (price r)] else [])
   ++ [line_tx (transactionHash r)])%list.

Definition format_message (r : Row) : result string :=
  match stripped_title r with
  | inl e => inl e
  | inr t => inr (join nl (message_lines t r))
  end.

(* ================================================================== *)
(** ** The table [polymarket_activity] *)

(** The rows of the table, oldest first, each as it was bound. *)
Definition table : Type := list Row.

Definition keys (t : table) : list value := map transactionHash t.

(** [transactionHash] is the primary key, a [String] column.  SQLite
    gives the column TEXT affinity: a number bound for it is compared and
    stored as its text, so that [1], [True] and ["1"] are one key.  The
    text of a float is SQLite's own rendering of it, not the [repr];
    [real_text] stands for that rendering.  [None] is bound as NULL, which
    is equal to no key. *)
Definition column_text (real_text : string -> string) (v : value)
    : option string :=
  match v with
  | VNone => None
  | VBool b => Some (if b then "1" else "0")
  | VInt z => Some (str_of_Z z)
  | VFloat r => Some (real_text r)
  | VStr s => Some s
  end.

(** Two bound hashes that are one key of the table. *)
Definition same_key (real_text : string -> string) (a b : value) : bool :=
  match column_text real_text a, column_text real_text b with
  | Some s, Some s' => String.eqb s s'
  | _, _ => false
  end.

Definition has_key (real_text : string -> string) (t : table) (k : value)
    : bool :=
  existsb (fun r => same_key real_text (transactionHash r) k) t.

(** [INSERT ... ON CONFLICT (transactionHash) DO NOTHING], when the
    statement is carried out: the new table and the statement's
    rowcount.  (The program binds no falsy hash, line 155; a statement
    that SQLite refuses is an execute that raises.) *)
Definition insert_or_ignore (real_text : string -> string) (t : table)
    (row : Row) : table * Z :=
  if has_key real_text t (transactionHash row) then (t, 0)
  else ((t ++ [row])%list, 1).

(** Number of stored rows with the key of a given hash. *)
Definition count_key (real_text : string -> string) (t : table) (k : value)
    : nat :=
  length (filter (fun r => same_key real_text (transactionHash r) k) t).

(* ================================================================== *)
(** ** The delivery order: new_rows.sort(key=lambda x: x.get("timestamp") or 0) *)

Definition sort_key (x : Row) : value :=
  if truthy (timestamp x) then timestamp x else VInt 0.

(** Integer keys ([bool] is a subclass of [int]). *)
Definition int_key (v : value) : option Z :=
  match v with
  | VInt z => Some z
  | VBool b => Some (Z.b2z b)
  | _ => None
  end.

Definition ts_key (x : Row) : option Z := int_key (sort_key x).

(** The keys are computed once, before any comparison. *)
Fixpoint decorate (rows : list Row) : option (list (Z * Row)) :=
  match rows with
  | [] => Some []
  | x :: rest =>
      match ts_key x, decorate rest with
      | Some k, Some d => Some ((k, x) :: d)
      | _, _ => None
      end
  end.

(** A stable sort: an element goes in front of the first element that is
    not smaller, so it stays ahead of the later elements with its key. *)
Fixpoint insert_stable (kx : Z * Row) (l : list (Z * Row)) : list (Z * Row) :=
  match l with
  | [] => [kx]
  | ky :: t =>
      if fst kx <=? fst ky then kx :: l else ky :: insert_stable kx t
  end.

Definition sort_decorated (l : list (Z * Row)) : list (Z * Row) :=
  fold_right insert_stable [] l.

(* ================================================================== *)
(** ** The outside world *)

Inductive response : Type :=
| RespList (items : list dict)     (* a JSON array of activity objects *)
| RespOther (ty : string).         (* any other document, by its class *)

(** What the program cannot decide: the answer to each request, whether a
    database call fails (the database is locked, [sqlite3] cannot bind an
    integer beyond 64 bits, NOT NULL refuses a hash that SQLite takes as
    NULL, which a nan is), the text SQLite stores for a float, and what
    [list.sort] does when the keys are not all integers (floats and
    strings are ordered among themselves, mixed types raise [TypeError]);
    a sort that returns has permuted its list. *)
Record Env : Type := mkEnv {
  feed : nat -> result response;
  db_err : nat -> option exn;
  commit_err : nat -> option exn;
  tg_err : nat -> option exn;
  real_text : string -> string;
  sort_other : list Row -> result (list Row);
  sort_other_perm : forall l l', sort_other l = inr l' -> Permutation l l'
}.

Definition set_feed (E : Env) (f : nat -> result response) : Env :=
  {| feed := f;
     db_err := db_err E;
     commit_err := commit_err E;
     tg_err := tg_err E;
     real_text := real_text E;
     sort_other := sort_other E;
     sort_other_perm := sort_other_perm E |}.

Inductive event : Type :=
| EvFetch                                    (* GET /activity *)
| EvExecute (row : Row) (res : result Z)     (* conn.execute(stmt): rowcount *)
| EvCommit
| EvRollback
| EvSend (about : option Row) (text : string) (ok : bool)
                                             (* sendMessage; [about] is the
                                                row an alert is for *)
| EvSleep.

(** The table and the number of requests issued so far, by kind. *)
Record world : Type := mkWorld {
  db : table;
  n_fetch : nat;
  n_exec : nat;
  n_commit : nat;
  n_send : nat
}.

Definition set_db (w : world) (t : table) : world :=
  {| db := t; n_fetch := n_fetch w; n_exec := n_exec w;
     n_commit := n_commit w; n_send := n_send w |}.

(* ================================================================== *)
(** ** State, exceptions and a trace *)

Definition M (A : Type) : Type := world -> result A * world * list event.

Definition ret {A} (a : A) : M A := fun w => (inr a, w, []).

Definition bind {A B} (m : M A) (k : A -> M B) : M B := fun w =>
  match m w with
  | (inl e, w1, t1) => (inl e, w1, t1)
  | (inr a, w1, t1) =>
      match k a w1 with
      | (r, w2, t2) => (r, w2, (t1 ++ t2)%list)
      end
  end.

Definition lift {A} (r : result A) : M A := fun w => (r, w, []).

(** [try: body / except Exception as e: handler(e)]. *)
Definition try_except {A} (body : M A) (handler : exn -> M A) : M A := fun w =>
  match body w with
  | (inl e, w1, t1) =>
      match handler e w1 with
      | (r, w2, t2) => (r, w2, (t1 ++ t2)%list)
      end
  | ok => ok
  end.

Declare Scope monad_scope.
Delimit Scope monad_scope with M.
Notation "x <- c ;; k" := (bind c (fun x => k))
  (at level 61, c at next level, right associativity) : monad_scope.
Notation "c ;; k" := (bind c (fun _ => k))
  (at level 61, right associativity) : monad_scope.
Local Open Scope monad_scope.

Section Run.
Variable E : Env.

Definition list_sort (rows : list Row) : result (list Row) :=
  match decorate rows with
  | Some d => inr (map snd (sort_decorated d))
  | None => sort_other E rows
  end.

Definition fetch_activity : M (list dict) := fun w =>
  let w' := {| db := db w; n_fetch := S (n_fetch w); n_exec := n_exec w;
               n_commit := n_commit w; n_send := n_send w |} in
  match feed E (n_fetch w) with
  | inl e => (inl e, w', [EvFetch])
  | inr (RespList items) => (inr items, w', [EvFetch])
  | inr (RespOther ty) =>
      (inl (Exn "ValueError"
              ("Unexpected response shape: <class '" ++ ty ++ "'>")),
       w', [EvFetch])
  end.

Definition telegram_send (about : option Row) (text : string) : M unit :=
  fun w =>
  let w' := {| db := db w; n_fetch := n_fetch w; n_exec := n_exec w;
               n_commit := n_commit w; n_send := S (n_send w) |} in
  match tg_err E (n_send w) with
  | Some e => (inl e, w', [EvSend about text false])
  | None => (inr tt, w', [EvSend about text true])
  end.

(** [conn.execute(stmt)] for the insert statement; the result is
    [res.rowcount]. *)
Definition conn_execute (row : Row) : M Z := fun w =>
  let bump t := {| db := t; n_fetch := n_fetch w; n_exec := S (n_exec w);
                   n_commit := n_commit w; n_send := n_send w |} in
  match db_err E (n_exec w) with
  | Some e => (inl e, bump (db w), [EvExecute row (inl e)])
  | None =>
      let '(t, rowcount) := insert_or_ignore (real_text E) (db w) row in
      (inr rowcount, bump t, [EvExecute row (inr rowcount)])
  end.

(** [with engine.begin() as conn: body]: commit when the body ends,
    roll back when it raises. *)
Definition engine_begin {A} (body : M A) : M A := fun w =>
  match body w with
  | (inl e, w1, t1) => (inl e, set_db w1 (db w), (t1 ++ [EvRollback])%list)
  | (inr a, w1, t1) =>
      let w2 := {| db := db w1; n_fetch := n_fetch w1; n_exec := n_exec w1;
                   n_commit := S (n_commit w1); n_send := n_send w1 |} in
      match commit_err E (n_commit w1) with
      | Some e => (inl e, set_db w2 (db w), (t1 ++ [EvRollback])%list)
      | None => (inr a, w2, (t1 ++ [EvCommit])%list)
      end
  end.

(** The [for item in items] loop; [new_rows] is the list built so far. *)
Fixpoint record_items (items : list dict) (new_rows : list Row)
    : M (list Row) :=
  match items with
  | [] => ret new_rows
  | item :: rest =>
      let row := normalize_item item in
      let tx := transactionHash row in
      if negb (truthy tx) then record_items rest new_rows
      else
        rowcount <- conn_execute row ;;
        if rowcount =? 1 then record_items rest (new_rows ++ [row])%list
        else record_items rest new_rows
  end.

(** The [for r in new_rows] loop. *)
Fixpoint deliver (rows : list Row) : M unit :=
  match rows with
  | [] => ret tt
  | r :: rest =>
      text <- lift (format_message r) ;;
      telegram_send (Some r) text ;;
      deliver rest
  end.

Definition error_text (e : exn) : string :=
  "⚠️ Error: " ++ exn_type e ++ ": " ++ exn_text e.

Definition sleep : M unit := fun w => (inr tt, w, [EvSleep]).

(** The body of the [try] after the fetch: record, order, deliver. *)
Definition ingest (items : list dict) : M unit :=
  new_rows <- engine_begin (record_items items []) ;;
  sorted <- lift (list_sort new_rows) ;;
  deliver sorted.

(** The body of the [try]. *)
Definition poll_once : M unit :=
  items <- fetch_activity ;;
  ingest items.

(** One iteration of [while True]. *)
Definition cycle : M unit :=
  try_except poll_once
    (fun e =>
       try_except (telegram_send None (error_text e)) (fun _ => ret tt)) ;;
  sleep.

(** The first [n] iterations of [while True]: the loop has no exit of its
    own, and an exception that leaves an iteration leaves the loop. *)
Fixpoint run (n : nat) : M unit :=
  match n with
  | O => ret tt
  | S n' => cycle ;; run n'
  end.

End Run.

(* ================================================================== *)
(** ** json.loads, on the text of a flat object *)

(** The decoder is not called by the program; it is here to say what the
    stored [raw_json] gives back.  A float literal is read as the float
    whose [repr] is that literal, which is what Python reads from the text
    the encoder wrote. *)

Definition is_ws (c : ascii) : bool :=
  let n := N_of_ascii c in
  ((n =? 32) || (n =? 9) || (n =? 10) || (n =? 13))%N.

Fixpoint skip_ws (s : string) : string :=
  match s with
  | EmptyString => s
  | String c s' => if is_ws c then skip_ws s' else s
  end.

Fixpoint strip_prefix (p s : string) : option string :=
  match p with
  | EmptyString => Some s
  | String a p' =>
      match s with
      | EmptyString => None
      | String b s' => if Ascii.eqb a b then strip_prefix p' s' else None
      end
  end.

Definition hex_val (c : ascii) : option N :=
  let n := N_of_ascii c in
  if ((48 <=? n) && (n <=? 57))%N then Some (n - 48)%N
  else if ((97 <=? n) && (n <=? 102))%N then Some (n - 87)%N
  else if ((65 <=? n) && (n <=? 70))%N then Some (n - 55)%N
  else None.

Definition hex4 (a b c d : ascii) : option N :=
  match hex_val a, hex_val b, hex_val c, hex_val d with
  | Some x, Some y, Some z, Some u => Some (((x * 16 + y) * 16 + z) * 16 + u)%N
  | _, _, _, _ => None
  end.

(** The UTF-8 bytes of a code point of the basic plane; a surrogate has
    none. *)
Definition utf8 (cp : N) : option string :=
  if (cp <? 128)%N then Some (String (ascii_of_N cp) "")
  else if (cp <? 2048)%N then
    Some (String (ascii_of_N (192 + cp / 64))
            (String (ascii_of_N (128 + cp mod 64)) ""))
  else if ((55296 <=? cp) && (cp <=? 57343))%N then None
  else
    Some (String (ascii_of_N (224 + cp / 4096))
            (String (ascii_of_N (128 + (cp / 64) mod 64))
               (String (ascii_of_N (128 + cp mod 64)) ""))).

(** The character a short escape stands for. *)
Definition unescape (e : ascii) : option ascii :=
  let n := N_of_ascii e in
  if ((n =? 34) || (n =? 92) || (n =? 47))%N then Some e
  else if (n =? 98)%N then Some (ascii_of_N 8)
  else if (n =? 102)%N then Some (ascii_of_N 12)
  else if (n =? 110)%N then Some (ascii_of_N 10)
  else if (n =? 114)%N then Some (ascii_of_N 13)
  else if (n =? 116)%N then Some (ascii_of_N 9)
  else None.

(** A string, from behind its opening quote to its closing quote: the
    text it denotes and what follows it. *)
Fixpoint read_string (s : string) : option (string * string) :=
  match s with
  | EmptyString => None
  | String c s' =>
      let n := N_of_ascii c in
      if (n =? 34)%N then Some ("", s')
      else if (n =? 92)%N then
        match s' with
        | EmptyString => None
        | String e s'' =>
            if (N_of_ascii e =? 117)%N then
              match s'' with
              | String a (String b (String c' (String d r))) =>
                  match hex4 a b c' d with
                  | Some cp =>
                      match utf8 cp, read_string r with
                      | Some u, Some (t, r') => Some (u ++ t, r')
                      | _, _ => None
                      end
                  | None => None
                  end
              | _ => None
              end
            else
              match unescape e, read_string s'' with
              | Some x, Some (t, r') => Some (String x t, r')
              | _, _ => None
              end
        end
      else if (n <? 32)%N then None
      else
        match read_string s' with
        | Some (t, r') => Some (String c t, r')
        | None => None
        end
  end.

Definition is_num_char (c : ascii) : bool :=
  let n := N_of_ascii c in
  ((48 <=? n) && (n <=? 57)
   || (n =? 45) || (n =? 43) || (n =? 46) || (n =? 101) || (n =? 69))%N.

Definition is_float_mark (c : ascii) : bool :=
  let n := N_of_ascii c in ((n =? 46) || (n =? 101) || (n =? 69))%N.

Fixpoint span_num (s : string) : string * string :=
  match s with
  | EmptyString => ("", "")
  | String c s' =>
      if is_num_char c
      then let (tok, rest) := span_num s' in (String c tok, rest)
      else ("", s)
  end.

Fixpoint has_float_mark (s : string) : bool :=
  match s with
  | EmptyString => false
  | String c s' => is_float_mark c || has_float_mark s'
  end.

(** The longest run of number characters: a float when it holds a point
    or an exponent, an integer in its one decimal writing otherwise. *)
Definition read_number (s : string) : option (value * string) :=
  let (tok, rest) := span_num s in
  if has_float_mark tok then Some (VFloat tok, rest)
  else
    match NilZero.int_of_string tok with
    | Some d =>
        let z := Z.of_int d in
        if String.eqb (str_of_Z z) tok || String.eqb tok "-0"
        then Some (VInt z, rest) else None
    | None => None
    end.

Definition keywords : list (string * value) :=
  [("null", VNone); ("true", VBool true); ("false", VBool false);
   ("NaN", VFloat "nan"); ("Infinity", VFloat "inf");
   ("-Infinity", VFloat "-inf")].

Fixpoint read_keyword (kws : list (string * value)) (s : string)
    : option (value * string) :=
  match kws with
  | [] => None
  | (kw, v) :: kws' =>
      match strip_prefix kw s with
      | Some rest => Some (v, rest)
      | None => read_keyword kws' s
      end
  end.

(** A scalar value; arrays and objects are outside the flat model. *)
Definition read_value (s : string) : option (value * string) :=
  match s with
  | EmptyString => None
  | String c s' =>
      if (N_of_ascii c =? 34)%N then
        match read_string s' with
        | Some (t, r) => Some (VStr t, r)
        | None => None
        end
      else
        match read_keyword keywords s with
        | Some vr => Some vr
        | None => read_number s
        end
  end.

(** The members of an object, from its first key to its closing brace;
    a key seen again takes the new value, as in a dict. *)
Fixpoint read_members (fuel : nat) (s : string) (acc : dict)
    : option (dict * string) :=
  match fuel with
  | O => None
  | S fuel' =>
      match skip_ws s with
      | EmptyString => None
      | String q s1 =>
          if negb (N_of_ascii q =? 34)%N then None
          else
            match read_string s1 with
            | None => None
            | Some (k, s2) =>
                match skip_ws s2 with
                | EmptyString => None
                | String colon s3 =>
                    if negb (N_of_ascii colon =? 58)%N then None
                    else
                      match read_value (skip_ws s3) with
                      | None => None
                      | Some (v, s4) =>
                          let acc' := dict_set acc k v in
                          match skip_ws s4 with
                          | EmptyString => None
                          | String d s5 =>
                              if (N_of_ascii d =? 44)%N
                              then read_members fuel' s5 acc'
                              else if (N_of_ascii d =? 125)%N
                              then Some (acc', s5)
                              else None
                          end
                      end
                end
            end
      end
  end.

Definition json_loads (s : string) : option dict :=
  match skip_ws s with
  | EmptyString => None
  | String c s1 =>
      if negb (N_of_ascii c =? 123)%N then None
      else
        let closed (r : option (dict * string)) :=
          match r with
          | Some (d, rest) =>
              match skip_ws rest with
              | EmptyString => Some d
              | _ => None
              end
          | None => None
          end in
        match skip_ws s1 with
        | EmptyString => None
        | String d s2 =>
            if (N_of_ascii d =? 125)%N then closed (Some ([], s2))
            else closed (read_members (String.length s) s1 [])
        end
  end.

(* ================================================================== *)
(** ** env and the start of run *)

(** [os.environ] as a mapping. *)
Definition environ : Type := string -> option string.

(** [os.getenv(name, default)]: the default stands in for a variable that
    is not set, not for one that is set to the empty string. *)
Definition getenv (vars : environ) (name : string) (default : option string)
    : option string :=
  match vars name with
  | Some v => Some v
  | None => default
  end.

Definition missing_env_var (name : string) : exn :=
  Exn "RuntimeError" ("Missing env var: " ++ name).

Definition env (vars : environ) (name : string) (default : option string)
    : result string :=
  match getenv vars name default with
  | None => inl (missing_env_var name)
  | Some v => if String.eqb v "" then inl (missing_env_var name) else inr v
  end.

(** The six settings [run] reads before it builds the database. *)
Record config : Type := mkConfig {
  user : string;
  bot_token : string;
  chat_id : string;
  poll_interval : Z;
  limit : Z;
  db_path : string
}.

Definition and_then {A B} (r : result A) (k : A -> result B) : result B :=
  match r with
  | inl e => inl e
  | inr a => k a
  end.

Section Startup.
(** [int(text)]: which texts Python reads as an integer depends on the
    Unicode tables (blanks, digits of any script), so it is a parameter. *)
Variable py_int : string -> result Z.

(** Lines 131 to 138 of [run], in their order; an exception of any of
    them ends [run], there is no [try] around them. *)
Definition run_config (vars : environ) : result config :=
  and_then (env vars "POLY_USER" None) (fun user =>
  and_then (env vars "TELEGRAM_BOT_TOKEN" None) (fun bot_token =>
  and_then (env vars "TELEGRAM_CHAT_ID" None) (fun chat_id =>
  and_then (and_then (env vars "POLL_INTERVAL_SEC" (Some "15")) py_int)
    (fun poll_interval =>
  and_then (and_then (env vars "LIMIT" (Some "100")) py_int) (fun limit =>
  and_then (env vars "DB_PATH" (Some "/data/polymarket.sqlite3"))
    (fun db_path =>
  inr {| user := user; bot_token := bot_token; chat_id := chat_id;
         poll_interval := poll_interval; limit := limit;
         db_path := db_path |})))))).

End Startup.

(* ================================================================== *)
(** ** Sample data *)

Definition activity (h : string) (ts : value) : dict :=
  [("transactionHash", VStr h); ("timestamp", ts)].

Definition sort_raises : list Row -> result (list Row) :=
  fun _ => inl (Exn "TypeError"
                  "'<' not supported between instances of 'str' and 'int'").

Definition sort_raises_perm (l l' : list Row) (H : sort_raises l = inr l')
    : Permutation l l' :=
  match H in (_ = y)
        return match y with inl _ => True | inr _ => Permutation l l' end
  with eq_refl => I end.

(** A world whose feed always answers [items], whose database never
    fails and whose Telegram calls fail as [tg] says.  No hash of the
    samples is a float; the floats of the samples are short enough for
    SQLite to write them as [repr] does. *)
Definition sample_env (items : list dict) (tg : nat -> option exn) : Env :=
  {| feed := fun _ => inr (RespList items);
     db_err := fun _ => None;
     commit_err := fun _ => None;
     tg_err := tg;
     real_text := fun r => r;
     sort_other := sort_raises;
     sort_other_perm := sort_raises_perm |}.

Definition tg_up : nat -> option exn := fun _ => None.

(** Telegram refuses the first message only. *)
Definition tg_first_down : nat -> option exn := fun n =>
  match n with
  | O => Some (Exn "HTTPStatusError" "Server error '502 Bad Gateway'")
  | S _ => None
  end.

Definition empty_world : world :=
  {| db := []; n_fetch := 0; n_exec := 0; n_commit := 0; n_send := 0 |}.

Definition row_old : Row := normalize_item (activity "0xold" (VInt (-1))).
Definition row_undated : Row :=
  normalize_item [("transactionHash", VStr "0xundated")].
Definition row_a : Row := normalize_item (activity "0xa" (VInt 10)).
Definition row_b : Row := normalize_item (activity "0xb" (VInt 10)).

(** An activity with a hash and nothing else, and one with a size but no
    notional size. *)
Definition row_bare : Row := normalize_item [("transactionHash", VStr "0xbare")].
Definition row_sized : Row :=
  normalize_item [("transactionHash", VStr "0xsized"); ("size", VInt 10)].

(** Two new activities with one timestamp, and the world in which the
    alert for the first of them fails. *)
Definition two_new : list dict :=
  [activity "0xa" (VInt 10); activity "0xb" (VInt 10)].
Definition env_first_down : Env := sample_env two_new tg_first_down.
Definition alert_a : string := join nl (message_lines "" row_a).

(** The same two activities with Telegram up, and a world whose feed is
    down. *)
Definition env_up : Env := sample_env two_new tg_up.
Definition alert_b : string := join nl (message_lines "" row_b).
Definition env_feed_down : Env :=
  set_feed env_up
    (fun _ => inl (Exn "ConnectError" "All connection attempts failed")).

(** A record without hash, one with an empty hash, and a record with a
    value of each kind. *)
Definition item_no_hash : dict :=
  [("title", VStr "no hash"); ("timestamp", VInt 7)].
Definition item_empty_hash : dict :=
  [("transactionHash", VStr ""); ("timestamp", VInt 7)].
Definition item_full : dict :=
  [("transactionHash", VStr "0xabc"); ("timestamp", VInt 1700000000);
   ("price", VFloat "0.53"); ("size", VInt (-3));
   ("title", VStr ("Will it " ++ dq ++ "rain" ++ dq ++ "?" ++ nl));
   ("icon", VNone); ("closed", VBool false)].

(* ================================================================== *)
(** ** Vocabulary of the statements *)

Local Open Scope list_scope.

Definition key_le (a b : Z * Row) : Prop := fst a <= fst b.

Definition with_key (k : Z) (kx : Z * Row) : bool := fst kx =? k.

Definition keyed (kx : Z * Row) : Prop := ts_key (snd kx) = Some (fst kx).

Definition has_ts (k : Z) (x : Row) : bool :=
  match ts_key x with
  | Some k' => k' =? k
  | None => false
  end.

(** "Delivered first": nothing with a timestamp goes out ahead of a row
    that has none. *)
Definition missing_first (out : list Row) : Prop :=
  forall pre x post,
    out = (pre ++ x :: post)%list -> timestamp x = VNone ->
    Forall (fun y => timestamp y = VNone) pre.

(** Number of lines that start with a given marker. *)
Definition count_mark (mark : string) (lines : list string) : nat :=
  length (filter (String.prefix mark) lines).

(** The whitespace characters of [str.isspace], in UTF-8: U+0009..U+000D,
    U+001C..U+0020, U+0085, U+00A0, U+1680, U+2000..U+200A, U+2028,
    U+2029, U+202F, U+205F and U+3000. *)
Definition spaces : list (list N) :=
  [[9]; [10]; [11]; [12]; [13]; [28]; [29]; [30]; [31]; [32];
   [194; 133]; [194; 160]; [225; 154; 128];
   [226; 128; 128]; [226; 128; 129]; [226; 128; 130]; [226; 128; 131];
   [226; 128; 132]; [226; 128; 133]; [226; 128; 134]; [226; 128; 135];
   [226; 128; 136]; [226; 128; 137]; [226; 128; 138];
   [226; 128; 168]; [226; 128; 169]; [226; 128; 175];
   [226; 129; 159]; [227; 128; 128]]%N.

(** A string of whitespace only, the empty string included. *)
Definition blank (s : string) : Prop :=
  exists ws, Forall (fun c => In c spaces) ws /\ bytes_of s = concat ws.

(** Two worlds outside differ at most in what the feed answers. *)
Definition same_but_feed (E1 E2 : Env) : Prop :=
  db_err E1 = db_err E2 /\ commit_err E1 = commit_err E2
  /\ tg_err E1 = tg_err E2 /\ real_text E1 = real_text E2
  /\ sort_other E1 = sort_other E2.

(** The row an event alert is about. *)
Definition alert_row (ev : event) : option Row :=
  match ev with
  | EvSend (Some r) _ _ => Some r
  | _ => None
  end.

Definition is_report (ev : event) : bool :=
  match ev with
  | EvSend None _ _ => true
  | _ => false
  end.

Definition is_sleep (ev : event) : bool :=
  match ev with
  | EvSleep => true
  | _ => false
  end.

(** Fetches and database calls, the inserts being for rows whose hash is
    truthy: neither a message nor a sleep. *)
Definition quiet (ev : event) : bool :=
  match ev with
  | EvSend _ _ _ | EvSleep => false
  | EvExecute x _ => truthy (transactionHash x)
  | _ => true
  end.

(** Rows for which an alert was attempted, in order. *)
Fixpoint notified_rows (t : list event) : list Row :=
  match t with
  | [] => []
  | ev :: t' =>
      match alert_row ev with
      | Some r => r :: notified_rows t'
      | None => notified_rows t'
      end
  end.

Definition count_ev (p : event -> bool) (t : list event) : nat :=
  length (filter p t).

(** What holds of a row the loop appended to [new_rows], given the table
    [t0] the loop started from and the trace [t] it left. *)
Definition newly_recorded (t0 : table) (t : list event) (x : Row) : Prop :=
  ~ In (transactionHash x) (keys t0)
  /\ truthy (transactionHash x) = true
  /\ In (EvExecute x (inr 1)) t.

(** Every insert of the trace [t] that reported one row is for a row of
    [rows]. *)
Definition all_inserted (t : list event) (rows : list Row) : Prop :=
  forall y, In (EvExecute y (inr 1)) t -> In y rows.

(** No insert and no alert for the row [x]. *)
Definition untouched (x : Row) (ev : event) : Prop :=
  alert_row ev <> Some x /\ forall res, ev <> EvExecute x res.

Fixpoint all_chars (p : ascii -> bool) (s : string) : bool :=
  match s with
  | EmptyString => true
  | String c s' => p c && all_chars p s'
  end.

Definition is_digit (c : ascii) : bool :=
  let n := N_of_ascii c in ((48 <=? n) && (n <=? 57))%N.

(** A number token cannot be taken for a keyword: it starts with a digit,
    or with a sign and one more number character. *)
Definition num_start (tok : string) : bool :=
  match tok with
  | EmptyString => false
  | String c EmptyString => is_digit c
  | String c (String c2 _) => is_num_char c && is_num_char c2
  end.

(** What may follow a number: not a number character. *)
Definition delimited (rest : string) : Prop :=
  match rest with
  | EmptyString => True
  | String c _ => is_num_char c = false
  end.

(** The [repr] of a float: one of the three non-finite names, or a run of
    number characters with a point or an exponent. *)
Definition float_repr_ok (r : string) : bool :=
  String.eqb r "inf" || String.eqb r "-inf" || String.eqb r "nan"
  || all_chars is_num_char r && has_float_mark r && num_start r.

Definition wf_value (v : value) : bool :=
  match v with
  | VFloat r => float_repr_ok r
  | _ => true
  end.

(** A raw record as Python holds it: a dict has no key twice, and the
    text of a float is one [repr] prints. *)
Definition wf_item (item : dict) : Prop :=
  NoDup (map fst item) /\ Forall (fun kv => wf_value (snd kv) = true) item.

(** The dict the decoder builds from the members [d] on top of [acc]. *)
Definition dict_of (d acc : dict) : dict :=
  fold_left (fun a kv => dict_set a (fst kv) (snd kv)) d acc.

(** More vocabulary, for the properties of the whole iteration. *)

Definition is_execute (ev : event) : bool :=
  match ev with
  | EvExecute _ _ => true
  | _ => false
  end.

Definition is_send (ev : event) : bool :=
  match ev with
  | EvSend _ _ _ => true
  | _ => false
  end.

Definition is_fetch (ev : event) : bool :=
  match ev with
  | EvFetch => true
  | _ => false
  end.

(** A message that Telegram accepted, or an event that is no message. *)
Definition delivered (ev : event) : Prop :=
  match ev with
  | EvSend _ _ ok => ok = true
  | _ => True
  end.

(** The exception [fetch_activity] raises on the answer to request [n]. *)
Definition fetch_error (E : Env) (n : nat) : option exn :=
  match feed E n with
  | inl e => Some e
  | inr (RespOther ty) =>
      Some (Exn "ValueError"
              ("Unexpected response shape: <class '" ++ ty ++ "'>")%string)
  | inr (RespList _) => None
  end.

(** Whether Telegram accepts message number [n]. *)
Definition tg_answer (E : Env) (n : nat) : bool :=
  match tg_err E n with
  | None => true
  | Some _ => false
  end.

(** The world when the answer to the fetch has arrived. *)
Definition after_fetch (w : world) : world :=
  {| db := db w; n_fetch := S (n_fetch w); n_exec := n_exec w;
     n_commit := n_commit w; n_send := n_send w |}.

(** A row with this very hash is stored. *)
Definition holds (t : table) (k : value) : bool :=
  existsb (fun r => value_eqb (transactionHash r) k) t.

(** A record the table accounts for already: its hash is falsy, or it is
    stored. *)
Definition known (t : table) (item : dict) : bool :=
  negb (truthy (transactionHash (normalize_item item)))
  || holds t (transactionHash (normalize_item item)).

(** A record whose insert would add nothing: its hash is falsy, or its
    key is in the table. *)
Definition accounted (real_text : string -> string) (t : table)
    (item : dict) : bool :=
  negb (truthy (transactionHash (normalize_item item)))
  || has_key real_text t (transactionHash (normalize_item item)).

(** The rows a batch should add to the table [t]: for each key that is
    not in the table, the row of the first record with a truthy hash that
    has it, in the order of the batch. *)
Fixpoint fresh_rows (real_text : string -> string) (t : table)
    (items : list dict) : list Row :=
  match items with
  | [] => []
  | item :: rest =>
      let row := normalize_item item in
      if truthy (transactionHash row)
         && negb (has_key real_text t (transactionHash row))
      then row :: fresh_rows real_text (t ++ [row]) rest
      else fresh_rows real_text t rest
  end.


(** A row that is the normalization of a record of the batch, with a
    truthy hash. *)
Definition from_batch (items : list dict) (x : Row) : Prop :=
  exists item,
    In item items /\ x = normalize_item item
    /\ truthy (transactionHash x) = true.

(** A row that can be ordered and formatted: integer or missing
    timestamp, title absent or a string. *)
Definition presentable (x : Row) : Prop :=
  ts_key x <> None /\ (title x = VNone \/ exists s, title x = VStr s).

(** An environment variable that is set and not empty. *)
Definition usable (vars : environ) (name : string) : bool :=
  match vars name with
  | Some v => negb (String.eqb v "")
  | None => false
  end.

(** The text [v] is what [env] gives for a variable: its value when it is
    set, the default when it is not set, and not empty. *)
Definition comes_from (vars : environ) (name : string)
    (default : option string) (v : string) : Prop :=
  v <> ""%string
  /\ (vars name = Some v \/ (vars name = None /\ default = Some v)).

Definition required_vars : list string :=
  ["POLY_USER"; "TELEGRAM_BOT_TOKEN"; "TELEGRAM_CHAT_ID"].

(** A record whose hash is stored under the key of the hash [k]. *)
Definition has_hash (real_text : string -> string) (k : value)
    (item : dict) : bool :=
  same_key real_text (transactionHash (normalize_item item)) k.

(** Rows whose sort keys are integers in ascending order. *)
Definition oldest_first (rows : list Row) : Prop :=
  exists ks, map ts_key rows = map Some ks /\ StronglySorted Z.le ks.

(** More sample data: the world behind one iteration over [two_new], a
    row with a number for title, two records whose hashes, the number 1
    and the string "1", are one key of the table, and the variables of
    two starts, one of them with an empty chat id. *)
Definition world_seen : world :=
  {| db := [row_a; row_b]; n_fetch := 1; n_exec := 2; n_commit := 1;
     n_send := 2 |}.

Definition row_numbered : Row :=
  normalize_item [("transactionHash", VStr "0xnum"); ("title", VInt 7)].

(** A row whose title is two spaces. *)
Definition row_blank : Row :=
  normalize_item [("transactionHash", VStr "0xblank"); ("title", VStr "  ")].

(** A new activity without timestamp, then one dated -1. *)
Definition undated_then_old : list dict :=
  [[("transactionHash", VStr "0xundated")]; activity "0xold" (VInt (-1))].
Definition env_undated : Env := sample_env undated_then_old tg_up.

(** Three new activities, returned newest first but for the last. *)
Definition three_new : list dict :=
  [activity "0x50" (VInt 50); activity "0x10" (VInt 10);
   activity "0x30" (VInt 30)].
Definition env_three : Env := sample_env three_new tg_up.

Definition same_first : dict :=
  [("transactionHash", VInt 1); ("timestamp", VInt 10)].
Definition same_second : dict :=
  [("transactionHash", VStr "1"); ("timestamp", VInt 11)].
Definition two_same : list dict := [same_first; same_second].
Definition env_same : Env := sample_env two_same tg_up.

(** [int] on a text of ASCII digits, the only texts the samples give it. *)
Definition int_of_digits (s : string) : result Z :=
  match NilZero.uint_of_string s with
  | Some d => inr (Z.of_uint d)
  | None =>
      inl (Exn "ValueError"
             ("invalid literal for int() with base 10: '" ++ s ++ "'")%string)
  end.

Definition vars_of (l : list (string * string)) : environ := fun name =>
  match find (fun kv => String.eqb (fst kv) name) l with
  | Some kv => Some (snd kv)
  | None => None
  end.

Definition vars_ok : environ :=
  vars_of [("POLY_USER", "0x56687bf447db6ffa42ffe2204a05edaa20f55839");
           ("TELEGRAM_BOT_TOKEN", "123456:token");
           ("TELEGRAM_CHAT_ID", "-1001");
           ("POLL_INTERVAL_SEC", "30")]%string.

Definition vars_no_chat : environ :=
  vars_of [("POLY_USER", "0x56687bf447db6ffa42ffe2204a05edaa20f55839");
           ("TELEGRAM_BOT_TOKEN", "123456:token");
           ("TELEGRAM_CHAT_ID", EmptyString);
           ("LIMIT", "many")]%string.

Definition config_ok : config :=
  {| user := "0x56687bf447db6ffa42ffe2204a05edaa20f55839";
     bot_token := "123456:token";
     chat_id := "-1001";
     poll_interval := 30;
     limit := 100;
     db_path := "/data/polymarket.sqlite3" |}.

(* ================================================================== *)
(** * Properties *)

(** ** The table: insert-or-ignore *)

Lemma value_eqb_eq (a b : value) : value_eqb a b = true <-> a = b.
Proof.
  unfold value_eqb. destruct (value_eq_dec a b); split; congruence.
Qed.

Lemma column_text_truthy (rt : string -> string) (k : value) :
  truthy k = true -> exists s, column_text rt k = Some s.
Proof.
  destruct k; cbn; try discriminate; eauto.
Qed.

Lemma same_key_refl (rt : string -> string) (k : value) :
  truthy k = true -> same_key rt k k = true.
Proof.
  intros H. unfold same_key.
  destruct (column_text_truthy rt k H) as [s ->]. apply String.eqb_refl.
Qed.

Lemma same_key_sym (rt : string -> string) (a b : value) :
  same_key rt a b = same_key rt b a.
Proof.
  unfold same_key.
  destruct (column_text rt a), (column_text rt b); try reflexivity.
  apply String.eqb_sym.
Qed.

Lemma same_key_trans (rt : string -> string) (a b c : value) :
  same_key rt a b = true -> same_key rt b c = true -> same_key rt a c = true.
Proof.
  unfold same_key.
  destruct (column_text rt a), (column_text rt b), (column_text rt c);
    try discriminate.
  intros H1 H2. apply String.eqb_eq in H1, H2. subst. apply String.eqb_refl.
Qed.

Lemma same_key_text (rt : string -> string) (a b : value) :
  same_key rt a b = true -> column_text rt a = column_text rt b.
Proof.
  unfold same_key.
  destruct (column_text rt a), (column_text rt b); try discriminate.
  intros H. apply String.eqb_eq in H. now subst.
Qed.

(** A hash that is stored as it is, is in the table by its key. *)
Lemma has_key_In (rt : string -> string) (t : table) (k : value) :
  truthy k = true -> In k (keys t) -> has_key rt t k = true.
Proof.
  intros Hk Hin. unfold has_key, keys in *. apply existsb_exists.
  apply in_map_iff in Hin. destruct Hin as (r & Hr & Hin).
  exists r. split; [exact Hin|]. rewrite Hr. now apply same_key_refl.
Qed.

Lemma has_key_false (rt : string -> string) (t : table) (k : value) :
  truthy k = true -> has_key rt t k = false -> ~ In k (keys t).
Proof.
  intros Hk H Hin. rewrite (has_key_In rt t k Hk Hin) in H. discriminate H.
Qed.

Lemma has_key_app (rt : string -> string) (t u : table) (k : value) :
  has_key rt (t ++ u) k = has_key rt t k || has_key rt u k.
Proof. apply existsb_app. Qed.

Lemma holds_has_key (rt : string -> string) (t : table) (k : value) :
  truthy k = true -> holds t k = true -> has_key rt t k = true.
Proof.
  intros Hk H. apply has_key_In; [exact Hk|].
  unfold holds in H. apply existsb_exists in H. destruct H as (r & Hin & Hr).
  apply value_eqb_eq in Hr. subst k. unfold keys. now apply in_map.
Qed.

Lemma keys_app (t u : table) : keys (t ++ u)%list = (keys t ++ keys u)%list.
Proof. apply map_app. Qed.

Lemma count_key_app (rt : string -> string) (t u : table) (k : value) :
  count_key rt (t ++ u) k = (count_key rt t k + count_key rt u k)%nat.
Proof.
  unfold count_key. now rewrite filter_app, length_app.
Qed.

Lemma count_key_absent (rt : string -> string) (t : table) (k : value) :
  has_key rt t k = false -> count_key rt t k = 0%nat.
Proof.
  unfold has_key, count_key. induction t as [|r t IH]; [reflexivity|].
  cbn [existsb filter]. intros H. apply orb_false_iff in H.
  destruct H as [H1 H2]. rewrite H1. now apply IH.
Qed.

Lemma NoDup_snoc {A} (l : list A) (a : A) :
  NoDup l -> ~ In a l -> NoDup (l ++ [a])%list.
Proof.
  induction l as [|b l IH]; simpl; intros Hnd Hin.
  - constructor; [intros [] | constructor].
  - inversion Hnd; subst. constructor.
    + rewrite in_app_iff. intros [H|[H|[]]]; [contradiction|].
      subst. apply Hin. now left.
    + apply IH; [assumption|]. intros H. apply Hin. now right.
Qed.

Lemma insert_then_present (rt : string -> string) (t : table) (row : Row) :
  truthy (transactionHash row) = true ->
  has_key rt (fst (insert_or_ignore rt t row)) (transactionHash row) = true.
Proof.
  intros Htx. unfold insert_or_ignore.
  destruct (has_key rt t (transactionHash row)) eqn:Hk; simpl; [assumption|].
  rewrite has_key_app, Hk. cbn [has_key existsb orb].
  now rewrite same_key_refl.
Qed.

(** C2. Recording is idempotent: for an event with a usable (truthy)
    hash whose key the table does not hold yet, the first
    insert-or-ignore reports one row, the second reports none and leaves
    the table as the first one made it, and the table then holds exactly
    one row under that key.  The key is the text the [String] column
    stores, so a hash 1 and a hash "1" are the same event here. *)
Theorem record_if_new_idempotent (rt : string -> string) (t : table)
    (row : Row) :
  truthy (transactionHash row) = true ->
  has_key rt t (transactionHash row) = false ->
  let first := insert_or_ignore rt t row in
  let second := insert_or_ignore rt (fst first) row in
  snd first = 1 /\ snd second = 0 /\ fst second = fst first
  /\ fst first = (t ++ [row])%list
  /\ count_key rt (fst first) (transactionHash row) = 1%nat.
Proof.
  intros Htx Hnew first second.
  assert (Hp : has_key rt (fst first) (transactionHash row) = true)
    by now apply insert_then_present.
  subst second. unfold insert_or_ignore at 1 2. rewrite Hp. simpl.
  subst first. unfold insert_or_ignore. rewrite Hnew. simpl.
  repeat split.
  rewrite count_key_app, (count_key_absent _ _ _ Hnew).
  unfold count_key. cbn [filter]. now rewrite same_key_refl.
Qed.

Lemma record_if_new_idempotent_witness :
  truthy (transactionHash row_b) = true
  /\ has_key (fun r => r) [row_a] (transactionHash row_b) = false
  /\ snd (insert_or_ignore (fun r => r) [row_a] row_b) = 1
  /\ snd (insert_or_ignore (fun r => r)
            (fst (insert_or_ignore (fun r => r) [row_a] row_b)) row_b) = 0
  /\ count_key (fun r => r) (fst (insert_or_ignore (fun r => r) [row_a] row_b))
       (transactionHash row_b)
     = 1%nat.
Proof.
  split; [reflexivity|]. split; [reflexivity|].
  destruct (record_if_new_idempotent (fun r => r) [row_a] row_b eq_refl eq_refl)
    as (H1 & H2 & _ & _ & H4).
  repeat split; assumption.
Defined.

(* ------------------------------------------------------------------ *)
(** ** The delivery order *)

Lemma decorate_spec (rows : list Row) (d : list (Z * Row)) :
  decorate rows = Some d ->
  map snd d = rows /\ map ts_key rows = map (fun kx => Some (fst kx)) d.
Proof.
  revert d. induction rows as [|x rows IH]; simpl; intros d H.
  - inversion H; subst. auto.
  - destruct (ts_key x) as [k|] eqn:Hk; [|discriminate].
    destruct (decorate rows) as [d'|]; [|discriminate].
    inversion H; subst. destruct (IH d' eq_refl) as [H1 H2].
    simpl. rewrite H1, H2. auto.
Qed.

Lemma decorate_total (rows : list Row) :
  Forall (fun x => ts_key x <> None) rows -> exists d, decorate rows = Some d.
Proof.
  induction 1 as [|x rows Hx _ [d Hd]]; simpl.
  - now exists [].
  - destruct (ts_key x) as [k|]; [|congruence].
    rewrite Hd. eauto.
Qed.

Lemma insert_stable_perm (kx : Z * Row) (l : list (Z * Row)) :
  Permutation (kx :: l) (insert_stable kx l).
Proof.
  induction l as [|ky t IH]; simpl; [reflexivity|].
  destruct (fst kx <=? fst ky); [reflexivity|].
  rewrite perm_swap. now apply perm_skip.
Qed.

Lemma sort_decorated_perm (l : list (Z * Row)) :
  Permutation l (sort_decorated l).
Proof.
  induction l as [|kx l IH]; simpl; [reflexivity|].
  rewrite <- insert_stable_perm. now apply perm_skip.
Qed.

Lemma insert_stable_sorted (kx : Z * Row) (l : list (Z * Row)) :
  StronglySorted key_le l -> StronglySorted key_le (insert_stable kx l).
Proof.
  induction 1 as [|ky t Hs IH Hall]; simpl.
  - repeat constructor.
  - destruct (fst kx <=? fst ky) eqn:Hle.
    + apply Z.leb_le in Hle. constructor; [now constructor|].
      constructor; [assumption|].
      eapply Forall_impl; [|exact Hall]. unfold key_le. intros; lia.
    + apply Z.leb_gt in Hle. constructor; [assumption|].
      eapply Permutation_Forall; [apply insert_stable_perm|].
      constructor; [unfold key_le; lia | assumption].
Qed.

Lemma sort_decorated_sorted (l : list (Z * Row)) :
  StronglySorted key_le (sort_decorated l).
Proof.
  induction l; simpl; [constructor | now apply insert_stable_sorted].
Qed.

(** Stability: the elements with one key come out in the order they went in. *)
Lemma insert_stable_filter (k : Z) (kx : Z * Row) (l : list (Z * Row)) :
  StronglySorted key_le l ->
  filter (with_key k) (insert_stable kx l) = filter (with_key k) (kx :: l).
Proof.
  induction 1 as [|ky t Hs IH Hall]; [reflexivity|].
  cbn [insert_stable]. destruct (fst kx <=? fst ky) eqn:Hle; [reflexivity|].
  apply Z.leb_gt in Hle.
  cbn [filter] in *. rewrite IH. unfold with_key.
  destruct (fst ky =? k) eqn:E1; destruct (fst kx =? k) eqn:E2; try reflexivity.
  apply Z.eqb_eq in E1, E2. lia.
Qed.

Lemma sort_decorated_stable (k : Z) (l : list (Z * Row)) :
  filter (with_key k) (sort_decorated l) = filter (with_key k) l.
Proof.
  induction l as [|kx l IH]; [reflexivity|].
  cbn [sort_decorated fold_right]. fold (sort_decorated l).
  rewrite insert_stable_filter by apply sort_decorated_sorted.
  cbn [filter]. now rewrite IH.
Qed.

Lemma decorate_keyed (rows : list Row) (d : list (Z * Row)) :
  decorate rows = Some d -> Forall keyed d.
Proof.
  revert d. induction rows as [|x rows IH]; simpl; intros d H.
  - inversion H. constructor.
  - destruct (ts_key x) as [k|] eqn:Hk; [|discriminate].
    destruct (decorate rows) as [d'|]; [|discriminate].
    inversion H; subst. constructor; [exact Hk | now apply IH].
Qed.

Lemma keyed_map_ts (d : list (Z * Row)) :
  Forall keyed d -> map ts_key (map snd d) = map Some (map fst d).
Proof.
  induction 1 as [|kx d Hk _ IH]; simpl; [reflexivity|].
  now rewrite Hk, IH.
Qed.

Lemma keyed_filter (k : Z) (d : list (Z * Row)) :
  Forall keyed d ->
  filter (has_ts k) (map snd d) = map snd (filter (with_key k) d).
Proof.
  induction 1 as [|kx d Hk _ IH]; simpl; [reflexivity|].
  unfold has_ts at 1, with_key at 1. rewrite Hk.
  destruct (fst kx =? k); simpl; now rewrite IH.
Qed.

Lemma decorate_perm (l1 l2 : list Row) (d1 d2 : list (Z * Row)) :
  Permutation l1 l2 -> decorate l1 = Some d1 -> decorate l2 = Some d2 ->
  Permutation d1 d2.
Proof.
  intros Hp. revert d1 d2.
  induction Hp as [|x l l' Hp IH|x y l|l l' l'' Hp1 IH1 Hp2 IH2];
    simpl; intros d1 d2 H1 H2.
  - inversion H1; inversion H2; constructor.
  - destruct (ts_key x); [|discriminate].
    destruct (decorate l) as [e1|]; [|discriminate].
    destruct (decorate l') as [e2|]; [|discriminate].
    inversion H1; inversion H2; subst. apply perm_skip. now apply IH.
  - destruct (ts_key x); destruct (ts_key y); try discriminate;
      destruct (decorate l); try discriminate.
    inversion H1; inversion H2; subst. apply perm_swap.
  - destruct (decorate l') as [d'|] eqn:Hd'.
    + transitivity d'; [now apply IH1 | now apply IH2].
    + exfalso. clear - Hp1 H1 Hd'.
      assert (Hall : Forall (fun x => ts_key x <> None) l).
      { clear Hp1 Hd'. revert d1 H1. induction l as [|x l IHl]; simpl; intros.
        - constructor.
        - destruct (ts_key x) eqn:Hx; [|discriminate].
          destruct (decorate l) eqn:Hl; [|discriminate].
          constructor; [congruence | eapply IHl; reflexivity]. }
      eapply Permutation_Forall in Hall; [|exact Hp1].
      destruct (decorate_total _ Hall) as [d Hd]. congruence.
Qed.

(** Two sorted lists of integers with the same elements are the same list. *)
Lemma sorted_perm_eq (a b : list Z) :
  StronglySorted Z.le a -> StronglySorted Z.le b -> Permutation a b -> a = b.
Proof.
  intros Ha. revert b. induction Ha as [|x a Ha IH Hx]; intros b Hb Hp.
  - apply Permutation_nil in Hp. now subst.
  - destruct Hb as [|y b Hb Hy].
    + apply Permutation_sym, Permutation_nil in Hp. discriminate.
    + assert (x = y).
      { assert (Hin1 : In x (y :: b))
          by (eapply Permutation_in; [exact Hp | now left]).
        assert (Hin2 : In y (x :: a))
          by (eapply Permutation_in; [apply Permutation_sym; exact Hp | now left]).
        rewrite Forall_forall in Hx, Hy.
        destruct Hin1 as [->|Hin1]; [reflexivity|].
        destruct Hin2 as [->|Hin2]; [reflexivity|].
        pose proof (Hx _ Hin2). pose proof (Hy _ Hin1). lia. }
      subst y. f_equal. apply IH; [assumption|].
      now apply Permutation_cons_inv in Hp.
Qed.

Lemma key_le_map_fst (d : list (Z * Row)) :
  StronglySorted key_le d -> StronglySorted Z.le (map fst d).
Proof.
  induction 1 as [|x d Hs IH Hx]; simpl; constructor; [assumption|].
  rewrite Forall_map. exact Hx.
Qed.

(** With pairwise distinct keys, sorted lists with the same elements are
    the same list. *)
Lemma sorted_perm_eq_distinct (a b : list (Z * Row)) :
  StronglySorted key_le a -> StronglySorted key_le b ->
  Permutation a b -> NoDup (map fst a) -> a = b.
Proof.
  intros Ha. revert b. induction Ha as [|x a Ha IH Hx]; intros b Hb Hp Hnd.
  - apply Permutation_nil in Hp. now subst.
  - destruct Hb as [|y b Hb Hy].
    + apply Permutation_sym, Permutation_nil in Hp. discriminate.
    + simpl in Hnd. inversion Hnd as [|? ? Hnotin Hnd']; subst.
      assert (x = y).
      { assert (Hin1 : In x (y :: b))
          by (eapply Permutation_in; [exact Hp | now left]).
        assert (Hin2 : In y (x :: a))
          by (eapply Permutation_in; [apply Permutation_sym; exact Hp | now left]).
        rewrite Forall_forall in Hx, Hy.
        destruct Hin1 as [->|Hin1]; [reflexivity|].
        destruct Hin2 as [->|Hin2]; [reflexivity|].
        pose proof (Hx _ Hin2) as L1. pose proof (Hy _ Hin1) as L2.
        unfold key_le in *. exfalso. apply Hnotin.
        replace (fst x) with (fst y) by lia. now apply in_map. }
      subst y. f_equal. apply IH; try assumption.
      now apply Permutation_cons_inv in Hp.
Qed.

(** C3, as stated, fails: a row without timestamp sorts as 0, which is not
    the lowest value; in an iteration that records a row without
    timestamp and then a row dated -1, the row dated -1 is alerted
    first. *)
Lemma missing_timestamp_is_not_lowest :
  list_sort env_undated [row_undated; row_old] = inr [row_old; row_undated]
  /\ timestamp row_undated = VNone
  /\ ~ missing_first [row_old; row_undated]
  /\ exists w' t,
       cycle env_undated empty_world = (inr tt, w', t)
       /\ db w' = [row_undated; row_old]
       /\ notified_rows t = [row_old; row_undated].
Proof.
  split; [reflexivity|]. split; [reflexivity|]. split.
  - intros H. specialize (H [row_old] row_undated [] eq_refl eq_refl).
    inversion H as [|? ? Hd _]. discriminate Hd.
  - eexists. eexists. split; [vm_compute; reflexivity|].
    split; reflexivity.
Qed.

Lemma sorted_split (a b : list Z) (k : Z) :
  StronglySorted Z.le (a ++ k :: b) ->
  Forall (fun y => y <= k) a /\ Forall (fun y => k <= y) b.
Proof.
  induction a as [|z a IH]; cbn [app]; intros H;
    inversion H as [|? ? Hs Hall]; subst.
  - split; [constructor | exact Hall].
  - destruct (IH Hs) as [Ha Hb]. split; [|exact Hb].
    constructor; [|exact Ha].
    rewrite Forall_forall in Hall. apply Hall, in_or_app. right. now left.
Qed.

Lemma map_Some_keys (l : list Row) (ks : list Z) :
  map ts_key l = map Some ks ->
  Forall2 (fun y k => ts_key y = Some k) l ks.
Proof.
  revert ks. induction l as [|y l IH]; intros [|k ks] H; try discriminate H;
    constructor.
  - now injection H.
  - apply IH. now injection H.
Qed.

(** For rows whose keys are integers the sort returns, and what it
    returns is the stable sort by key: a rearrangement with non-decreasing
    keys in which the rows with one key keep their order, so that a row
    has the rows with smaller keys ahead of it and those with greater
    keys behind. *)
Lemma list_sort_stable (E : Env) (rows : list Row) :
  Forall (fun x => ts_key x <> None) rows ->
  exists out ks,
    list_sort E rows = inr out
    /\ Permutation rows out
    /\ map ts_key out = map Some ks /\ StronglySorted Z.le ks
    /\ (forall k, filter (has_ts k) out = filter (has_ts k) rows)
    /\ (forall pre x post k,
          out = (pre ++ x :: post)%list -> ts_key x = Some k ->
          Forall (fun y => exists k', ts_key y = Some k' /\ k' <= k) pre
          /\ Forall (fun y => exists k', ts_key y = Some k' /\ k <= k') post).
Proof.
  intros Hall. destruct (decorate_total _ Hall) as [d Hd].
  pose proof (decorate_keyed _ _ Hd) as Hk.
  destruct (decorate_spec _ _ Hd) as [Hrows _].
  assert (Hk' : Forall keyed (sort_decorated d))
    by (eapply Permutation_Forall; [apply sort_decorated_perm | exact Hk]).
  pose proof (sort_decorated_sorted d) as Hs.
  exists (map snd (sort_decorated d)), (map fst (sort_decorated d)).
  unfold list_sort. rewrite Hd.
  split; [reflexivity|].
  split; [rewrite <- Hrows; apply Permutation_map, sort_decorated_perm|].
  split; [now apply keyed_map_ts|].
  split; [now apply key_le_map_fst|].
  split.
  { intros k. rewrite <- Hrows, !keyed_filter by assumption.
    now rewrite sort_decorated_stable. }
  intros pre x post k Hout Hx.
  apply key_le_map_fst in Hs.
  pose proof (keyed_map_ts _ Hk') as Hts. rewrite Hout in Hts.
  remember (map fst (sort_decorated d)) as ks eqn:Eks. clear - Hs Hts Hx.
  apply map_Some_keys in Hts. apply Forall2_app_inv_l in Hts.
  destruct Hts as (kpre & krest & Hpre & Hrest & ->).
  inversion Hrest as [|? k0 ? kpost Hx0 Hpost]; subst.
  rewrite Hx in Hx0. injection Hx0 as <-.
  destruct (sorted_split _ _ _ Hs) as [Hle Hge].
  split.
  - clear - Hpre Hle. induction Hpre as [|y k' pre kpre Hy _ IH];
      constructor; inversion Hle; subst; eauto.
  - clear - Hpost Hge. induction Hpost as [|y k' post kpost Hy _ IH];
      constructor; inversion Hge; subst; eauto.
Qed.


(** Two lists holding the same rows come out of the sort with the same
    sequence of keys, and identical when no two rows share a key. *)
Lemma list_sort_rearranged (E : Env) (l1 l2 : list Row) :
  Permutation l1 l2 ->
  Forall (fun x => ts_key x <> None) l1 ->
  exists o1 o2,
    list_sort E l1 = inr o1 /\ list_sort E l2 = inr o2
    /\ map ts_key o1 = map ts_key o2
    /\ (NoDup (map ts_key l1) -> o1 = o2).
Proof.
  intros Hp Hall1.
  assert (Hall2 : Forall (fun x => ts_key x <> None) l2)
    by (eapply Permutation_Forall; eassumption).
  destruct (decorate_total _ Hall1) as [d1 Hd1].
  destruct (decorate_total _ Hall2) as [d2 Hd2].
  pose proof (decorate_perm _ _ _ _ Hp Hd1 Hd2) as Hpd.
  assert (Hps : Permutation (sort_decorated d1) (sort_decorated d2)).
  { rewrite <- (sort_decorated_perm d1), <- (sort_decorated_perm d2).
    exact Hpd. }
  pose proof (decorate_keyed _ _ Hd1) as Hk1.
  pose proof (decorate_keyed _ _ Hd2) as Hk2.
  exists (map snd (sort_decorated d1)), (map snd (sort_decorated d2)).
  unfold list_sort. rewrite Hd1, Hd2.
  split; [reflexivity|]. split; [reflexivity|]. split.
  - rewrite !keyed_map_ts
      by (eapply Permutation_Forall; [apply sort_decorated_perm | eassumption]).
    f_equal. apply sorted_perm_eq.
    + apply key_le_map_fst, sort_decorated_sorted.
    + apply key_le_map_fst, sort_decorated_sorted.
    + now apply Permutation_map.
  - intros Hnd. f_equal.
    apply sorted_perm_eq_distinct; try apply sort_decorated_sorted;
      [assumption|].
    eapply Permutation_NoDup;
      [apply Permutation_map, sort_decorated_perm|].
    destruct (decorate_spec _ _ Hd1) as [_ Hm].
    rewrite Hm in Hnd. clear - Hnd.
    induction d1 as [|kx d IH]; simpl in *; [constructor|].
    inversion Hnd as [|? ? Hnotin Hnd']; subst. constructor; [|now apply IH].
    intros Hin. apply Hnotin.
    apply in_map_iff in Hin. destruct Hin as [ky [Hky Hin]].
    apply in_map_iff. exists ky. split; [now rewrite Hky | assumption].
Qed.



(* ------------------------------------------------------------------ *)
(** ** The message *)

(** [strip] against the table of whitespace characters. *)

Lemma drop_space_In (c rest : list N) :
  In c spaces -> drop_space (c ++ rest) = Some rest.
Proof.
  intros H. unfold spaces in H.
  repeat (destruct H as [<-|H]; [reflexivity|]). destruct H.
Qed.

Lemma drop_space_rev_In (c rest : list N) :
  In c spaces -> drop_space_rev (rev c ++ rest) = Some rest.
Proof.
  intros H. unfold spaces in H.
  repeat (destruct H as [<-|H]; [reflexivity|]). destruct H.
Qed.

Ltac crack H :=
  repeat match type of H with
         | context [match ?x with _ => _ end] =>
             is_var x; destruct x; cbv beta iota in H; try discriminate H
         end.

Lemma ascii_space_In (b : N) : ascii_space b = true -> In [b] spaces.
Proof.
  unfold ascii_space. intros H.
  assert (Hb : (b = 9 \/ b = 10 \/ b = 11 \/ b = 12 \/ b = 13
                \/ b = 28 \/ b = 29 \/ b = 30 \/ b = 31 \/ b = 32)%N).
  { apply orb_true_iff in H. destruct H as [H|H];
      apply andb_true_iff in H; destruct H as [H1 H2];
      apply N.leb_le in H1, H2; lia. }
  unfold spaces.
  repeat (destruct Hb as [->|Hb]; [simpl; auto 40|]). subst. simpl; auto 40.
Qed.

Ltac in_spaces := unfold spaces; simpl; auto 40.

Ltac found c H :=
  injection H as <-; exists c; split; [in_spaces | reflexivity].

Lemma second_byte (n : N) :
  ((128 <=? n) && (n <=? 138) || (n =? 168) || (n =? 169) || (n =? 175))%N
  = true ->
  In [226; 128; n]%N spaces.
Proof.
  intros H.
  assert (Hn : (n = 128 \/ n = 129 \/ n = 130 \/ n = 131 \/ n = 132
                \/ n = 133 \/ n = 134 \/ n = 135 \/ n = 136 \/ n = 137
                \/ n = 138 \/ n = 168 \/ n = 169 \/ n = 175)%N).
  { repeat (apply orb_true_iff in H; destruct H as [H|H]);
      [apply andb_true_iff in H; destruct H as [H1 H2];
       apply N.leb_le in H1, H2; lia
      | apply N.eqb_eq in H; lia ..]. }
  repeat (destruct Hn as [->|Hn]; [in_spaces|]). subst. in_spaces.
Qed.

Lemma first_byte (n : N) :
  ((n =? 133) || (n =? 160))%N = true -> In [194; n]%N spaces.
Proof.
  intros H. apply orb_true_iff in H.
  destruct H as [H|H]; apply N.eqb_eq in H; subst; in_spaces.
Qed.

Lemma drop_space_spec (l t : list N) :
  drop_space l = Some t -> exists c, In c spaces /\ l = c ++ t.
Proof.
  intros H. destruct l as [|b l]; [discriminate H|].
  cbn [drop_space] in H.
  destruct (ascii_space b) eqn:Hs.
  { injection H as <-. exists [b].
    split; [now apply ascii_space_In | reflexivity]. }
  crack H.
  - found [227; 128; 128]%N H.
  - found [225; 154; 128]%N H.
  - found [226; 129; 159]%N H.
  - match type of H with (if ?c then _ else _) = _ => destruct c eqn:Hc end;
      [|discriminate H].
    injection H as <-. exists [226; 128; n]%N.
    split; [now apply second_byte | reflexivity].
  - match type of H with (if ?c then _ else _) = _ => destruct c eqn:Hc end;
      [|discriminate H].
    injection H as <-. exists [194; n]%N.
    split; [now apply first_byte | reflexivity].
Qed.

Lemma drop_space_rev_spec (l t : list N) :
  drop_space_rev l = Some t -> exists c, In c spaces /\ l = rev c ++ t.
Proof.
  intros H. destruct l as [|b l]; [discriminate H|].
  cbn [drop_space_rev] in H.
  destruct (ascii_space b) eqn:Hs.
  { injection H as <-. exists [b].
    split; [now apply ascii_space_In | reflexivity]. }
  crack H;
    try (match type of H with
         | (if ?c then _ else _) = _ => destruct c eqn:Hc; [|discriminate H]
         end);
    injection H as <-;
    match goal with
    | |- exists c, _ /\ ?x :: ?y :: ?z :: ?l = rev c ++ ?l =>
        exists [z; y; x]
    | |- exists c, _ /\ ?x :: ?y :: ?l = rev c ++ ?l => exists [y; x]
    end;
    (split; [first [now apply second_byte | in_spaces] | reflexivity]).
Qed.

Lemma drop_while_spec (step : list N -> option (list N)) (P : list N -> Prop) :
  (forall l t, step l = Some t -> exists c, P c /\ l = c ++ t) ->
  forall fuel l,
  exists ws, Forall P ws /\ l = concat ws ++ drop_while step fuel l.
Proof.
  intros Hstep. induction fuel as [|fuel IH]; intros l.
  - exists []. split; [constructor | reflexivity].
  - cbn [drop_while]. destruct (step l) as [t|] eqn:Hs.
    + destruct (Hstep _ _ Hs) as (c & Hc & ->).
      destruct (IH t) as (ws & Hws & Ht).
      exists (c :: ws). split; [now constructor|].
      cbn [concat]. rewrite <- app_assoc. now f_equal.
    + exists []. split; [constructor | reflexivity].
Qed.

Lemma drop_while_all (step : list N -> option (list N)) (P : list N -> Prop) :
  (forall c rest, P c -> step (c ++ rest) = Some rest) ->
  step [] = None ->
  forall ws fuel,
    Forall P ws -> (length ws <= fuel)%nat ->
    drop_while step fuel (concat ws) = [].
Proof.
  intros Hstep Hnil. induction ws as [|c ws IH]; intros fuel Hws Hlen.
  - destruct fuel; [reflexivity|]. cbn [drop_while concat]. now rewrite Hnil.
  - inversion Hws as [|? ? Hc Hrest]; subst.
    destruct fuel as [|fuel]; [cbn in Hlen; lia|].
    cbn [drop_while concat]. rewrite (Hstep _ _ Hc).
    apply IH; [exact Hrest | cbn in Hlen; lia].
Qed.

Lemma spaces_nonempty (c : list N) : In c spaces -> (1 <= length c)%nat.
Proof.
  intros H. unfold spaces in H.
  repeat (destruct H as [<-|H]; [cbn; lia|]). destruct H.
Qed.

Lemma concat_length_spaces (ws : list (list N)) :
  Forall (fun c => In c spaces) ws -> (length ws <= length (concat ws))%nat.
Proof.
  induction 1 as [|c ws Hc _ IH]; [reflexivity|].
  cbn [concat length]. rewrite length_app.
  pose proof (spaces_nonempty c Hc). lia.
Qed.

Lemma string_of_bytes_nil (l : list N) :
  string_of_bytes l = EmptyString -> l = [].
Proof. destruct l; [reflexivity | discriminate]. Qed.

Lemma rev_concat_spaces (ws : list (list N)) :
  Forall (fun c => exists c0, In c0 spaces /\ c = rev c0) ws ->
  exists ws', Forall (fun c => In c spaces) ws' /\ rev (concat ws) = concat ws'.
Proof.
  induction 1 as [|c ws (c0 & Hc0 & ->) _ (ws' & Hws' & IH)].
  - exists []. split; [constructor | reflexivity].
  - exists (ws' ++ [c0]). split.
    + apply Forall_app. split; [exact Hws'|]. constructor; [exact Hc0 | constructor].
    + cbn [concat]. rewrite rev_app_distr, rev_involutive, IH, concat_app.
      cbn [concat]. now rewrite app_nil_r.
Qed.

(** [strip] leaves nothing exactly of a blank string. *)
Lemma strip_blank (s : string) : strip s = EmptyString <-> blank s.
Proof.
  unfold strip, blank. split.
  - intros H. apply string_of_bytes_nil in H.
    assert (H2 : drop_while drop_space_rev
                   (length (drop_while drop_space (length (bytes_of s))
                              (bytes_of s)))
                   (rev (drop_while drop_space (length (bytes_of s))
                           (bytes_of s))) = []).
    { rewrite <- (rev_involutive (drop_while _ _ (rev _))). now rewrite H. }
    clear H.
    destruct (drop_while_spec drop_space (fun c => In c spaces)
                drop_space_spec (length (bytes_of s)) (bytes_of s))
      as (ws & Hws & Hl).
    remember (drop_while drop_space (length (bytes_of s)) (bytes_of s)) as l1.
    destruct (drop_while_spec drop_space_rev
                (fun c => exists c0, In c0 spaces /\ c = rev c0)
                (fun l t Hd => match drop_space_rev_spec l t Hd with
                               | ex_intro _ c0 (conj Hin Heq) =>
                                   ex_intro _ (rev c0)
                                     (conj (ex_intro _ c0 (conj Hin eq_refl))
                                        Heq)
                               end)
                (length l1) (rev l1))
      as (ws1 & Hws1 & Hl1).
    rewrite H2, app_nil_r in Hl1.
    destruct (rev_concat_spaces ws1 Hws1) as (ws2 & Hws2 & Hrev).
    rewrite <- Hl1, rev_involutive in Hrev.
    exists (ws ++ ws2). split; [now apply Forall_app|].
    now rewrite concat_app, <- Hrev.
  - intros (ws & Hws & Hl). rewrite Hl.
    rewrite (drop_while_all drop_space (fun c => In c spaces)); try assumption.
    + reflexivity.
    + intros c rest Hc. now apply drop_space_In.
    + reflexivity.
    + now apply concat_length_spaces.
Qed.

(** C8, as stated, fails for [type] and [side], and for [size] and
    [usdcSize] taken one at a time: the line is printed with [None] in the
    place of what is absent. *)
Lemma absent_fields_printed_as_None :
  type_ row_bare = VNone /\ side row_bare = VNone
  /\ format_message row_bare
     = inr (join nl ["🆕 Polymarket activity"; "🔁 None / None"; "🧾 tx=0xbare"])
  /\ usdcSize row_sized = VNone
  /\ format_message row_sized
     = inr (join nl ["🆕 Polymarket activity"; "🔁 None / None";
                     "📦 size=10 | usdc=None"; "🧾 tx=0xsized"]).
Proof. repeat split. Qed.

(** C8, amended.  The message is a function of the row's fields.  When the
    title is absent or a string the call returns, and of the optional
    lines: the title line holds the stripped title [t] and is printed
    exactly when [t] is not empty, which is when the title is neither
    absent nor blank (whitespace only); the price line is printed only
    for a price that is present, the size line unless both [size] and
    [usdcSize] are absent; the type/side line is always printed. *)
Theorem format_message_optional_lines (r : Row) :
  (title r = VNone \/ exists s, title r = VStr s) ->
  exists t,
    format_message r = inr (join nl (message_lines t r))
    /\ (title r = VNone -> t = "")
    /\ (forall s, title r = VStr s -> t = strip s /\ (blank s <-> t = ""))
    /\ count_mark "📝" (message_lines t r)
       = (if String.eqb t "" then 0 else 1)%nat
    /\ (t <> "" -> In (line_title t) (message_lines t r))
    /\ count_mark "💲" (message_lines t r)
       = (if is_none (price r) then 0 else 1)%nat
    /\ count_mark "📦" (message_lines t r)
       = (if is_none (size r) && is_none (usdcSize r) then 0 else 1)%nat
    /\ count_mark "🔁" (message_lines t r) = 1%nat
    /\ In (line_kind (type_ r) (side r)) (message_lines t r).
Proof.
  intros Ht.
  assert (Hs : exists t,
             stripped_title r = inr t
             /\ (title r = VNone -> t = "")
             /\ (forall s, title r = VStr s -> t = strip s)).
  { unfold stripped_title. destruct Ht as [Ht|[s Ht]]; rewrite Ht; simpl.
    - exists (strip ""). repeat split. discriminate.
    - destruct (String.eqb s "") eqn:Hs; cbn [negb]; eexists;
        (split; [reflexivity|]); (split; [discriminate|]);
        intros s' Hs'; injection Hs' as <-; [|reflexivity].
      apply String.eqb_eq in Hs. now subst. }
  destruct Hs as (t & Hs & Hnone & Hstr). exists t.
  unfold format_message. rewrite Hs.
  split; [reflexivity|]. split; [exact Hnone|]. split.
  { intros s Hts. split; [now apply Hstr|].
    rewrite (Hstr s Hts). symmetry. apply strip_blank. }
  unfold message_lines, count_mark.
  destruct (String.eqb t "") eqn:Ht0; destruct (is_none (price r));
    destruct (is_none (size r)); destruct (is_none (usdcSize r));
    cbn; repeat split; auto 10;
    intros Hne; apply String.eqb_eq in Ht0; contradiction.
Qed.

Lemma format_message_optional_lines_witness :
  (title row_blank = VNone \/ exists s, title row_blank = VStr s)
  /\ blank "  "
  /\ exists t,
       format_message row_blank = inr (join nl (message_lines t row_blank))
       /\ count_mark "📝" (message_lines t row_blank) = 0%nat
       /\ count_mark "💲" (message_lines t row_blank) = 0%nat
       /\ count_mark "🔁" (message_lines t row_blank) = 1%nat.
Proof.
  assert (H : title row_blank = VNone \/ exists s, title row_blank = VStr s)
    by (right; exists "  "%string; reflexivity).
  assert (Hb : blank "  ").
  { exists [[32]; [32]]%N. split; [|reflexivity].
    constructor; [in_spaces|]. constructor; [in_spaces | constructor]. }
  split; [exact H|]. split; [exact Hb|].
  destruct (format_message_optional_lines row_blank H)
    as (t & H1 & _ & H3 & H4 & _ & H5 & _ & H7 & _).
  exists t. split; [exact H1|].
  destruct (H3 "  "%string eq_refl) as [_ [Ht _]].
  rewrite H4, H5, H7, (Ht Hb). repeat split.
Defined.

(* ------------------------------------------------------------------ *)
(** ** Records without a usable hash *)

Lemma set_feed_same (E : Env) (f g : nat -> result response) :
  same_but_feed (set_feed E f) (set_feed E g).
Proof. repeat split. Qed.

Lemma record_items_feed (E1 E2 : Env) (items : list dict) :
  same_but_feed E1 E2 ->
  forall acc w, record_items E1 items acc w = record_items E2 items acc w.
Proof.
  intros (Hdb & _ & _ & Hrt & _).
  induction items as [|item rest IH]; intros acc w; [reflexivity|].
  cbn [record_items].
  destruct (negb (truthy (transactionHash (normalize_item item)))); [apply IH|].
  unfold bind, conn_execute. rewrite Hdb, Hrt.
  destruct (db_err E2 (n_exec w)); [reflexivity|].
  destruct (insert_or_ignore (real_text E2) (db w) (normalize_item item))
    as [t rc].
  destruct (rc =? 1); now rewrite IH.
Qed.

Lemma deliver_feed (E1 E2 : Env) (rows : list Row) :
  same_but_feed E1 E2 -> forall w, deliver E1 rows w = deliver E2 rows w.
Proof.
  intros (_ & _ & Htg & _). induction rows as [|r rest IH]; intros w;
    [reflexivity|].
  cbn [deliver]. unfold bind, lift, telegram_send.
  destruct (format_message r); [reflexivity|]. rewrite Htg.
  destruct (tg_err E2 (n_send w)); [reflexivity|]. now rewrite IH.
Qed.

Lemma ingest_feed (E1 E2 : Env) (items : list dict) (w : world) :
  same_but_feed E1 E2 -> ingest E1 items w = ingest E2 items w.
Proof.
  intros Hs. pose proof Hs as (_ & Hc & _ & _ & Hso).
  unfold ingest, bind, engine_begin, lift, list_sort.
  rewrite (record_items_feed E1 E2 items Hs), Hc, Hso.
  destruct (record_items E2 items [] w) as [[[e|rows] w1] t1]; [reflexivity|].
  destruct (commit_err E2 (n_commit w1)); [reflexivity|].
  destruct (decorate rows) as [d|];
    [|destruct (sort_other E2 rows); [reflexivity|]];
    now rewrite (deliver_feed E1 E2 _ Hs).
Qed.

(** A record whose normalized hash is falsy leaves the loop as it found it. *)
Lemma record_items_skip (E : Env) (pre post : list dict) (bad : dict) :
  truthy (transactionHash (normalize_item bad)) = false ->
  forall acc w,
    record_items E (pre ++ bad :: post) acc w
    = record_items E (pre ++ post) acc w.
Proof.
  intros Hbad. induction pre as [|item pre IH]; intros acc w.
  - cbn [app record_items]. now rewrite Hbad.
  - cbn [app record_items].
    destruct (negb (truthy (transactionHash (normalize_item item)))); [apply IH|].
    unfold bind. destruct (conn_execute E (normalize_item item) w) as [[[e|rc] w1] t1];
      [reflexivity|].
    destruct (rc =? 1); now rewrite IH.
Qed.

Lemma ingest_skip (E : Env) (pre post : list dict) (bad : dict) (w : world) :
  truthy (transactionHash (normalize_item bad)) = false ->
  ingest E (pre ++ bad :: post) w = ingest E (pre ++ post) w.
Proof.
  intros Hbad. unfold ingest, bind, engine_begin.
  now rewrite (record_items_skip E pre post bad Hbad).
Qed.

Lemma cycle_skip (E : Env) (pre post : list dict) (bad : dict) (w : world) :
  truthy (transactionHash (normalize_item bad)) = false ->
  cycle (set_feed E (fun _ => inr (RespList (pre ++ bad :: post)))) w
  = cycle (set_feed E (fun _ => inr (RespList (pre ++ post)))) w.
Proof.
  intros Hbad.
  set (E1 := set_feed E (fun _ => inr (RespList (pre ++ bad :: post)))).
  set (E2 := set_feed E (fun _ => inr (RespList (pre ++ post)))).
  assert (Hs : same_but_feed E1 E2) by apply set_feed_same.
  unfold cycle, bind, try_except, poll_once, bind, fetch_activity.
  cbn [feed E1 E2 set_feed].
  rewrite (ingest_feed E1 E2 _ _ Hs), (ingest_skip E2 pre post bad _ Hbad).
  destruct (ingest E2 (pre ++ post) _) as [[[e|[]] w1] t1]; [|reflexivity].
  unfold telegram_send. destruct Hs as (_ & _ & Htg & _). rewrite Htg.
  reflexivity.
Qed.

(* ------------------------------------------------------------------ *)
(** ** Reading a trace *)

Lemma notified_rows_app (t u : list event) :
  notified_rows (t ++ u) = (notified_rows t ++ notified_rows u)%list.
Proof.
  induction t as [|ev t IH]; simpl; [reflexivity|].
  destruct (alert_row ev); simpl; now rewrite IH.
Qed.

Lemma notified_rows_quiet (t : list event) :
  Forall (fun ev => quiet ev = true) t -> notified_rows t = [].
Proof.
  induction 1 as [|ev t Hq _ IH]; simpl; [reflexivity|].
  destruct ev as [| | | |[r|] ? ?|]; simpl in *; try discriminate; exact IH.
Qed.

Lemma notified_rows_alerts (t : list event) (rows : list Row) :
  map alert_row t = map Some rows -> notified_rows t = rows.
Proof.
  revert rows. induction t as [|ev t IH]; intros [|r rows] H;
    simpl in *; try discriminate; [reflexivity|].
  inversion H as [[H1 H2]]. rewrite H1. f_equal. now apply IH.
Qed.

Lemma count_ev_app (p : event -> bool) (t u : list event) :
  count_ev p (t ++ u) = (count_ev p t + count_ev p u)%nat.
Proof. unfold count_ev. now rewrite filter_app, length_app. Qed.

Lemma count_ev_none (p : event -> bool) (t : list event) :
  Forall (fun ev => p ev = false) t -> count_ev p t = 0%nat.
Proof.
  unfold count_ev. induction 1 as [|ev t Hp _ IH]; simpl; [reflexivity|].
  now rewrite Hp.
Qed.

Lemma quiet_not_report (t : list event) :
  Forall (fun ev => quiet ev = true) t ->
  Forall (fun ev => is_report ev = false) t
  /\ Forall (fun ev => is_sleep ev = false) t.
Proof.
  intros H; split; eapply Forall_impl; try exact H;
    intros [| | | |[r|] ? ?|]; simpl; congruence.
Qed.

Lemma alerts_not_report (t : list event) (rows : list Row) :
  map alert_row t = map Some rows ->
  Forall (fun ev => is_report ev = false) t
  /\ Forall (fun ev => is_sleep ev = false) t.
Proof.
  revert rows. induction t as [|ev t IH]; intros [|r rows] H;
    simpl in *; try discriminate; [split; constructor|].
  inversion H as [[H1 H2]]. destruct (IH _ H2) as [Ha Hb].
  destruct ev as [| | | |[x|] ? ?|]; simpl in *; try discriminate.
  split; constructor; auto.
Qed.

(* ------------------------------------------------------------------ *)
(** ** The recording loop *)

Lemma newly_recorded_weaken (t0 : table) (row : Row) (ev : event)
    (t : list event) (x : Row) :
  newly_recorded (t0 ++ [row]) t x -> newly_recorded t0 (ev :: t) x.
Proof.
  intros (H1 & H2 & H3). repeat split; [|assumption|now right].
  intros Hin. apply H1. rewrite keys_app, in_app_iff. now left.
Qed.

Lemma record_items_spec (E : Env) (items : list dict) :
  forall acc w r w' t,
    record_items E items acc w = (r, w', t) ->
    Forall (fun ev => quiet ev = true) t
    /\ n_send w' = n_send w
    /\ match r with
       | inl _ => True
       | inr rows =>
           exists added,
             rows = (acc ++ added)%list
             /\ db w' = (db w ++ added)%list
             /\ NoDup (keys added)
             /\ Forall (newly_recorded (db w) t) added
             /\ all_inserted t added
       end.
Proof.
  induction items as [|item rest IH]; intros acc w r w' t H.
  - inversion H; subst. split; [constructor|]. split; [reflexivity|].
    exists []. rewrite !app_nil_r.
    repeat (split; [first [reflexivity | constructor]|]). intros y [].
  - cbn [record_items] in H.
    destruct (truthy (transactionHash (normalize_item item))) eqn:Htx;
      cbn [negb] in H; [|now apply IH].
    unfold bind, conn_execute in H.
    destruct (db_err E (n_exec w)) as [e|].
    { inversion H; subst.
      split; [constructor; [exact Htx | constructor]|]. split; reflexivity. }
    unfold insert_or_ignore in H.
    destruct (has_key (real_text E) (db w)
                (transactionHash (normalize_item item))) eqn:Hk;
      cbn [Z.eqb Pos.eqb] in H.
    + match type of H with
      | context [record_items E rest acc ?w1] =>
          destruct (record_items E rest acc w1) as [[r2 w2] t2] eqn:Hrec
      end.
      inversion H; subst. apply IH in Hrec. cbn [db n_send] in Hrec.
      destruct Hrec as (Hq & Hn & Hr).
      split; [constructor; [exact Htx | exact Hq]|]. split; [exact Hn|].
      destruct r; [exact I|].
      destruct Hr as (added & H1 & H2 & H3 & H4 & H5). exists added.
      repeat (split; [assumption|]). split.
      * eapply Forall_impl; [|exact H4].
        intros x (Ha & Hb & Hc). repeat split; try assumption. now right.
      * intros y [Hy|Hy]; [discriminate Hy | now apply H5].
    + match type of H with
      | context [record_items E rest ?acc1 ?w1] =>
          destruct (record_items E rest acc1 w1) as [[r2 w2] t2] eqn:Hrec
      end.
      inversion H; subst. apply IH in Hrec. cbn [db n_send] in Hrec.
      destruct Hrec as (Hq & Hn & Hr).
      split; [constructor; [exact Htx | exact Hq]|]. split; [exact Hn|].
      destruct r; [exact I|].
      destruct Hr as (added & H1 & H2 & H3 & H4 & H5).
      exists (normalize_item item :: added).
      rewrite <- !app_assoc in *. cbn [app] in *.
      split; [assumption|]. split; [assumption|]. split; [|split].
      * simpl. constructor; [|assumption].
        intros Hin. apply in_map_iff in Hin. destruct Hin as [x [Hx Hin]].
        rewrite Forall_forall in H4. destruct (H4 _ Hin) as (Hnot & _).
        apply Hnot. rewrite keys_app, in_app_iff. right. left. now rewrite Hx.
      * constructor.
        -- repeat split; [|assumption | now left].
           now apply (has_key_false (real_text E)).
        -- eapply Forall_impl; [|exact H4].
           intros x. apply newly_recorded_weaken.
      * intros y [Hy|Hy]; [left; congruence | right; now apply H5].
Qed.

Lemma engine_begin_spec (E : Env) (items : list dict) (w : world) r w' t :
  engine_begin E (record_items E items []) w = (r, w', t) ->
  Forall (fun ev => quiet ev = true) t
  /\ n_send w' = n_send w
  /\ match r with
     | inl _ => db w' = db w
     | inr rows =>
         db w' = db w ++ rows
         /\ NoDup (keys rows)
         /\ Forall (newly_recorded (db w) t) rows
         /\ In EvCommit t
         /\ all_inserted t rows
     end.
Proof.
  unfold engine_begin. intros H.
  destruct (record_items E items [] w) as [[r1 w1] t1] eqn:Hrec.
  apply record_items_spec in Hrec. destruct Hrec as (Hq & Hn & Hr).
  assert (Hq' : forall ev, quiet ev = true ->
                           Forall (fun ev => quiet ev = true) (t1 ++ [ev])).
  { intros ev Hev. apply Forall_app. split; [assumption|]. now constructor. }
  destruct r1 as [e|rows].
  - inversion H; subst. split; [now apply Hq'|]. split; [exact Hn|]. reflexivity.
  - destruct (commit_err E (n_commit w1)) as [e|]; inversion H; subst.
    + split; [now apply Hq'|]. split; [exact Hn|]. reflexivity.
    + split; [now apply Hq'|]. split; [exact Hn|].
      destruct Hr as (added & H1 & H2 & H3 & H4 & H5).
      cbn [app] in H1. subst added.
      cbn [db]. split; [assumption|]. split; [assumption|]. split; [|split].
      * eapply Forall_impl; [|exact H4]. intros x (Ha & Hb & Hc).
        repeat split; try assumption. apply in_or_app. now left.
      * apply in_or_app. right. now left.
      * intros y Hy. apply in_app_or in Hy.
        destruct Hy as [Hy|[Hy|[]]]; [now apply H5 | discriminate Hy].
Qed.

Lemma deliver_spec (E : Env) (rows : list Row) :
  forall w r w' t,
    deliver E rows w = (r, w', t) ->
    db w' = db w
    /\ exists n, map alert_row t = map Some (firstn n rows).
Proof.
  induction rows as [|x rest IH]; intros w r w' t H.
  - inversion H; subst. split; [reflexivity|]. now exists 0%nat.
  - cbn [deliver] in H. unfold bind, lift, telegram_send in H.
    destruct (format_message x) as [e|text].
    { inversion H; subst. split; [reflexivity|]. now exists 0%nat. }
    destruct (tg_err E (n_send w)) as [e|].
    { inversion H; subst. split; [reflexivity|]. now exists 1%nat. }
    match type of H with
    | context [deliver E rest ?w1] =>
        destruct (deliver E rest w1) as [[r2 w2] t2] eqn:Hd
    end.
    inversion H; subst. apply IH in Hd. cbn [db] in Hd.
    destruct Hd as (Hdb & n & Hn). split; [assumption|].
    exists (S n). simpl. now rewrite Hn.
Qed.

Lemma list_sort_perm (E : Env) (rows sorted : list Row) :
  list_sort E rows = inr sorted -> Permutation rows sorted.
Proof.
  unfold list_sort. destruct (decorate rows) as [d|] eqn:Hd.
  - intros H. inversion H; subst.
    destruct (decorate_spec _ _ Hd) as [Hrows _]. rewrite <- Hrows at 1.
    apply Permutation_map, sort_decorated_perm.
  - apply sort_other_perm.
Qed.

(** One pass over a fetched batch: the rows [rows] were appended to the
    table (none of their hashes was stored before, no two share a hash),
    and alerts were attempted for the first [n] of them in sorted order,
    after every database call of the pass. *)
Lemma ingest_spec (E : Env) (items : list dict) (w : world) r w' t :
  ingest E items w = (r, w', t) ->
  exists rows sorted n tA tB,
    t = tA ++ tB
    /\ Forall (fun ev => quiet ev = true) tA
    /\ map alert_row tB = map Some (firstn n sorted)
    /\ Permutation rows sorted
    /\ db w' = db w ++ rows
    /\ NoDup (keys rows)
    /\ Forall (newly_recorded (db w) tA) rows
    /\ (tB = [] \/ In EvCommit tA /\ all_inserted tA rows).
Proof.
  unfold ingest, bind. intros H.
  destruct (engine_begin E (record_items E items []) w) as [[r1 w1] t1] eqn:Hb.
  apply engine_begin_spec in Hb. destruct Hb as (Hq & Hn & Hr).
  destruct r1 as [e|rows].
  - inversion H; subst. exists [], [], 0%nat, t, [].
    rewrite !app_nil_r.
    repeat (split; [first [assumption | reflexivity | constructor]|]).
    now left.
  - destruct Hr as (Hdb & Hnd & Hnew & Hc & Hall).
    unfold lift in H. destruct (list_sort E rows) as [e|sorted] eqn:Hs.
    + inversion H; subst. exists rows, rows, 0%nat, t1, [].
      rewrite !app_nil_r.
      repeat (split; [first [assumption | reflexivity]|]).
      now left.
    + apply list_sort_perm in Hs.
      destruct (deliver E sorted w1) as [[r2 w2] t2] eqn:Hd.
      inversion H; subst. apply deliver_spec in Hd.
      destruct Hd as (Hdb2 & n & Hal).
      exists rows, sorted, n, t1, t2.
      repeat (split; [first [assumption | reflexivity | congruence]|]).
      right. now split.
Qed.

Lemma poll_once_spec (E : Env) (w : world) r w' t :
  poll_once E w = (r, w', t) ->
  exists rows sorted n tA tB,
    t = tA ++ tB
    /\ Forall (fun ev => quiet ev = true) tA
    /\ map alert_row tB = map Some (firstn n sorted)
    /\ Permutation rows sorted
    /\ db w' = db w ++ rows
    /\ NoDup (keys rows)
    /\ Forall (newly_recorded (db w) tA) rows
    /\ (tB = [] \/ In EvCommit tA /\ all_inserted tA rows).
Proof.
  unfold poll_once, bind, fetch_activity. intros H.
  assert (Hfail : forall e w1,
             (inl e, w1, [EvFetch]) = (r, w', t) -> db w1 = db w ->
             exists rows sorted n tA tB,
               t = tA ++ tB
               /\ Forall (fun ev => quiet ev = true) tA
               /\ map alert_row tB = map Some (firstn n sorted)
               /\ Permutation rows sorted
               /\ db w' = db w ++ rows
               /\ NoDup (keys rows)
               /\ Forall (newly_recorded (db w) tA) rows
               /\ (tB = [] \/ In EvCommit tA /\ all_inserted tA rows)).
  { intros e w1 Heq Hdb. inversion Heq; subst.
    exists [], [], 0%nat, [EvFetch], []. rewrite !app_nil_r.
    repeat (split; [first [assumption | reflexivity | repeat constructor]|]).
    now left. }
  destruct (feed E (n_fetch w)) as [e|[items|ty]];
    [eapply Hfail; [exact H | reflexivity] | |
     eapply Hfail; [exact H | reflexivity]].
  clear Hfail.
  match type of H with
  | context [ingest E items ?w1] =>
      destruct (ingest E items w1) as [[r2 w2] t2] eqn:Hi
  end.
  inversion H; subst. apply ingest_spec in Hi. cbn [db] in Hi.
  destruct Hi as (rows & sorted & n & tA & tB & Ht & Hq & Hal & Hp & Hdb
                  & Hnd & Hnew & Hc).
  exists rows, sorted, n, (EvFetch :: tA), tB. subst t2.
  split; [reflexivity|]. split; [now constructor|].
  split; [assumption|]. split; [assumption|]. split; [assumption|].
  split; [assumption|]. split.
  - eapply Forall_impl; [|exact Hnew]. intros x (Ha & Hb & Hcc).
    repeat split; try assumption. now right.
  - destruct Hc as [Hc|[Hc Hall]]; [now left | right]. split; [now right|].
    intros y [Hy|Hy]; [discriminate Hy | now apply Hall].
Qed.

(** One iteration, whatever the outside world does: it ends normally and
    its trace is the quiet part (fetch and database calls), then the
    alerts, then at most one error report, then the sleep. *)
Lemma cycle_spec (E : Env) (w : world) r w' t :
  cycle E w = (r, w', t) ->
  r = inr tt
  /\ exists rows sorted n tA tB tC,
       t = tA ++ tB ++ tC ++ [EvSleep]
       /\ Forall (fun ev => quiet ev = true) tA
       /\ map alert_row tB = map Some (firstn n sorted)
       /\ Permutation rows sorted
       /\ db w' = db w ++ rows
       /\ NoDup (keys rows)
       /\ Forall (newly_recorded (db w) tA) rows
       /\ (tB = [] \/ In EvCommit tA /\ all_inserted tA rows)
       /\ (tC = [] \/ exists text ok, tC = [EvSend None text ok]).
Proof.
  unfold cycle, bind, try_except, sleep. intros H.
  destruct (poll_once E w) as [[r1 w1] t1] eqn:Hp.
  apply poll_once_spec in Hp.
  destruct Hp as (rows & sorted & n & tA & tB & Ht & Hq & Hal & Hp & Hdb
                  & Hnd & Hnew & Hc).
  destruct r1 as [e|[]].
  - unfold telegram_send, ret in H.
    destruct (tg_err E (n_send w1)) as [e'|]; inversion H; subst;
      (split; [reflexivity|]);
      exists rows, sorted, n, tA, tB;
      [exists [EvSend None (error_text e) false]
      |exists [EvSend None (error_text e) true]];
      rewrite <- !app_assoc; cbn [app];
      (repeat (split; [first [assumption | reflexivity]|]));
      right; eauto.
  - inversion H; subst. split; [reflexivity|].
    exists rows, sorted, n, tA, tB, []. rewrite <- !app_assoc. cbn [app].
    repeat (split; [first [assumption | reflexivity]|]). now left.
Qed.

(* ------------------------------------------------------------------ *)
(** ** Errors stop at the end of the iteration *)

Lemma poll_once_no_report (E : Env) (w : world) r w' t :
  poll_once E w = (r, w', t) ->
  count_ev is_report t = 0%nat /\ count_ev is_sleep t = 0%nat.
Proof.
  intros H. apply poll_once_spec in H.
  destruct H as (rows & sorted & n & tA & tB & Ht & Hq & Hal & _).
  subst t. rewrite !count_ev_app.
  destruct (quiet_not_report _ Hq) as [Q1 Q2].
  destruct (alerts_not_report _ _ Hal) as [A1 A2].
  now rewrite !count_ev_none by assumption.
Qed.

Lemma cycle_shape (E : Env) (w : world) :
  exists w' t,
    cycle E w = (inr tt, w', t ++ [EvSleep])
    /\ count_ev is_sleep t = 0%nat
    /\ (count_ev is_report t <= 1)%nat
    /\ (forall w1 t1, poll_once E w = (inr tt, w1, t1) -> w' = w1 /\ t = t1)
    /\ (forall e w1 t1,
          poll_once E w = (inl e, w1, t1) ->
          db w' = db w1
          /\ exists ok, t = t1 ++ [EvSend None (error_text e) ok]).
Proof.
  unfold cycle, bind, try_except, sleep.
  destruct (poll_once E w) as [[r1 w1] t1] eqn:Hp.
  destruct (poll_once_no_report _ _ _ _ _ Hp) as [Hr Hs].
  destruct r1 as [e|[]].
  - unfold telegram_send, ret.
    destruct (tg_err E (n_send w1)) as [e'|]; cbn [app];
      eexists; eexists; (split; [reflexivity|]);
      rewrite !count_ev_app, Hr, Hs; cbn;
      (split; [reflexivity|]); (split; [lia|]);
      (split; [intros ? ? Hx; discriminate Hx|]);
      intros ? ? ? Hx; inversion Hx; subst; (split; [reflexivity|]); eauto.
  - eexists; eexists. split; [reflexivity|].
    rewrite Hr, Hs. split; [reflexivity|]. split; [lia|]. split.
    + intros ? ? Hx. inversion Hx; subst. now split.
    + intros ? ? ? Hx. discriminate Hx.
Qed.

(** C5. Whatever fails in an iteration (the fetch, the shape of the
    answer, a database call, the sort, the formatting, a message), the
    iteration ends normally: the error is reported by one message at most,
    whose own failure is dropped, and the sleep follows.  The loop
    therefore runs every one of its iterations: after [n] of them it has
    slept [n] times and no exception has left it. *)
Theorem errors_stop_at_cycle_boundary (E : Env) :
  (forall w, exists w' t,
     cycle E w = (inr tt, w', t ++ [EvSleep])
     /\ count_ev is_sleep t = 0%nat
     /\ (count_ev is_report t <= 1)%nat
     /\ (forall w1 t1, poll_once E w = (inr tt, w1, t1) -> t = t1)
     /\ (forall e w1 t1,
           poll_once E w = (inl e, w1, t1) ->
           exists ok, t = t1 ++ [EvSend None (error_text e) ok]))
  /\ (forall n w, exists w' t,
        run E n w = (inr tt, w', t) /\ count_ev is_sleep t = n).
Proof.
  split.
  - intros w. destruct (cycle_shape E w) as (w' & t & H1 & H2 & H3 & H4 & H5).
    exists w', t. repeat (split; [assumption|]). split.
    + intros w1 t1 Hp. now destruct (H4 _ _ Hp).
    + intros e w1 t1 Hp. now destruct (H5 _ _ _ Hp).
  - induction n as [|n IH]; intros w.
    + exists w, []. now split.
    + destruct (cycle_shape E w) as (w1 & t1 & H1 & H2 & _).
      destruct (IH w1) as (w2 & t2 & Hrun & Hcount).
      exists w2, ((t1 ++ [EvSleep]) ++ t2).
      cbn [run]. unfold bind. rewrite H1, Hrun. split; [reflexivity|].
      rewrite !count_ev_app, H2, Hcount. reflexivity.
Qed.

Lemma errors_stop_at_cycle_boundary_witness :
  (exists w' t,
     cycle env_feed_down empty_world = (inr tt, w', t ++ [EvSleep])
     /\ count_ev is_report t = 1%nat)
  /\ exists w' t,
       run env_feed_down 3 empty_world = (inr tt, w', t)
       /\ count_ev is_sleep t = 3%nat.
Proof.
  split.
  - destruct (proj1 (errors_stop_at_cycle_boundary env_feed_down) empty_world)
      as (w' & t & H1 & _ & _ & _ & H5).
    exists w', t. split; [exact H1|].
    destruct (H5 _ _ _ eq_refl) as [ok ->]. reflexivity.
  - exact (proj2 (errors_stop_at_cycle_boundary env_feed_down) 3%nat
             empty_world).
Defined.

(* ------------------------------------------------------------------ *)
(** ** At most one alert for a hash *)

Lemma NoDup_firstn {A} (n : nat) (l : list A) : NoDup l -> NoDup (firstn n l).
Proof.
  intros H. rewrite <- (firstn_skipn n l) in H.
  now apply NoDup_app_remove_r in H.
Qed.

Lemma In_firstn {A} (n : nat) (l : list A) (x : A) :
  In x (firstn n l) -> In x l.
Proof.
  intros H. rewrite <- (firstn_skipn n l). apply in_or_app. now left.
Qed.

Lemma sorted_firstn (n : nat) (ks : list Z) :
  StronglySorted Z.le ks -> StronglySorted Z.le (firstn n ks).
Proof.
  intros H. revert n. induction H as [|k ks Hs IH Hk]; intros [|n];
    cbn [firstn]; try constructor.
  - apply IH.
  - rewrite Forall_forall in *. intros z Hz. apply Hk.
    now apply In_firstn in Hz.
Qed.

(** An element that the front part of a list cannot hold lies behind it. *)
Lemma split_behind {A} (P : A -> Prop) (a rest pre post : list A) (e : A) :
  Forall P a -> ~ P e -> a ++ rest = pre ++ e :: post ->
  exists pre', pre = a ++ pre' /\ rest = pre' ++ e :: post.
Proof.
  intros Ha He. revert pre. induction Ha as [|x a Hx _ IH]; intros pre Heq.
  - exists pre. now split.
  - destruct pre as [|y pre]; cbn [app] in Heq; inversion Heq; subst.
    + contradiction.
    + destruct (IH _ H1) as (pre' & H2 & H3). exists pre'. subst. now split.
Qed.

(** The alerts of one iteration: they are for rows the iteration itself
    appended to the table, each at most once; and when there is an alert,
    every insert of the iteration that reported one row is for a row that
    is now in the table. *)
Lemma cycle_notified (E : Env) (w : world) r w' t :
  cycle E w = (r, w', t) ->
  exists rows,
    db w' = db w ++ rows
    /\ NoDup (keys rows)
    /\ (forall x, In x rows -> ~ In (transactionHash x) (keys (db w)))
    /\ NoDup (keys (notified_rows t))
    /\ incl (notified_rows t) rows
    /\ (notified_rows t <> [] -> all_inserted t rows).
Proof.
  intros H. apply cycle_spec in H.
  destruct H as (_ & rows & sorted & n & tA & tB & tC & Ht & Hq & Hal & Hp
                 & Hdb & Hnd & Hnew & HB & HC).
  exists rows. split; [assumption|]. split; [assumption|]. split.
  { intros x Hx. rewrite Forall_forall in Hnew. now destruct (Hnew _ Hx). }
  assert (Hn : notified_rows t = firstn n sorted).
  { subst t. rewrite !notified_rows_app, (notified_rows_quiet _ Hq),
      (notified_rows_alerts _ _ Hal).
    destruct HC as [->|(text & ok & ->)]; cbn; now rewrite app_nil_r. }
  rewrite Hn. split; [|split].
  - unfold keys. rewrite <- firstn_map. apply NoDup_firstn.
    eapply Permutation_NoDup; [apply Permutation_map; exact Hp | exact Hnd].
  - intros x Hx. apply In_firstn in Hx.
    eapply Permutation_in; [apply Permutation_sym; exact Hp | exact Hx].
  - intros Hne. destruct HB as [->|[_ Hall]].
    { destruct (firstn n sorted); [contradiction | discriminate Hal]. }
    intros y Hy. subst t. apply in_app_or in Hy.
    destruct Hy as [Hy|Hy]; [now apply Hall|]. exfalso.
    apply in_app_or in Hy. destruct Hy as [Hy|Hy].
    + apply (in_map alert_row) in Hy. rewrite Hal in Hy.
      apply in_map_iff in Hy. destruct Hy as (z & Hz & _). discriminate Hz.
    + apply in_app_or in Hy. destruct Hy as [Hy|[Hy|[]]]; [|discriminate Hy].
      destruct HC as [->|(text & ok & ->)]; [destruct Hy|].
      destruct Hy as [Hy|[]]. discriminate Hy.
Qed.

(** Within one iteration an alert comes after the insert of its row
    reported one row, and after the commit. *)
Lemma cycle_alert_after_insert (E : Env) (w : world) r w' t :
  cycle E w = (r, w', t) ->
  forall pre x text ok post,
    t = pre ++ EvSend (Some x) text ok :: post ->
    In (EvExecute x (inr 1)) pre /\ In EvCommit pre.
Proof.
  intros H pre x text ok post Heq. apply cycle_spec in H.
  destruct H as (_ & rows & sorted & n & tA & tB & tC & Ht & Hq & Hal & Hp
                 & Hdb & Hnd & Hnew & HB & HC).
  rewrite Ht in Heq.
  assert (He : ~ quiet (EvSend (Some x) text ok) = true) by discriminate.
  destruct (split_behind (fun ev => quiet ev = true) tA _ pre post _ Hq He Heq)
    as (pre' & Hpre & Hrest).
  assert (Hin : In (EvSend (Some x) text ok) (tB ++ tC ++ [EvSleep]))
    by (rewrite Hrest; apply in_or_app; right; now left).
  assert (HinB : In (EvSend (Some x) text ok) tB).
  { apply in_app_or in Hin. destruct Hin as [Hin|Hin]; [assumption|].
    exfalso. apply in_app_or in Hin.
    destruct Hin as [Hin|[Hin|[]]]; [|discriminate].
    destruct HC as [->|(text' & ok' & ->)]; [destruct Hin|].
    destruct Hin as [Hin|[]]. discriminate. }
  assert (Hx : In x rows).
  { apply (in_map alert_row) in HinB. rewrite Hal in HinB. cbn in HinB.
    apply in_map_iff in HinB. destruct HinB as (y & Hy & Hin'). inversion Hy; subst.
    apply In_firstn in Hin'.
    eapply Permutation_in; [apply Permutation_sym; exact Hp | exact Hin']. }
  rewrite Forall_forall in Hnew. destruct (Hnew _ Hx) as (_ & _ & Hex).
  subst pre. split; [apply in_or_app; now left|].
  destruct HB as [->|[HB _]]; [destruct HinB|]. apply in_or_app. now left.
Qed.

Lemma run_notified (E : Env) (n : nat) :
  forall w, exists w' t,
    run E n w = (inr tt, w', t)
    /\ NoDup (keys (notified_rows t))
    /\ (forall x, In x (notified_rows t) ->
          ~ In (transactionHash x) (keys (db w))
          /\ In (transactionHash x) (keys (db w')))
    /\ (forall k, In k (keys (db w)) -> In k (keys (db w')))
    /\ (NoDup (keys (db w)) -> NoDup (keys (db w'))).
Proof.
  induction n as [|n IH]; intros w.
  - exists w, []. cbn. repeat split; try constructor; try tauto.
  - destruct (cycle E w) as [[r1 w1] t1] eqn:Hc.
    destruct (cycle_spec _ _ _ _ _ Hc) as [-> _].
    destruct (cycle_notified _ _ _ _ _ Hc)
      as (rows & Hdb & Hnd & Hfresh & Hnn & Hincl & _).
    destruct (IH w1) as (w2 & t2 & Hrun & Hnd2 & Hx2 & Hmono2 & Huniq2).
    exists w2, (t1 ++ t2). cbn [run]. unfold bind. rewrite Hc, Hrun.
    split; [reflexivity|].
    assert (Hmono1 : forall k, In k (keys (db w)) -> In k (keys (db w1))).
    { intros k Hk. rewrite Hdb, keys_app. apply in_or_app. now left. }
    assert (Hin1 : forall x, In x (notified_rows t1) ->
                             In (transactionHash x) (keys (db w1))).
    { intros x Hx. rewrite Hdb, keys_app. apply in_or_app. right.
      apply in_map. now apply Hincl. }
    rewrite notified_rows_app. split; [|split; [|split]].
    + rewrite keys_app. apply NoDup_app; try assumption.
      intros k Hk1 Hk2. unfold keys in Hk1, Hk2.
      apply in_map_iff in Hk1. destruct Hk1 as (x & Hkx & Hx).
      apply in_map_iff in Hk2. destruct Hk2 as (y & Hky & Hy).
      destruct (Hx2 _ Hy) as [Hnot _]. apply Hnot.
      rewrite Hky, <- Hkx. now apply Hin1.
    + intros x Hx. apply in_app_or in Hx. destruct Hx as [Hx|Hx].
      * split; [apply Hfresh; now apply Hincl|]. apply Hmono2. now apply Hin1.
      * destruct (Hx2 _ Hx) as [Ha Hb]. split; [|assumption].
        intros Hk. apply Ha. now apply Hmono1.
    + intros k Hk. apply Hmono2. now apply Hmono1.
    + intros Hu. apply Huniq2. rewrite Hdb, keys_app.
      apply NoDup_app; try assumption.
      intros k Hk1 Hk2. unfold keys in Hk2.
      apply in_map_iff in Hk2. destruct Hk2 as (x & Hkx & Hx).
      apply (Hfresh _ Hx). now rewrite Hkx.
Qed.

(** C6. Over any number of iterations and whatever the outside world
    does: an alert is sent for a row only after the insert of that row
    reported one row, and after the commit, in the same iteration; no two
    alerts of the run are for the same hash, no alert is for a hash the
    table held when the run began, and a hash once stored stays stored,
    in one row when the table held each hash once. *)
Theorem notified_once_and_after_recording (E : Env) :
  (forall w r w' t,
     cycle E w = (r, w', t) ->
     forall pre x text ok post,
       t = pre ++ EvSend (Some x) text ok :: post ->
       In (EvExecute x (inr 1)) pre /\ In EvCommit pre)
  /\ (forall n w, exists w' t,
        run E n w = (inr tt, w', t)
        /\ NoDup (keys (notified_rows t))
        /\ (forall x, In x (notified_rows t) ->
              ~ In (transactionHash x) (keys (db w))
              /\ In (transactionHash x) (keys (db w')))
        /\ (forall k, In k (keys (db w)) -> In k (keys (db w')))
        /\ (NoDup (keys (db w)) -> NoDup (keys (db w')))).
Proof.
  split.
  - apply cycle_alert_after_insert.
  - intros n w. apply run_notified.
Qed.

Lemma notified_once_and_after_recording_witness :
  (In (EvExecute row_b (inr 1))
      [EvFetch; EvExecute row_a (inr 1); EvExecute row_b (inr 1); EvCommit;
       EvSend (Some row_a) alert_a true]
   /\ In EvCommit
        [EvFetch; EvExecute row_a (inr 1); EvExecute row_b (inr 1); EvCommit;
         EvSend (Some row_a) alert_a true])
  /\ exists w' t,
       run env_up 2 empty_world = (inr tt, w', t)
       /\ NoDup (keys (notified_rows t)).
Proof.
  split.
  - exact (proj1 (notified_once_and_after_recording env_up)
             empty_world _ _ _ eq_refl
             [EvFetch; EvExecute row_a (inr 1); EvExecute row_b (inr 1);
              EvCommit; EvSend (Some row_a) alert_a true]
             row_b alert_b true [EvSleep] eq_refl).
  - destruct (proj2 (notified_once_and_after_recording env_up) 2%nat
                empty_world) as (w' & t & H1 & H2 & _).
    exists w', t. split; assumption.
Defined.

(* ------------------------------------------------------------------ *)
(** ** Skipped records leave no event *)

Lemma cycle_ignores_falsy (E : Env) (w : world) r w' t (x : Row) :
  cycle E w = (r, w', t) ->
  truthy (transactionHash x) = false ->
  Forall (untouched x) t.
Proof.
  intros H Hx. apply cycle_spec in H.
  destruct H as (_ & rows & sorted & n & tA & tB & tC & Ht & Hq & Hal & Hp
                 & Hdb & Hnd & Hnew & _ & HC).
  subst t. rewrite !Forall_app. split; [|split; [|split]].
  - eapply Forall_impl; [|exact Hq]. intros ev Hev. split.
    + destruct ev as [| | | |[y|] ? ?|]; simpl in *; discriminate.
    + intros res ->. simpl in Hev. congruence.
  - rewrite Forall_forall. intros ev Hin. split.
    + intros Ha. apply (in_map alert_row) in Hin. rewrite Hal, Ha in Hin.
      apply in_map_iff in Hin. destruct Hin as (y & Hy & Hin).
      inversion Hy; subst y. apply In_firstn in Hin.
      eapply Permutation_in in Hin; [|apply Permutation_sym; exact Hp].
      rewrite Forall_forall in Hnew. destruct (Hnew _ Hin) as (_ & Ht & _).
      congruence.
    + intros res ->. apply (in_map alert_row) in Hin. rewrite Hal in Hin.
      apply in_map_iff in Hin. destruct Hin as (y & Hy & _). discriminate.
  - destruct HC as [->|(text & ok & ->)]; repeat constructor; discriminate.
  - repeat constructor; discriminate.
Qed.

Lemma absent_hash_falsy (item : dict) :
  dict_lookup item "transactionHash" = None ->
  truthy (transactionHash (normalize_item item)) = false.
Proof. intros H. cbn. unfold dict_get. now rewrite H. Qed.

Lemma present_hash_falsy (item : dict) (v : value) :
  dict_lookup item "transactionHash" = Some v -> truthy v = false ->
  truthy (transactionHash (normalize_item item)) = false.
Proof. intros H Hv. cbn. unfold dict_get. now rewrite H. Qed.

(** C4. A fetched record without [transactionHash] is skipped: the
    iteration ends in the same world and with the same trace as for the
    batch without that record, and its trace holds no insert and no alert
    for the record's row. *)
Theorem record_without_hash_is_skipped (E : Env) (pre post : list dict)
    (bad : dict) (w : world) :
  dict_lookup bad "transactionHash" = None ->
  let with_bad :=
    cycle (set_feed E (fun _ => inr (RespList (pre ++ bad :: post)))) w in
  with_bad = cycle (set_feed E (fun _ => inr (RespList (pre ++ post)))) w
  /\ Forall (untouched (normalize_item bad)) (snd with_bad).
Proof.
  intros H with_bad. apply absent_hash_falsy in H. split.
  - now apply cycle_skip.
  - subst with_bad.
    destruct (cycle _ w) as [[r w'] t] eqn:Hc. cbn [snd].
    eapply cycle_ignores_falsy; eassumption.
Qed.

Lemma record_without_hash_is_skipped_witness :
  dict_lookup item_no_hash "transactionHash" = None
  /\ cycle (set_feed env_first_down
              (fun _ => inr (RespList ([activity "0xa" (VInt 10)]
                                       ++ item_no_hash
                                       :: [activity "0xb" (VInt 10)]))))
           empty_world
     = cycle (set_feed env_first_down
                (fun _ => inr (RespList ([activity "0xa" (VInt 10)]
                                         ++ [activity "0xb" (VInt 10)]))))
             empty_world.
Proof.
  split; [reflexivity|].
  exact (proj1 (record_without_hash_is_skipped env_first_down
                  [activity "0xa" (VInt 10)] [activity "0xb" (VInt 10)]
                  item_no_hash empty_world eq_refl)).
Defined.

(** C10. A fetched record whose [transactionHash] is present but falsy
    (the empty string, for one) is skipped in the same way: the test is
    the truth value of the normalized hash, not the presence of the key. *)
Theorem record_with_falsy_hash_is_skipped (E : Env) (pre post : list dict)
    (bad : dict) (v : value) (w : world) :
  dict_lookup bad "transactionHash" = Some v ->
  truthy v = false ->
  let with_bad :=
    cycle (set_feed E (fun _ => inr (RespList (pre ++ bad :: post)))) w in
  with_bad = cycle (set_feed E (fun _ => inr (RespList (pre ++ post)))) w
  /\ Forall (untouched (normalize_item bad)) (snd with_bad).
Proof.
  intros H Hv with_bad. pose proof (present_hash_falsy _ _ H Hv) as Hf. split.
  - now apply cycle_skip.
  - subst with_bad.
    destruct (cycle _ w) as [[r w'] t] eqn:Hc. cbn [snd].
    eapply cycle_ignores_falsy; eassumption.
Qed.

Lemma record_with_falsy_hash_is_skipped_witness :
  dict_lookup item_empty_hash "transactionHash" = Some (VStr "")
  /\ truthy (VStr "") = false
  /\ cycle (set_feed env_first_down
              (fun _ => inr (RespList ([activity "0xa" (VInt 10)]
                                       ++ item_empty_hash
                                       :: [activity "0xb" (VInt 10)]))))
           empty_world
     = cycle (set_feed env_first_down
                (fun _ => inr (RespList ([activity "0xa" (VInt 10)]
                                         ++ [activity "0xb" (VInt 10)]))))
             empty_world.
Proof.
  split; [reflexivity|]. split; [reflexivity|].
  exact (proj1 (record_with_falsy_hash_is_skipped env_first_down
                  [activity "0xa" (VInt 10)] [activity "0xb" (VInt 10)]
                  item_empty_hash (VStr "") empty_world eq_refl eq_refl)).
Defined.

(* ------------------------------------------------------------------ *)
(** ** A failed alert ends the delivery *)

(** An element that the back part of a list cannot hold lies in front. *)
Lemma split_front {A} (P : A -> Prop) (a b pre post : list A) (e : A) :
  Forall P b -> ~ P e -> a ++ b = pre ++ e :: post ->
  exists q, a = pre ++ e :: q /\ post = q ++ b.
Proof.
  intros Hb He. revert pre. induction a as [|y a IH]; intros pre Heq.
  - cbn [app] in Heq. subst b. apply Forall_app in Hb. destruct Hb as [_ Hb].
    inversion Hb; subst. contradiction.
  - destruct pre as [|z pre]; cbn [app] in Heq; injection Heq as H1 H2.
    + subst. exists a. now split.
    + subst z. destruct (IH _ H2) as (q & -> & ->). exists q. now split.
Qed.

Lemma deliver_failed_last (E : Env) (rows : list Row) :
  forall w r w' t,
    deliver E rows w = (r, w', t) ->
    forall pre x text post,
      t = pre ++ EvSend (Some x) text false :: post ->
      post = [] /\ exists e, r = inl e.
Proof.
  induction rows as [|y rest IH]; intros w r w' t H pre x text post Heq.
  - injection H as Hr Hw Ht. subst t. destruct pre; discriminate.
  - cbn [deliver] in H. unfold bind, lift, telegram_send in H.
    destruct (format_message y) as [e|txt].
    { injection H as Hr Hw Ht. subst t. destruct pre; discriminate. }
    destruct (tg_err E (n_send w)) as [e|].
    { injection H as Hr Hw Ht. subst t.
      destruct pre as [|ev pre]; cbn [app] in Heq.
      - injection Heq as H1 H2 H3. subst post. split; [reflexivity | eauto].
      - injection Heq as H1 H2. destruct pre; discriminate. }
    match type of H with
    | context [deliver E rest ?w1] =>
        destruct (deliver E rest w1) as [[r2 w2] t2] eqn:Hd
    end.
    injection H as Hr Hw Ht. subst t r.
    destruct pre as [|ev pre]; cbn [app] in Heq; [discriminate|].
    injection Heq as H1 H2.
    eapply IH; [exact Hd | exact H2].
Qed.

Lemma quiet_no_send (t pre post : list event) (ev : event) :
  Forall (fun ev => quiet ev = true) t -> quiet ev = false ->
  t <> pre ++ ev :: post.
Proof.
  intros Hq Hev Heq. subst t. apply Forall_app in Hq. destruct Hq as [_ Hq].
  inversion Hq; subst. congruence.
Qed.

Lemma ingest_failed_last (E : Env) (items : list dict) (w : world) r w' t :
  ingest E items w = (r, w', t) ->
  forall pre x text post,
    t = pre ++ EvSend (Some x) text false :: post ->
    post = [] /\ exists e, r = inl e.
Proof.
  unfold ingest, bind. intros H pre x text post Heq.
  destruct (engine_begin E (record_items E items []) w) as [[r1 w1] t1] eqn:Hb.
  apply engine_begin_spec in Hb. destruct Hb as (Hq & _).
  assert (He : ~ quiet (EvSend (Some x) text false) = true) by discriminate.
  assert (He' : quiet (EvSend (Some x) text false) = false) by reflexivity.
  destruct r1 as [e|rows].
  { injection H as Hr Hw Ht. subst t.
    exfalso. exact (quiet_no_send _ _ _ _ Hq He' Heq). }
  unfold lift in H. destruct (list_sort E rows) as [e|sorted].
  { injection H as Hr Hw Ht. subst t. rewrite app_nil_r in Heq.
    exfalso. exact (quiet_no_send _ _ _ _ Hq He' Heq). }
  destruct (deliver E sorted w1) as [[r2 w2] t2] eqn:Hd.
  injection H as Hr Hw Ht. subst t r. cbn [app] in Heq.
  destruct (split_behind _ _ _ _ _ _ Hq He Heq) as (pre' & _ & Hrest).
  eapply deliver_failed_last; eassumption.
Qed.

Lemma poll_once_failed_last (E : Env) (w : world) r w' t :
  poll_once E w = (r, w', t) ->
  forall pre x text post,
    t = pre ++ EvSend (Some x) text false :: post ->
    post = [] /\ exists e, r = inl e.
Proof.
  unfold poll_once, bind, fetch_activity. intros H pre x text post Heq.
  destruct (feed E (n_fetch w)) as [e|[items|ty]];
    try (injection H as Hr Hw Ht; subst t;
         destruct pre as [|? [|? ?]]; discriminate).
  match type of H with
  | context [ingest E items ?w1] =>
      destruct (ingest E items w1) as [[r2 w2] t2] eqn:Hi
  end.
  injection H as Hr Hw Ht. subst t r.
  destruct pre as [|ev pre]; [discriminate|].
  cbn [app] in Heq. injection Heq as H1 H2.
  eapply ingest_failed_last; [exact Hi | exact H2].
Qed.

(** C1, as stated, fails: with two new events and a first alert that
    fails, both rows are stored, the failure is reported, and no alert is
    attempted for the second row. *)
Lemma second_alert_not_attempted :
  let out := cycle (sample_env [activity "0xa" (VInt 10);
                                activity "0xb" (VInt 10)] tg_first_down)
                   empty_world in
  db (snd (fst out)) = [row_a; row_b]
  /\ map alert_row (snd out) =
       [None; None; None; None; Some row_a; None; None]
  /\ notified_rows (snd out) = [row_a]
  /\ ~ In row_b (notified_rows (snd out)).
Proof.
  cbv zeta. split; [reflexivity|]. split; [reflexivity|].
  split; [reflexivity|].
  intros [H|[]]. apply (f_equal transactionHash) in H. discriminate H.
Qed.

(** C1, amended.  When an alert fails in an iteration, every row whose
    insert reported one row in that iteration is in the table at its end,
    once, and none of them was stored before; the failed alert is the last
    alert of the iteration: what follows it is the error report and the
    sleep, so the events that were next in the batch get no alert. *)
Theorem failed_alert_ends_delivery (E : Env) (w : world) r w' t
    (pre post : list event) (x : Row) (text : string) :
  cycle E w = (r, w', t) ->
  t = pre ++ EvSend (Some x) text false :: post ->
  r = inr tt
  /\ (exists etext ok, post = [EvSend None etext ok; EvSleep])
  /\ notified_rows post = []
  /\ exists rows,
       db w' = db w ++ rows
       /\ NoDup (keys rows)
       /\ (forall y, In y rows -> ~ In (transactionHash y) (keys (db w)))
       /\ incl (notified_rows t) rows
       /\ all_inserted t rows.
Proof.
  intros Hc Ht.
  destruct (cycle_spec _ _ _ _ _ Hc) as [-> _]. split; [reflexivity|].
  set (e := EvSend (Some x) text false) in *.
  assert (He : ~ alert_row e = None) by discriminate.
  assert (Hpost : exists etext ok, post = [EvSend None etext ok; EvSleep]).
  { destruct (cycle_shape E w) as (w2 & t0 & Hc2 & _ & _ & Hok & Herr).
    rewrite Hc in Hc2. injection Hc2 as Hw Ht0. rewrite Ht in Ht0.
    destruct (poll_once E w) as [[[err|[]] w1] t1] eqn:Hp.
    - destruct (Herr _ _ _ eq_refl) as (_ & ok & ->).
      rewrite <- app_assoc in Ht0. cbn [app] in Ht0. symmetry in Ht0.
      assert (Hb : Forall (fun ev => alert_row ev = None)
                     [EvSend None (error_text err) ok; EvSleep])
        by (repeat constructor).
      destruct (split_front _ _ _ _ _ _ Hb He Ht0) as (q & Ht1 & Hq).
      destruct (poll_once_failed_last _ _ _ _ _ Hp _ _ _ _ Ht1) as [-> _].
      subst post. cbn [app]. eauto.
    - destruct (Hok _ _ eq_refl) as (_ & ->). symmetry in Ht0.
      assert (Hb : Forall (fun ev => alert_row ev = None) [EvSleep])
        by (repeat constructor).
      destruct (split_front _ _ _ _ _ _ Hb He Ht0) as (q & Ht1 & Hq).
      destruct (poll_once_failed_last _ _ _ _ _ Hp _ _ _ _ Ht1) as [_ [? Hr]].
      discriminate Hr. }
  split; [exact Hpost|]. split.
  { destruct Hpost as (etext & ok & ->). reflexivity. }
  destruct (cycle_notified _ _ _ _ _ Hc)
    as (rows & H1 & H2 & H3 & _ & H5 & H6).
  exists rows. repeat (split; [assumption|]). apply H6.
  rewrite Ht, notified_rows_app. cbn. now destruct (notified_rows pre).
Qed.

Lemma failed_alert_ends_delivery_witness :
  snd (cycle env_first_down empty_world)
  = [EvFetch; EvExecute row_a (inr 1); EvExecute row_b (inr 1); EvCommit]
    ++ EvSend (Some row_a) alert_a false
    :: [EvSend None
          (error_text (Exn "HTTPStatusError" "Server error '502 Bad Gateway'"))
          true;
        EvSleep]
  /\ exists rows,
       db (snd (fst (cycle env_first_down empty_world)))
       = db empty_world ++ rows
       /\ NoDup (keys rows)
       /\ all_inserted (snd (cycle env_first_down empty_world)) rows.
Proof.
  split; [reflexivity|].
  destruct (failed_alert_ends_delivery env_first_down empty_world
              (fst (fst (cycle env_first_down empty_world)))
              (snd (fst (cycle env_first_down empty_world)))
              (snd (cycle env_first_down empty_world))
              [EvFetch; EvExecute row_a (inr 1); EvExecute row_b (inr 1);
               EvCommit]
              [EvSend None
                 (error_text
                    (Exn "HTTPStatusError" "Server error '502 Bad Gateway'"))
                 true;
               EvSleep]
              row_a alert_a eq_refl eq_refl)
    as (_ & _ & _ & rows & H1 & H2 & _ & _ & H5).
  exists rows. repeat split; assumption.
Defined.

(* ------------------------------------------------------------------ *)
(** ** The stored payload reads back as the record *)

Local Open Scope string_scope.

Lemma append_assoc (a b c : string) : (a ++ b) ++ c = a ++ (b ++ c).
Proof. induction a as [|x a IH]; simpl; [reflexivity | now rewrite IH]. Qed.

Lemma read_string_char (c : ascii) (tail : string) :
  read_string (json_escape_char c ++ tail)
  = match read_string tail with
    | Some (t, r) => Some (String c t, r)
    | None => None
    end.
Proof.
  destruct c as [b0 b1 b2 b3 b4 b5 b6 b7].
  destruct b0, b1, b2, b3, b4, b5, b6, b7; reflexivity.
Qed.

Lemma read_string_escape (s rest : string) :
  read_string (json_escape s ++ dq ++ rest) = Some (s, rest).
Proof.
  induction s as [|c s IH]; [reflexivity|].
  cbn [json_escape]. rewrite append_assoc, read_string_char. now rewrite IH.
Qed.

Lemma digits_of_uint (d : Decimal.uint) :
  all_chars is_digit (NilEmpty.string_of_uint d) = true.
Proof. induction d; simpl; auto. Qed.

Lemma digit_is_num_char (c : ascii) :
  is_digit c = true -> is_num_char c = true /\ is_float_mark c = false.
Proof.
  destruct c as [b0 b1 b2 b3 b4 b5 b6 b7].
  destruct b0, b1, b2, b3, b4, b5, b6, b7; cbv; intros H;
    try discriminate H; split; reflexivity.
Qed.

Lemma digits_are_num_chars (s : string) :
  all_chars is_digit s = true ->
  all_chars is_num_char s = true /\ has_float_mark s = false.
Proof.
  induction s as [|c s IH]; simpl; intros H; [now split|].
  apply andb_prop in H. destruct H as [Hc Hs].
  destruct (digit_is_num_char _ Hc) as [H1 H2]. destruct (IH Hs) as [H3 H4].
  now rewrite H1, H2, H3, H4.
Qed.

(** The decimal writing of an integer: digits, behind a minus sign when it
    is negative. *)
Lemma str_of_Z_shape (z : Z) :
  exists s, all_chars is_digit s = true /\ s <> ""
            /\ (str_of_Z z = s \/ str_of_Z z = String "-" s).
Proof.
  assert (Hpos : forall p,
             NilZero.string_of_uint (Pos.to_uint p)
             = NilEmpty.string_of_uint (Pos.to_uint p)
             /\ NilEmpty.string_of_uint (Pos.to_uint p) <> "").
  { intros p. pose proof (DecimalPos.Unsigned.to_uint_nonnil p) as Hn.
    destruct (Pos.to_uint p); try contradiction; split;
      solve [reflexivity | discriminate]. }
  destruct z as [|p|p]; unfold str_of_Z; cbn [Z.to_int NilZero.string_of_int].
  - exists "0". repeat split; [discriminate | now left].
  - destruct (Hpos p) as [-> Hne].
    exists (NilEmpty.string_of_uint (Pos.to_uint p)).
    split; [apply digits_of_uint|]. split; [assumption | now left].
  - destruct (Hpos p) as [-> Hne].
    exists (NilEmpty.string_of_uint (Pos.to_uint p)).
    split; [apply digits_of_uint|]. split; [assumption | now right].
Qed.

Lemma str_of_Z_token (z : Z) :
  all_chars is_num_char (str_of_Z z) = true
  /\ has_float_mark (str_of_Z z) = false
  /\ num_start (str_of_Z z) = true.
Proof.
  destruct (str_of_Z_shape z) as (s & Hd & Hne & [->| ->]);
    destruct (digits_are_num_chars _ Hd) as [H1 H2].
  - repeat split; try assumption.
    destruct s as [|c [|c2 s]]; [contradiction| |]; simpl in *.
    + now rewrite andb_true_r in Hd.
    + apply andb_prop in H1. destruct H1 as [Ha H1].
      apply andb_prop in H1. destruct H1 as [Hb _]. now rewrite Ha, Hb.
  - simpl. rewrite H1, H2. repeat split.
    destruct s as [|c s]; [contradiction|]. simpl in H1.
    apply andb_prop in H1. destruct H1 as [Ha _]. now rewrite Ha.
Qed.

Lemma span_num_token (tok rest : string) :
  all_chars is_num_char tok = true -> delimited rest ->
  span_num (tok ++ rest) = (tok, rest).
Proof.
  intros Ht Hr. induction tok as [|c tok IH]; simpl in *.
  - destruct rest as [|c rest]; [reflexivity|]. simpl in *. now rewrite Hr.
  - apply andb_prop in Ht. destruct Ht as [Hc Ht]. rewrite Hc, (IH Ht).
    reflexivity.
Qed.

Lemma num_char_not_keyword (c : ascii) :
  is_num_char c = true ->
  Ascii.eqb "n" c = false /\ Ascii.eqb "t" c = false
  /\ Ascii.eqb "f" c = false /\ Ascii.eqb "N" c = false
  /\ Ascii.eqb "I" c = false /\ (N_of_ascii c =? 34)%N = false
  /\ is_ws c = false.
Proof.
  destruct c as [b0 b1 b2 b3 b4 b5 b6 b7].
  destruct b0, b1, b2, b3, b4, b5, b6, b7; cbv; intros H;
    try discriminate H; repeat split; reflexivity.
Qed.

Lemma digit_not_minus (c : ascii) :
  is_digit c = true -> Ascii.eqb "-" c = false.
Proof.
  destruct c as [b0 b1 b2 b3 b4 b5 b6 b7].
  destruct b0, b1, b2, b3, b4, b5, b6, b7; cbv; intros H;
    try discriminate H; reflexivity.
Qed.

Lemma read_keyword_number (tok rest : string) :
  num_start tok = true -> read_keyword keywords (tok ++ rest) = None.
Proof.
  unfold keywords.
  destruct tok as [|c [|c2 tok]]; intros H; cbn [num_start] in H;
    cbn [append read_keyword strip_prefix]; [discriminate| |].
  - destruct (digit_is_num_char _ H) as [Hn _].
    destruct (num_char_not_keyword _ Hn) as (-> & -> & -> & -> & -> & _).
    now rewrite (digit_not_minus _ H).
  - apply andb_prop in H. destruct H as [H1 H2].
    destruct (num_char_not_keyword _ H1) as (-> & -> & -> & -> & -> & _).
    destruct (num_char_not_keyword _ H2) as (_ & _ & _ & _ & -> & _).
    now destruct (Ascii.eqb "-" c).
Qed.

Lemma read_number_int (z : Z) (rest : string) :
  delimited rest -> read_number (str_of_Z z ++ rest) = Some (VInt z, rest).
Proof.
  intros Hr. destruct (str_of_Z_token z) as (Ha & Hf & _).
  unfold read_number. rewrite (span_num_token _ _ Ha Hr), Hf.
  assert (Hi : NilZero.int_of_string (str_of_Z z) = Some (Z.to_int z)).
  { unfold str_of_Z. apply NilZero.isi.
    - destruct z; simpl; try discriminate.
      intros H. injection H as H. now apply DecimalPos.Unsigned.to_uint_nonnil in H.
    - destruct z; simpl; try discriminate.
      intros H. injection H as H. now apply DecimalPos.Unsigned.to_uint_nonnil in H. }
  rewrite Hi. cbv zeta. rewrite DecimalZ.of_to, String.eqb_refl. reflexivity.
Qed.

Lemma read_number_float (r rest : string) :
  all_chars is_num_char r = true -> has_float_mark r = true ->
  delimited rest -> read_number (r ++ rest) = Some (VFloat r, rest).
Proof.
  intros Ha Hf Hr. unfold read_number.
  now rewrite (span_num_token _ _ Ha Hr), Hf.
Qed.

(** The first character of a number token: not a quote, not a blank. *)
Lemma num_start_first (tok : string) :
  num_start tok = true ->
  exists c tok', tok = String c tok' /\ is_num_char c = true.
Proof.
  destruct tok as [|c [|c2 tok]]; simpl; intros H; [discriminate| |].
  - exists c, "". split; [reflexivity|]. now apply digit_is_num_char.
  - apply andb_prop in H. destruct H as [H _]. eauto.
Qed.

Lemma read_value_number (tok rest : string) (v : value) :
  num_start tok = true ->
  read_number (tok ++ rest) = Some (v, rest) ->
  read_value (tok ++ rest) = Some (v, rest).
Proof.
  intros Hs Hn. pose proof (read_keyword_number tok rest Hs) as Hk.
  destruct (num_start_first _ Hs) as (c & tok' & -> & Hc).
  destruct (num_char_not_keyword _ Hc) as (_ & _ & _ & _ & _ & Hq & _).
  cbn [append] in *. unfold read_value. now rewrite Hq, Hk, Hn.
Qed.

Lemma not_num_name (r : string) :
  all_chars is_num_char r = true ->
  String.eqb r "inf" = false /\ String.eqb r "-inf" = false
  /\ String.eqb r "nan" = false.
Proof.
  intros H. repeat split;
    match goal with
    | |- String.eqb r ?n = false =>
        destruct (String.eqb_spec r n) as [E|_];
        [subst r; discriminate H | reflexivity]
    end.
Qed.

(** A value reads back from its encoding, in front of a delimiter. *)
Lemma read_value_json (v : value) (rest : string) :
  wf_value v = true -> delimited rest ->
  read_value (json_value v ++ rest) = Some (v, rest).
Proof.
  intros Hwf Hr. destruct v as [|[|]|z|r|s]; try reflexivity.
  - destruct (str_of_Z_token z) as (_ & _ & Hs).
    apply read_value_number; [assumption | now apply read_number_int].
  - cbn [json_value wf_value] in *. unfold float_repr_ok in Hwf.
    destruct (String.eqb_spec r "inf") as [->|_]; [reflexivity|].
    destruct (String.eqb_spec r "-inf") as [->|_]; [reflexivity|].
    destruct (String.eqb_spec r "nan") as [->|_]; [reflexivity|].
    cbn [orb] in Hwf. apply andb_prop in Hwf. destruct Hwf as [Hwf Hs].
    apply andb_prop in Hwf. destruct Hwf as [Ha Hf].
    unfold json_float. destruct (not_num_name _ Ha) as (-> & -> & ->).
    apply read_value_number; [assumption | now apply read_number_float].
  - cbn [json_value]. unfold json_string. rewrite !append_assoc.
    change (dq ++ json_escape s ++ dq ++ rest)
      with (String (ascii_of_nat 34) (json_escape s ++ dq ++ rest)).
    unfold read_value. cbn [N_of_ascii]. 
    replace (N_of_ascii (ascii_of_nat 34) =? 34)%N with true by reflexivity.
    now rewrite read_string_escape.
Qed.

(** An encoded value starts with a character that is not a blank. *)
Lemma skip_ws_json_value (v : value) (rest : string) :
  wf_value v = true ->
  skip_ws (json_value v ++ rest) = json_value v ++ rest.
Proof.
  intros Hwf. destruct v as [|[|]|z|r|s]; try reflexivity.
  - destruct (str_of_Z_token z) as (_ & _ & Hs). cbn [json_value].
    destruct (num_start_first _ Hs) as (c & tok' & -> & Hc).
    destruct (num_char_not_keyword _ Hc) as (_ & _ & _ & _ & _ & _ & Hw).
    cbn [append skip_ws]. now rewrite Hw.
  - cbn [json_value wf_value] in *. unfold float_repr_ok in Hwf.
    destruct (String.eqb_spec r "inf") as [->|_]; [reflexivity|].
    destruct (String.eqb_spec r "-inf") as [->|_]; [reflexivity|].
    destruct (String.eqb_spec r "nan") as [->|_]; [reflexivity|].
    cbn [orb] in Hwf. apply andb_prop in Hwf. destruct Hwf as [Hwf Hs].
    apply andb_prop in Hwf. destruct Hwf as [Ha Hf].
    unfold json_float. destruct (not_num_name _ Ha) as (-> & -> & ->).
    destruct (num_start_first _ Hs) as (c & tok' & -> & Hc).
    destruct (num_char_not_keyword _ Hc) as (_ & _ & _ & _ & _ & _ & Hw).
    cbn [append skip_ws]. now rewrite Hw.
Qed.

Lemma json_member_shape (k : string) (v : value) (tail : string) :
  json_member (k, v) ++ tail
  = String (ascii_of_nat 34)
      (json_escape k ++ dq ++ String ":" (String " " (json_value v ++ tail))).
Proof.
  unfold json_member, json_string. cbn [fst snd].
  rewrite !append_assoc. reflexivity.
Qed.

Lemma skip_ws_colon (x : string) : skip_ws (String ":" x) = String ":" x.
Proof. reflexivity. Qed.

Lemma skip_ws_space (x : string) : skip_ws (String " " x) = skip_ws x.
Proof. reflexivity. Qed.

Lemma read_member (fuel : nat) (s : string) (acc : dict) (k : string)
    (v : value) (d : ascii) (s5 : string) :
  wf_value v = true ->
  skip_ws s = json_member (k, v) ++ String d s5 ->
  is_num_char d = false -> is_ws d = false ->
  read_members (S fuel) s acc
  = if (N_of_ascii d =? 44)%N then read_members fuel s5 (dict_set acc k v)
    else if (N_of_ascii d =? 125)%N then Some (dict_set acc k v, s5)
    else None.
Proof.
  intros Hwf Hs Hd Hw. cbn [read_members]. rewrite Hs, json_member_shape.
  replace (N_of_ascii (ascii_of_nat 34) =? 34)%N with true by reflexivity.
  cbn [negb]. rewrite read_string_escape, skip_ws_colon.
  replace (N_of_ascii ":" =? 58)%N with true by reflexivity.
  cbn [negb]. rewrite skip_ws_space, (skip_ws_json_value v _ Hwf).
  rewrite (read_value_json v (String d s5) Hwf Hd).
  cbn [skip_ws]. rewrite Hw. reflexivity.
Qed.

Lemma skip_ws_members (kv : string * value) (d : dict) (x : string) :
  skip_ws (json_members (kv :: d) ++ x) = json_members (kv :: d) ++ x.
Proof.
  destruct kv as [k v].
  destruct d as [|kv2 d]; cbn [json_members];
    rewrite ?append_assoc, json_member_shape; reflexivity.
Qed.

Lemma read_members_json (d : dict) :
  d <> [] -> Forall (fun kv => wf_value (snd kv) = true) d ->
  forall fuel s acc rest,
    (length d <= fuel)%nat ->
    skip_ws s = json_members d ++ String "}" rest ->
    read_members fuel s acc = Some (dict_of d acc, rest).
Proof.
  induction d as [|[k v] d IH]; [contradiction|].
  intros _ Hwf fuel s acc rest Hf Hs.
  inversion Hwf as [|? ? Hv Hwf']; subst. cbn [snd] in Hv.
  destruct fuel as [|fuel]; [simpl in Hf; lia|].
  destruct d as [|kv2 d].
  - cbn [json_members] in Hs.
    now rewrite (read_member fuel s acc k v "}" rest Hv Hs).
  - cbn [json_members] in Hs. rewrite !append_assoc in Hs.
    change (", " ++ ?x) with (String "," (String " " x)) in Hs.
    rewrite (read_member fuel s acc k v "," _ Hv Hs) by reflexivity.
    replace (N_of_ascii "," =? 44)%N with true by reflexivity.
    cbn [dict_of fold_left fst snd].
    apply IH; [discriminate | assumption | simpl in *; lia |].
    rewrite skip_ws_space. apply skip_ws_members.
Qed.

Lemma dict_set_fresh (acc : dict) (k : string) (v : value) :
  ~ In k (map fst acc) -> dict_set acc k v = (acc ++ [(k, v)])%list.
Proof.
  induction acc as [|[k' v'] acc IH]; simpl; intros H; [reflexivity|].
  destruct (String.eqb_spec k' k) as [->|_]; [exfalso; auto|].
  rewrite IH; [reflexivity | tauto].
Qed.

Lemma dict_of_fresh (d acc : dict) :
  NoDup (map fst (acc ++ d)%list) -> dict_of d acc = (acc ++ d)%list.
Proof.
  revert acc. induction d as [|[k v] d IH]; intros acc H.
  - now rewrite app_nil_r.
  - cbn [dict_of fold_left fst snd].
    assert (Hk : ~ In k (map fst acc)).
    { rewrite map_app in H. apply NoDup_remove_2 in H.
      intros Hin. apply H. apply in_or_app. now left. }
    rewrite (dict_set_fresh _ _ _ Hk). fold (dict_of d (acc ++ [(k, v)])%list).
    rewrite IH; rewrite <- app_assoc; [reflexivity | exact H].
Qed.

Lemma length_append (a b : string) :
  String.length (a ++ b) = (String.length a + String.length b)%nat.
Proof. induction a as [|c a IH]; simpl; [reflexivity | now rewrite IH]. Qed.

Lemma member_length (kv : string * value) :
  (1 <= String.length (json_member kv))%nat.
Proof.
  unfold json_member, json_string. rewrite !length_append. simpl. lia.
Qed.

Lemma members_length (d : dict) :
  (length d <= String.length (json_members d))%nat.
Proof.
  induction d as [|kv d IH]; [simpl; lia|].
  pose proof (member_length kv) as Hm.
  destruct d as [|kv2 d].
  - cbn [json_members length]. lia.
  - change (json_members (kv :: kv2 :: d))
      with (json_member kv ++ ", " ++ json_members (kv2 :: d)).
    rewrite !length_append.
    replace (String.length ", ") with 2%nat by reflexivity.
    cbn [length] in *. lia.
Qed.

(** C9. For a well-formed raw record (a dict: no key twice, with floats
    whose text is one [repr] prints), the payload [normalize_item] stores
    in [raw_json] is the encoding of the whole record, and decoding it
    gives the record back: every key, in order, with its value, byte for
    byte.  The fuel the decoder takes from the length of the text is
    enough. *)
Theorem raw_json_round_trip (item : dict) :
  wf_item item ->
  json_loads (raw_json (normalize_item item)) = Some item.
Proof.
  intros [Hnd Hwf]. cbn [raw_json normalize_item].
  unfold json_dumps, json_loads.
  change (skip_ws ("{" ++ json_members item ++ "}"))
    with (String "{" (json_members item ++ "}")).
  destruct item as [|kv d]; [reflexivity|].
  rewrite skip_ws_members.
  destruct kv as [k v].
  assert (Hq : exists y, json_members ((k, v) :: d) ++ "}"
                         = String (ascii_of_nat 34) y).
  { destruct d as [|kv2 d]; cbn [json_members];
      rewrite ?append_assoc, json_member_shape; eauto. }
  destruct Hq as [y Hy]. rewrite Hy.
  replace (N_of_ascii (ascii_of_nat 34) =? 125)%N with false by reflexivity.
  rewrite <- Hy.
  rewrite (read_members_json ((k, v) :: d) ltac:(discriminate) Hwf _ _ [] "").
  - cbn [skip_ws].
    replace (N_of_ascii "{" =? 123)%N with true by reflexivity. cbn [negb].
    f_equal. now apply dict_of_fresh.
  - pose proof (members_length ((k, v) :: d)) as Hl.
    rewrite !length_append. lia.
  - apply skip_ws_members.
Qed.

Lemma raw_json_round_trip_witness :
  wf_item item_full
  /\ json_loads (raw_json (normalize_item item_full)) = Some item_full.
Proof.
  assert (H : wf_item item_full).
  { split.
    - repeat constructor; simpl; intuition discriminate.
    - repeat constructor. }
  split; [exact H | exact (raw_json_round_trip item_full H)].
Defined.

(* ================================================================== *)
(** * Further properties of the iteration *)

Local Open Scope list_scope.
Local Open Scope Z_scope.

(** ** A failed fetch *)

Lemma poll_once_list (E : Env) (w : world) (items : list dict) :
  feed E (n_fetch w) = inr (RespList items) ->
  poll_once E w
  = let '(r, w', t) := ingest E items (after_fetch w) in (r, w', EvFetch :: t).
Proof.
  intros H. unfold poll_once, bind, fetch_activity. rewrite H.
  fold (after_fetch w).
  now destruct (ingest E items (after_fetch w)) as [[r w'] t].
Qed.

Lemma poll_once_fetch_error (E : Env) (w : world) (e : exn) :
  fetch_error E (n_fetch w) = Some e ->
  poll_once E w = (inl e, after_fetch w, [EvFetch]).
Proof.
  unfold fetch_error, poll_once, bind, fetch_activity. fold (after_fetch w).
  destruct (feed E (n_fetch w)) as [e'|[items|ty]]; intros H;
    inversion H; subst; reflexivity.
Qed.

Lemma fetch_failure_is_isolated_aux (E : Env) (w : world) (e : exn) :
  fetch_error E (n_fetch w) = Some e ->
  exists w',
    cycle E w
    = (inr tt, w',
       [EvFetch; EvSend None (error_text e) (tg_answer E (n_send w)); EvSleep])
    /\ db w' = db w.
Proof.
  intros H. unfold cycle, bind, try_except.
  rewrite (poll_once_fetch_error _ _ _ H).
  unfold telegram_send, ret, sleep, tg_answer. cbn [after_fetch n_send db].
  destruct (tg_err E (n_send w)); eexists; repeat split.
Qed.

(** X1. A fetch that fails (the request raises, or the answer is not a
    list) costs one error report and nothing else: no database call is
    made, the table is as it was, and the iteration goes to sleep. *)
Theorem fetch_failure_is_isolated (E : Env) (w : world) (e : exn) :
  fetch_error E (n_fetch w) = Some e ->
  exists w',
    cycle E w
    = (inr tt, w',
       [EvFetch; EvSend None (error_text e) (tg_answer E (n_send w)); EvSleep])
    /\ db w' = db w /\ n_exec w' = n_exec w /\ n_commit w' = n_commit w.
Proof.
  intros H. unfold cycle, bind, try_except.
  rewrite (poll_once_fetch_error _ _ _ H).
  unfold telegram_send, ret, sleep, tg_answer. cbn [after_fetch n_send db].
  destruct (tg_err E (n_send w)); eexists; repeat split.
Qed.

Lemma fetch_failure_is_isolated_witness :
  fetch_error env_feed_down (n_fetch empty_world)
  = Some (Exn "ConnectError" "All connection attempts failed")
  /\ exists w',
       cycle env_feed_down empty_world
       = (inr tt, w',
          [EvFetch;
           EvSend None
             (error_text (Exn "ConnectError" "All connection attempts failed"))
             true;
           EvSleep])
       /\ db w' = [].
Proof.
  split; [reflexivity|].
  destruct (fetch_failure_is_isolated env_feed_down empty_world _ eq_refl)
    as (w' & H1 & H2 & _).
  exists w'. split; [exact H1 | exact H2].
Defined.

(** ** The recording loop, in detail *)

Lemma from_batch_cons (item : dict) (items : list dict) (x : Row) :
  from_batch items x -> from_batch (item :: items) x.
Proof.
  intros (it & Hin & Hx & Ht). exists it. repeat split; try assumption.
  now right.
Qed.

(** The loop makes database calls only; the rows it collects are
    normalized records of the batch, appended to the table in the order
    of the batch. *)
Lemma record_items_detail (E : Env) (items : list dict) :
  forall acc w r w' t,
    record_items E items acc w = (r, w', t) ->
    Forall (fun ev => is_execute ev = true) t
    /\ n_commit w' = n_commit w
    /\ n_fetch w' = n_fetch w
    /\ (length t <= length items)%nat
    /\ match r with
       | inl _ => True
       | inr rows =>
           exists added,
             rows = acc ++ added
             /\ db w' = db w ++ added
             /\ Forall (from_batch items) added
       end.
Proof.
  induction items as [|item rest IH]; intros acc w r w' t H.
  - injection H as Hr Hw Ht. subst.
    repeat (split; [first [reflexivity | cbn [length]; lia | constructor]|]).
    exists []. now rewrite !app_nil_r.
  - cbn [record_items] in H.
    destruct (truthy (transactionHash (normalize_item item))) eqn:Htx;
      cbn [negb] in H.
    2:{ apply IH in H. destruct H as (H1 & H2 & H3 & H4 & H5).
        repeat (split; [first [assumption | cbn [length]; lia]|]).
        destruct r; [exact I|]. destruct H5 as (added & Ha & Hb & Hc).
        exists added. repeat (split; [assumption|]).
        eapply Forall_impl; [|exact Hc]. intros x. apply from_batch_cons. }
    unfold bind, conn_execute in H.
    destruct (db_err E (n_exec w)) as [e|].
    { injection H as Hr Hw Ht. subst.
      repeat (split; [first [reflexivity | cbn [length]; lia
                             | repeat constructor]|]).
      exact I. }
    unfold insert_or_ignore in H.
    destruct (has_key (real_text E) (db w)
                (transactionHash (normalize_item item))) eqn:Hk;
      cbn [Z.eqb Pos.eqb] in H;
      match type of H with
      | context [record_items E rest ?acc1 ?w1] =>
          destruct (record_items E rest acc1 w1) as [[r2 w2] t2] eqn:Hrec
      end;
      injection H as Hr Hw Ht; subst; apply IH in Hrec;
      cbn [db n_commit n_fetch] in Hrec;
      destruct Hrec as (H1 & H2 & H3 & H4 & H5);
      (split; [constructor; [reflexivity | exact H1]|]);
      (split; [exact H2|]); (split; [exact H3|]);
      (split; [cbn [length app]; lia|]);
      (destruct r; [exact I|]); destruct H5 as (added & Ha & Hb & Hc).
    + exists added. repeat (split; [assumption|]).
      eapply Forall_impl; [|exact Hc]. intros x. apply from_batch_cons.
    + exists (normalize_item item :: added).
      rewrite <- !app_assoc in *. cbn [app] in *.
      repeat (split; [assumption|]). constructor.
      * exists item. repeat split; [now left | assumption].
      * eapply Forall_impl; [|exact Hc]. intros x. apply from_batch_cons.
Qed.

(** When no database call fails the loop reaches its end. *)
Lemma record_items_ok (E : Env) (items : list dict) :
  (forall n, db_err E n = None) ->
  forall acc w, exists rows w' t,
    record_items E items acc w = (inr rows, w', t).
Proof.
  intros Hdb. induction items as [|item rest IH]; intros acc w.
  - now exists acc, w, [].
  - cbn [record_items].
    destruct (negb (truthy (transactionHash (normalize_item item))));
      [apply IH|].
    unfold bind, conn_execute. rewrite Hdb.
    destruct (insert_or_ignore (real_text E) (db w) (normalize_item item))
      as [tb rc].
    destruct (rc =? 1);
      match goal with
      | |- context [record_items E rest ?acc1 ?w1] =>
          destruct (IH acc1 w1) as (rows & w' & t & ->)
      end; eauto.
Qed.

Lemma known_accounted (rt : string -> string) (t : table) (item : dict) :
  known t item = true -> accounted rt t item = true.
Proof.
  unfold known, accounted.
  destruct (truthy (transactionHash (normalize_item item))) eqn:Htx;
    cbn [negb orb]; [|reflexivity].
  now apply holds_has_key.
Qed.

(** A batch of records whose inserts add nothing changes nothing and
    collects nothing. *)
Lemma record_items_known (E : Env) (items : list dict) :
  forall acc w r w' t,
    Forall (fun item => accounted (real_text E) (db w) item = true) items ->
    record_items E items acc w = (r, w', t) ->
    db w' = db w /\ forall rows, r = inr rows -> rows = acc.
Proof.
  induction items as [|item rest IH]; intros acc w r w' t Hk H.
  - injection H as Hr Hw Ht. subst. split; [reflexivity|].
    intros rows Hr. now injection Hr as ->.
  - inversion Hk as [|? ? Hitem Hrest]; subst. unfold accounted in Hitem.
    cbn [record_items] in H.
    destruct (truthy (transactionHash (normalize_item item))) eqn:Htx;
      cbn [negb orb] in H, Hitem; [|now apply (IH acc w r w' t)].
    unfold bind, conn_execute in H.
    destruct (db_err E (n_exec w)) as [e|].
    { injection H as Hr Hw Ht. subst. split; [reflexivity | discriminate]. }
    unfold insert_or_ignore in H. rewrite Hitem in H. cbn [Z.eqb] in H.
    match type of H with
    | context [record_items E rest acc ?w1] =>
        destruct (record_items E rest acc w1) as [[r2 w2] t2] eqn:Hrec
    end.
    injection H as Hr Hw Ht. subst.
    apply IH in Hrec; [exact Hrec | exact Hrest].
Qed.

(** ** The iteration, case by case *)

Lemma feed_cases (E : Env) (n : nat) :
  (exists e, fetch_error E n = Some e)
  \/ exists items, feed E n = inr (RespList items).
Proof.
  unfold fetch_error. destruct (feed E n) as [e|[items|ty]]; eauto.
Qed.

(** The four ways through the body of the [try] behind a fetched batch:
    the recording raises, the commit raises, the sort raises, or the
    delivery loop is entered. *)
Lemma ingest_cases (E : Env) (items : list dict) (w : world) r w' t :
  ingest E items w = (r, w', t) ->
  exists r1 w1 t1,
    record_items E items [] w = (r1, w1, t1)
    /\ match r1 with
       | inl e => r = inl e /\ db w' = db w /\ t = t1 ++ [EvRollback]
       | inr rows =>
           match commit_err E (n_commit w1) with
           | Some e => r = inl e /\ db w' = db w /\ t = t1 ++ [EvRollback]
           | None =>
               match list_sort E rows with
               | inl e => r = inl e /\ db w' = db w1 /\ t = t1 ++ [EvCommit]
               | inr sorted =>
                   exists w2 t2,
                     db w2 = db w1 /\ n_send w2 = n_send w1
                     /\ deliver E sorted w2 = (r, w', t2)
                     /\ t = t1 ++ EvCommit :: t2
               end
           end
       end.
Proof.
  unfold ingest, bind, engine_begin, lift. intros H.
  destruct (record_items E items [] w) as [[r1 w1] t1].
  exists r1, w1, t1. split; [reflexivity|].
  destruct r1 as [e|rows].
  - injection H as Hr Hw Ht. subst. now repeat split.
  - destruct (commit_err E (n_commit w1)) as [e|].
    + injection H as Hr Hw Ht. subst. now repeat split.
    + destruct (list_sort E rows) as [e|sorted].
      * injection H as Hr Hw Ht. subst. rewrite app_nil_r. now repeat split.
      * match type of H with
        | context [deliver E sorted ?w2] =>
            destruct (deliver E sorted w2) as [[r2 w3] t2] eqn:Hd;
            exists w2, t2
        end.
        injection H as Hr Hw Ht. subst. rewrite <- app_assoc.
        repeat split; assumption.
Qed.

(** The iteration around the body: the fetch in front, the error report
    (when the body raised) and the sleep behind. *)
Lemma cycle_of_ingest (E : Env) (w : world) (items : list dict) r1 w1 t1 :
  feed E (n_fetch w) = inr (RespList items) ->
  ingest E items (after_fetch w) = (r1, w1, t1) ->
  exists w' tC,
    cycle E w = (inr tt, w', EvFetch :: t1 ++ tC ++ [EvSleep])
    /\ db w' = db w1
    /\ match r1 with
       | inr _ => tC = []
       | inl e => tC = [EvSend None (error_text e) (tg_answer E (n_send w1))]
       end.
Proof.
  intros Hf Hi. unfold cycle, bind, try_except, sleep.
  rewrite (poll_once_list _ _ _ Hf), Hi.
  destruct r1 as [e|[]].
  - unfold telegram_send, ret, tg_answer.
    destruct (tg_err E (n_send w1)); cbn [app];
      [exists {| db := db w1; n_fetch := n_fetch w1; n_exec := n_exec w1;
                 n_commit := n_commit w1; n_send := S (n_send w1) |},
         [EvSend None (error_text e) false]
      |exists {| db := db w1; n_fetch := n_fetch w1; n_exec := n_exec w1;
                 n_commit := n_commit w1; n_send := S (n_send w1) |},
         [EvSend None (error_text e) true]];
      rewrite <- app_assoc; repeat split.
  - exists w1, []. cbn [app]. repeat split.
Qed.

Lemma no_alert_no_row (t : list event) :
  Forall (fun ev => alert_row ev = None) t -> notified_rows t = [].
Proof.
  induction 1 as [|ev t Hev _ IH]; simpl; [reflexivity|]. now rewrite Hev.
Qed.

Lemma execute_no_alert (t : list event) :
  Forall (fun ev => is_execute ev = true) t ->
  Forall (fun ev => alert_row ev = None) t
  /\ Forall (fun ev => is_send ev = false) t
  /\ ~ In EvRollback t /\ ~ In EvCommit t.
Proof.
  intros H. repeat split.
  - eapply Forall_impl; [|exact H]. now intros [| | | |[x|] ? ?|].
  - eapply Forall_impl; [|exact H]. now intros [| | | |[x|] ? ?|].
  - intros Hin. rewrite Forall_forall in H. now apply H in Hin.
  - intros Hin. rewrite Forall_forall in H. now apply H in Hin.
Qed.

(** ** Polling a window that is already recorded *)

(** X2. A batch in which every record is known (its hash is falsy or
    already stored) changes nothing: the table is left as it was and no
    alert is attempted, whatever fails; and when no database call fails,
    no message at all is sent. *)
Theorem known_batch_changes_nothing (E : Env) (w : world)
    (items : list dict) :
  feed E (n_fetch w) = inr (RespList items) ->
  Forall (fun item => known (db w) item = true) items ->
  exists w' t,
    cycle E w = (inr tt, w', t)
    /\ db w' = db w
    /\ notified_rows t = []
    /\ ((forall n, db_err E n = None) -> (forall n, commit_err E n = None) ->
        count_ev is_send t = 0%nat).
Proof.
  intros Hf Hk.
  destruct (ingest E items (after_fetch w)) as [[r1 w1] t1] eqn:Hi.
  destruct (cycle_of_ingest _ _ _ _ _ _ Hf Hi) as (w' & tC & Hc & Hdb & HtC).
  destruct (ingest_cases _ _ _ _ _ _ Hi) as (r0 & w0 & t0 & Hrec & Hcase).
  assert (Hk' : Forall (fun item =>
                          accounted (real_text E) (db (after_fetch w)) item
                          = true) items).
  { eapply Forall_impl; [|exact Hk]. intros item. apply known_accounted. }
  destruct (record_items_known E items [] (after_fetch w) _ _ _ Hk' Hrec)
    as [Hdb0 Hrows].
  destruct (record_items_detail _ _ _ _ _ _ _ Hrec) as (Hex & _).
  destruct (execute_no_alert _ Hex) as (Hna & Hns & _).
  cbn [after_fetch db] in *.
  exists w', (EvFetch :: t1 ++ tC ++ [EvSleep]). split; [exact Hc|].
  assert (Hfail : forall e,
             r1 = inl e -> t1 = t0 ++ [EvRollback] -> db w1 = db w ->
             db w' = db w
             /\ notified_rows (EvFetch :: t1 ++ tC ++ [EvSleep]) = []).
  { intros e -> -> Hw1. split; [congruence|]. subst tC.
    apply no_alert_no_row. constructor; [reflexivity|].
    rewrite !Forall_app. repeat split; try assumption; repeat constructor. }
  destruct r0 as [e|rows].
  - destruct Hcase as (-> & Hw1 & Ht1).
    destruct (Hfail e eq_refl Ht1 Hw1) as [H1 H2].
    split; [exact H1|]. split; [exact H2|].
    intros Hnodb _.
    destruct (record_items_ok E items Hnodb [] (after_fetch w))
      as (rows & w2 & t2 & Hok).
    rewrite Hok in Hrec. discriminate Hrec.
  - specialize (Hrows rows eq_refl). subst rows.
    destruct (commit_err E (n_commit w0)) as [e|] eqn:Hcommit.
    + destruct Hcase as (-> & Hw1 & Ht1).
      destruct (Hfail e eq_refl Ht1 Hw1) as [H1 H2].
      split; [exact H1|]. split; [exact H2|].
      intros _ Hnocommit. rewrite Hnocommit in Hcommit. discriminate Hcommit.
    + cbn in Hcase. destruct Hcase as (w2 & t2 & Hw2 & _ & Hd & Ht1).
      injection Hd as Hr Hw Ht. subst r1 w1 t2 t1 tC.
      split; [congruence|]. split.
      * apply no_alert_no_row. constructor; [reflexivity|].
        rewrite !Forall_app. repeat split; try assumption; repeat constructor.
      * intros _ _. unfold count_ev. cbn [filter is_send].
        fold (count_ev is_send ((t0 ++ [EvCommit]) ++ [] ++ [EvSleep])).
        rewrite !count_ev_app, (count_ev_none _ _ Hns). reflexivity.
Qed.

Lemma known_batch_changes_nothing_witness :
  Forall (fun item => known (db world_seen) item = true) two_new
  /\ exists w' t,
       cycle env_up world_seen = (inr tt, w', t)
       /\ db w' = [row_a; row_b]
       /\ notified_rows t = []
       /\ count_ev is_send t = 0%nat.
Proof.
  assert (H : Forall (fun item => known (db world_seen) item = true) two_new)
    by (repeat constructor).
  split; [exact H|].
  destruct (known_batch_changes_nothing env_up world_seen two_new eq_refl H)
    as (w' & t & H1 & H2 & H3 & H4).
  exists w', t. repeat split; try assumption.
  apply H4; intros n; reflexivity.
Defined.

Lemma accounted_app (rt : string -> string) (t u : table) (item : dict) :
  accounted rt t item = true -> accounted rt (t ++ u) item = true.
Proof.
  unfold accounted. rewrite has_key_app. intros H.
  apply orb_true_iff in H. destruct H as [-> | ->]; [reflexivity|].
  cbn [orb]. apply orb_true_r.
Qed.

(** The rows the loop collects are the first records of the keys that
    are new, in the order of the batch; behind the loop an insert for any
    record of the batch would add nothing. *)
Lemma record_items_fresh (E : Env) (items : list dict) :
  forall acc w rows w' t,
    record_items E items acc w = (inr rows, w', t) ->
    rows = acc ++ fresh_rows (real_text E) (db w) items
    /\ db w' = db w ++ fresh_rows (real_text E) (db w) items
    /\ Forall (fun item => accounted (real_text E) (db w') item = true) items.
Proof.
  induction items as [|item rest IH]; intros acc w rows w' t H.
  - injection H as Hr Hw Ht. subst. cbn [fresh_rows]. rewrite !app_nil_r.
    repeat split. constructor.
  - cbn [record_items fresh_rows] in *.
    destruct (truthy (transactionHash (normalize_item item))) eqn:Htx;
      cbn [negb andb] in *.
    2:{ destruct (IH _ _ _ _ _ H) as (H1 & H2 & H3).
        repeat (split; [assumption|]). constructor; [|exact H3].
        unfold accounted. now rewrite Htx. }
    unfold bind, conn_execute in H.
    destruct (db_err E (n_exec w)) as [e|]; [discriminate H|].
    unfold insert_or_ignore in H.
    destruct (has_key (real_text E) (db w)
                (transactionHash (normalize_item item))) eqn:Hk;
      cbn [negb Z.eqb Pos.eqb] in *;
      match type of H with
      | context [record_items E rest ?acc1 ?w1] =>
          destruct (record_items E rest acc1 w1) as [[r2 w2] t2] eqn:Hrec
      end;
      injection H as Hr Hw Ht; subst;
      destruct (IH _ _ _ _ _ Hrec) as (H1 & H2 & H3); cbn [db] in *.
    + repeat (split; [assumption|]). constructor; [|exact H3].
      rewrite H2. apply accounted_app. unfold accounted. rewrite Hk.
      apply orb_true_r.
    + rewrite <- !app_assoc in *. cbn [app] in *.
      repeat (split; [assumption|]). constructor; [|exact H3].
      rewrite H2. change (db w ++ normalize_item item :: ?x)
        with (db w ++ [normalize_item item] ++ x).
      rewrite app_assoc. apply accounted_app. unfold accounted.
      apply orb_true_iff. right. rewrite has_key_app.
      cbn [has_key existsb]. rewrite same_key_refl by exact Htx.
      apply orb_true_r.
Qed.

(** ** The anatomy of an iteration that fetched a batch *)

(** What the part of the trace between the fetch and the error report
    looks like, and what it did to the table: the inserts, then either a
    rollback (the table is as before and nothing is delivered) or the
    commit and the alerts for the first rows in sorted order. *)
Lemma cycle_anatomy (E : Env) (w : world) (items : list dict) :
  feed E (n_fetch w) = inr (RespList items) ->
  exists w' t0 mid t2 tC rows sorted n,
    cycle E w = (inr tt, w', EvFetch :: t0 ++ mid :: t2 ++ tC ++ [EvSleep])
    /\ Forall (fun ev => is_execute ev = true) t0
    /\ (length t0 <= length items)%nat
    /\ map alert_row t2 = map Some (firstn n sorted)
    /\ (tC = [] \/ exists e ok, tC = [EvSend None (error_text e) ok])
    /\ ((mid = EvRollback /\ db w' = db w /\ t2 = [] /\ tC <> [])
        \/ (mid = EvCommit
            /\ db w' = db w ++ rows
            /\ Forall (from_batch items) rows
            /\ NoDup (keys rows)
            /\ Forall (newly_recorded (db w) t0) rows
            /\ all_inserted t0 rows
            /\ Permutation rows sorted
            /\ (t2 = [] \/ list_sort E rows = inr sorted))).
Proof.
  intros Hf.
  destruct (ingest E items (after_fetch w)) as [[r1 w1] t1] eqn:Hi.
  destruct (cycle_of_ingest _ _ _ _ _ _ Hf Hi) as (w' & tC & Hc & Hdb & HtC).
  destruct (ingest_cases _ _ _ _ _ _ Hi) as (r0 & w0 & t0 & Hrec & Hcase).
  destruct (record_items_detail _ _ _ _ _ _ _ Hrec)
    as (Hex & _ & _ & Hlen & Hdet).
  destruct (record_items_spec _ _ _ _ _ _ _ Hrec) as (_ & _ & Hspec).
  cbn [after_fetch db] in *.
  assert (HC : tC = [] \/ exists e ok, tC = [EvSend None (error_text e) ok]).
  { destruct r1; [right; eauto | now left]. }
  assert (Hfail : forall e,
             r1 = inl e -> db w1 = db w -> t1 = t0 ++ [EvRollback] ->
             exists w' t0 mid t2 tC rows sorted n,
               cycle E w
               = (inr tt, w', EvFetch :: t0 ++ mid :: t2 ++ tC ++ [EvSleep])
               /\ Forall (fun ev => is_execute ev = true) t0
               /\ (length t0 <= length items)%nat
               /\ map alert_row t2 = map Some (firstn n sorted)
               /\ (tC = [] \/ exists e ok, tC = [EvSend None (error_text e) ok])
               /\ ((mid = EvRollback /\ db w' = db w /\ t2 = [] /\ tC <> [])
                   \/ (mid = EvCommit
                       /\ db w' = db w ++ rows
                       /\ Forall (from_batch items) rows
                       /\ NoDup (keys rows)
                       /\ Forall (newly_recorded (db w) t0) rows
                       /\ all_inserted t0 rows
                       /\ Permutation rows sorted
                       /\ (t2 = [] \/ list_sort E rows = inr sorted)))).
  { intros e -> Hw1 ->.
    exists w', t0, EvRollback, [], tC, [], [], 0%nat.
    rewrite <- app_assoc in Hc. cbn [app] in *.
    repeat (split; [first [assumption | reflexivity]|]).
    left. repeat (split; [first [reflexivity | congruence]|]).
    rewrite HtC. discriminate. }
  destruct r0 as [e|rows].
  { destruct Hcase as (Hr & Hw1 & Ht1). now apply (Hfail e). }
  destruct Hdet as (added & Ha & Hb & Hfrom). cbn [app] in Ha. subst added.
  destruct Hspec as (added & Ha & _ & Hnd & Hnew & Hall).
  cbn [app] in Ha. subst added.
  destruct (commit_err E (n_commit w0)) as [e|].
  { destruct Hcase as (Hr & Hw1 & Ht1). now apply (Hfail e). }
  clear Hfail.
  destruct (list_sort E rows) as [e|sorted] eqn:Hsort.
  - destruct Hcase as (-> & Hw1 & ->).
    exists w', t0, EvCommit, [], tC, rows, rows, 0%nat.
    rewrite <- app_assoc in Hc. cbn [app] in *.
    repeat (split; [first [assumption | reflexivity]|]).
    right. repeat (split; [first [assumption | reflexivity | congruence]|]).
    now left.
  - destruct Hcase as (w2 & t2 & Hw2 & _ & Hd & ->).
    destruct (deliver_spec _ _ _ _ _ _ Hd) as (Hdb2 & n & Hal).
    exists w', t0, EvCommit, t2, tC, rows, sorted, n.
    rewrite <- !app_assoc in Hc. cbn [app] in *.
    repeat (split; [first [assumption | reflexivity]|]).
    right. repeat (split; [first [assumption | reflexivity | congruence]|]).
    split; [now apply list_sort_perm in Hsort | now right].
Qed.

Ltac split_in H :=
  lazymatch type of H with
  | In _ (_ ++ _) => apply in_app_or in H; destruct H as [H|H]; split_in H
  | In _ (_ :: _) => destruct H as [H|H]; [try discriminate H | split_in H]
  | In _ [] => destruct H
  | _ => idtac
  end.

Lemma alerts_only (t : list event) (rows : list Row) (ev : event) :
  map alert_row t = map Some rows -> In ev t ->
  exists x text ok, ev = EvSend (Some x) text ok /\ In x rows.
Proof.
  intros Hal Hin. apply (in_map alert_row) in Hin. rewrite Hal in Hin.
  apply in_map_iff in Hin. destruct Hin as (x & Hx & Hin).
  destruct ev as [| | | |[y|] text ok|]; try discriminate Hx.
  injection Hx as ->. eauto.
Qed.

Lemma execute_only (t : list event) (ev : event) :
  Forall (fun ev => is_execute ev = true) t -> In ev t ->
  exists x res, ev = EvExecute x res.
Proof.
  intros H Hin. rewrite Forall_forall in H. apply H in Hin.
  destruct ev; try discriminate Hin. eauto.
Qed.

(** ** All of the batch, or nothing *)

(** X3. The inserts of an iteration are one transaction.  When the trace
    shows a rollback (an insert or the commit raised), the table is what
    it was before the iteration and no alert was attempted; when it shows
    the commit, every insert that reported one row is in the table and
    every row added has such an insert; the two never both happen. *)
Theorem batch_is_all_or_nothing (E : Env) (w : world) :
  exists w' t,
    cycle E w = (inr tt, w', t)
    /\ (In EvRollback t -> db w' = db w /\ notified_rows t = [])
    /\ (In EvCommit t ->
        exists rows,
          db w' = db w ++ rows
          /\ all_inserted t rows
          /\ Forall (fun x => In (EvExecute x (inr 1)) t) rows)
    /\ ~ (In EvRollback t /\ In EvCommit t).
Proof.
  destruct (feed_cases E (n_fetch w)) as [[e He]|[items Hf]].
  { destruct (fetch_failure_is_isolated_aux E w e He) as (w' & Hc & _).
    exists w'. eexists. split; [exact Hc|].
    split; [intros H; split_in H|]. split; [intros H; split_in H|].
    intros [H _]. split_in H. }
  destruct (cycle_anatomy E w items Hf)
    as (w' & t0 & mid & t2 & tC & rows & sorted & n & Hc & Hex & _ & Hal & HC
        & Hmid).
  exists w'. eexists. split; [exact Hc|].
  assert (Hno0 : forall ev, In ev t0 -> ev <> EvRollback /\ ev <> EvCommit).
  { intros ev Hin. destruct (execute_only _ _ Hex Hin) as (x & res & ->).
    split; discriminate. }
  assert (Hno2 : forall ev, In ev t2 ->
                            ev <> EvRollback /\ ev <> EvCommit
                            /\ forall x res, ev <> EvExecute x res).
  { intros ev Hin. destruct (alerts_only _ _ _ Hal Hin) as (x & tx & ok & -> & _).
    repeat split; discriminate. }
  assert (HnoC : forall ev, In ev tC ->
                            ev <> EvRollback /\ ev <> EvCommit
                            /\ alert_row ev = None
                            /\ forall x res, ev <> EvExecute x res).
  { intros ev Hin. destruct HC as [->|(e & ok & ->)]; [destruct Hin|].
    destruct Hin as [<-|[]]. repeat split; discriminate. }
  destruct Hmid as [(-> & Hdb & -> & _)
                   |(-> & Hdb & _ & _ & Hnew & Hall & _)].
  - split; [|split].
    + intros _. split; [exact Hdb|]. cbn [app].
      apply no_alert_no_row. constructor; [reflexivity|].
      rewrite !Forall_app. repeat split.
      * now apply execute_no_alert.
      * constructor; [reflexivity|]. apply Forall_app. split.
        -- rewrite Forall_forall. intros ev Hin. now apply HnoC.
        -- repeat constructor.
    + intros H. exfalso. split_in H.
      * now apply Hno0 in H.
      * now apply HnoC in H.
    + intros [_ H]. split_in H.
      * now apply Hno0 in H.
      * now apply HnoC in H.
  - split; [|split].
    + intros H. exfalso. split_in H.
      * now apply Hno0 in H.
      * now apply Hno2 in H.
      * now apply HnoC in H.
    + intros _. exists rows. split; [exact Hdb|]. split.
      * intros y H. split_in H.
        -- now apply Hall.
        -- apply Hno2 in H. destruct H as (_ & _ & H). now elim (H y (inr 1)).
        -- apply HnoC in H. destruct H as (_ & _ & _ & H).
           now elim (H y (inr 1)).
      * eapply Forall_impl; [|exact Hnew]. intros x (_ & _ & Hin).
        right. apply in_or_app. now left.
    + intros [H _]. split_in H.
      * now apply Hno0 in H.
      * now apply Hno2 in H.
      * now apply HnoC in H.
Qed.

Lemma batch_is_all_or_nothing_witness :
  exists w' t,
    cycle env_up empty_world = (inr tt, w', t)
    /\ (In EvRollback t -> db w' = [] /\ notified_rows t = [])
    /\ (In EvCommit t ->
        exists rows,
          db w' = rows
          /\ all_inserted t rows
          /\ Forall (fun x => In (EvExecute x (inr 1)) t) rows)
    /\ ~ (In EvRollback t /\ In EvCommit t).
Proof.
  exact (batch_is_all_or_nothing env_up empty_world).
Defined.

(** ** What an iteration adds and whom it alerts *)

Lemma anatomy_notified (t0 t2 tC : list event) (mid : event)
    (alerted : list Row) :
  Forall (fun ev => is_execute ev = true) t0 ->
  mid = EvRollback \/ mid = EvCommit ->
  map alert_row t2 = map Some alerted ->
  tC = [] \/ (exists e ok, tC = [EvSend None (error_text e) ok]) ->
  notified_rows (EvFetch :: t0 ++ mid :: t2 ++ tC ++ [EvSleep]) = alerted.
Proof.
  intros Hex Hmid Hal HC. cbn [notified_rows alert_row].
  rewrite notified_rows_app.
  rewrite (no_alert_no_row t0) by now apply execute_no_alert.
  cbn [app notified_rows].
  replace (alert_row mid) with (@None Row) by (now destruct Hmid as [->| ->]).
  rewrite notified_rows_app, (notified_rows_alerts _ _ Hal).
  destruct HC as [->|(e & ok & ->)]; cbn; now rewrite app_nil_r.
Qed.

(** X4. Every row an iteration adds to the table, and every row it
    alerts about, is the normalization of a record of the batch it just
    fetched, with a truthy hash; the rows alerted about are among the
    rows added. *)
Theorem rows_come_from_the_batch (E : Env) (w : world) (items : list dict) :
  feed E (n_fetch w) = inr (RespList items) ->
  exists w' t rows,
    cycle E w = (inr tt, w', t)
    /\ db w' = db w ++ rows
    /\ Forall (from_batch items) rows
    /\ incl (notified_rows t) rows.
Proof.
  intros Hf.
  destruct (cycle_anatomy E w items Hf)
    as (w' & t0 & mid & t2 & tC & rows & sorted & n & Hc & Hex & _ & Hal & HC
        & Hmid).
  destruct Hmid as [(-> & Hdb & -> & _)|(-> & Hdb & Hfrom & _ & _ & _ & Hp & _)].
  - exists w'. eexists. exists []. split; [exact Hc|]. rewrite app_nil_r.
    split; [exact Hdb|]. split; [constructor|].
    rewrite (anatomy_notified t0 [] tC EvRollback [] Hex (or_introl eq_refl)
               eq_refl HC).
    intros x [].
  - exists w'. eexists. exists rows. split; [exact Hc|]. split; [exact Hdb|].
    split; [exact Hfrom|].
    rewrite (anatomy_notified t0 t2 tC EvCommit _ Hex (or_intror eq_refl)
               Hal HC).
    intros x Hx. apply In_firstn in Hx.
    eapply Permutation_in; [apply Permutation_sym; exact Hp | exact Hx].
Qed.

Lemma rows_come_from_the_batch_witness :
  exists w' t rows,
    cycle env_first_down empty_world = (inr tt, w', t)
    /\ db w' = rows
    /\ Forall (from_batch two_new) rows
    /\ incl (notified_rows t) rows.
Proof.
  exact (rows_come_from_the_batch env_first_down empty_world two_new eq_refl).
Defined.

(** ** How many requests an iteration makes *)

Lemma count_ev_le (p : event -> bool) (t : list event) :
  (count_ev p t <= length t)%nat.
Proof.
  unfold count_ev. induction t as [|ev t IH]; simpl; [lia|].
  destruct (p ev); simpl; lia.
Qed.

Lemma count_alerts (p : event -> bool) (t : list event) (rows : list Row) :
  map alert_row t = map Some rows ->
  (forall x text ok, p (EvSend (Some x) text ok) = false) ->
  count_ev p t = 0%nat.
Proof.
  intros Hal Hp. apply count_ev_none. rewrite Forall_forall. intros ev Hin.
  destruct (alerts_only _ _ _ Hal Hin) as (x & text & ok & -> & _). apply Hp.
Qed.

(** X5. An iteration that got a batch makes one fetch, at most one insert
    for each record of the batch, and at most one Telegram call for each
    row it added to the table plus one for an error report. *)
Theorem requests_are_bounded (E : Env) (w : world) (items : list dict) :
  feed E (n_fetch w) = inr (RespList items) ->
  exists w' t,
    cycle E w = (inr tt, w', t)
    /\ count_ev is_fetch t = 1%nat
    /\ (count_ev is_execute t <= length items)%nat
    /\ (count_ev is_send t <= length (db w') - length (db w) + 1)%nat.
Proof.
  intros Hf.
  destruct (cycle_anatomy E w items Hf)
    as (w' & t0 & mid & t2 & tC & rows & sorted & n & Hc & Hex & Hlen & Hal
        & HC & Hmid).
  exists w'. eexists. split; [exact Hc|].
  change (EvFetch :: t0 ++ mid :: t2 ++ tC ++ [EvSleep])
    with ([EvFetch] ++ t0 ++ [mid] ++ t2 ++ tC ++ [EvSleep]).
  rewrite !count_ev_app.
  assert (Hmid' : mid = EvRollback \/ mid = EvCommit)
    by (destruct Hmid as [(-> & _)|(-> & _)]; auto).
  assert (HtC : (count_ev is_fetch tC = 0 /\ count_ev is_execute tC = 0
                 /\ count_ev is_send tC <= 1)%nat).
  { destruct HC as [->|(e & ok & ->)]; cbn; lia. }
  destruct HtC as (C1 & C2 & C3).
  assert (F0 : count_ev is_fetch t0 = 0%nat).
  { apply count_ev_none. eapply Forall_impl; [|exact Hex].
    now intros [| | | | |]. }
  assert (S0 : count_ev is_send t0 = 0%nat).
  { apply count_ev_none. now apply execute_no_alert. }
  assert (F2 : count_ev is_fetch t2 = 0%nat)
    by (eapply count_alerts; [exact Hal | reflexivity]).
  assert (X2 : count_ev is_execute t2 = 0%nat)
    by (eapply count_alerts; [exact Hal | reflexivity]).
  pose proof (count_ev_le is_execute t0) as X0.
  pose proof (count_ev_le is_send t2) as S2.
  assert (L2 : (length t2 <= length sorted)%nat).
  { rewrite <- (length_map alert_row), Hal, length_map, length_firstn.
    apply Nat.le_min_r. }
  assert (Hm : (count_ev is_fetch [mid] = 0 /\ count_ev is_execute [mid] = 0
                /\ count_ev is_send [mid] = 0)%nat)
    by (destruct Hmid' as [->| ->]; cbn; auto).
  destruct Hm as (M1 & M2 & M3).
  rewrite F0, F2, C1, M1, X2, C2, M2, S0, M3.
  split; [reflexivity|]. split; [cbn; lia|].
  destruct Hmid as [(_ & Hdb & -> & _)|(_ & Hdb & _ & _ & _ & _ & Hp & _)].
  - rewrite Hdb. cbn. lia.
  - rewrite Hdb, length_app. apply Permutation_length in Hp. cbn. lia.
Qed.

Lemma requests_are_bounded_witness :
  exists w' t,
    cycle env_first_down empty_world = (inr tt, w', t)
    /\ count_ev is_fetch t = 1%nat
    /\ (count_ev is_execute t <= 2)%nat
    /\ (count_ev is_send t <= length (db w') - 0 + 1)%nat.
Proof.
  exact (requests_are_bounded env_first_down empty_world two_new eq_refl).
Defined.

(** ** Alerts go out in the order of the timestamps *)

Lemma list_sort_keys_sorted (E : Env) (rows out : list Row) :
  Forall (fun x => ts_key x <> None) rows ->
  list_sort E rows = inr out ->
  exists ks, map ts_key out = map Some ks /\ StronglySorted Z.le ks.
Proof.
  intros Hall Hs. destruct (decorate_total _ Hall) as [d Hd].
  unfold list_sort in Hs. rewrite Hd in Hs. injection Hs as <-.
  exists (map fst (sort_decorated d)). split.
  - apply keyed_map_ts.
    eapply Permutation_Forall; [apply sort_decorated_perm|].
    eapply decorate_keyed; eassumption.
  - apply key_le_map_fst, sort_decorated_sorted.
Qed.

(** X6. When the timestamps of a fetched batch are integers or missing,
    the alerts of the iteration are attempted in non-decreasing order of
    timestamp, whatever fails on the way. *)
Theorem alerts_follow_timestamps (E : Env) (w : world) (items : list dict) :
  feed E (n_fetch w) = inr (RespList items) ->
  Forall (fun item => ts_key (normalize_item item) <> None) items ->
  exists w' t ks,
    cycle E w = (inr tt, w', t)
    /\ map ts_key (notified_rows t) = map Some ks
    /\ StronglySorted Z.le ks.
Proof.
  intros Hf Hts.
  destruct (cycle_anatomy E w items Hf)
    as (w' & t0 & mid & t2 & tC & rows & sorted & n & Hc & Hex & _ & Hal & HC
        & Hmid).
  assert (Hmid' : mid = EvRollback \/ mid = EvCommit)
    by (destruct Hmid as [(-> & _)|(-> & _)]; auto).
  pose proof (anatomy_notified t0 t2 tC mid _ Hex Hmid' Hal HC) as Hn.
  assert (Hempty : t2 = [] ->
                   exists ks, map ts_key (firstn n sorted) = map Some ks
                              /\ StronglySorted Z.le ks).
  { intros ->. destruct (firstn n sorted); [|discriminate Hal].
    exists []. split; constructor. }
  assert (Hks : exists ks, map ts_key (firstn n sorted) = map Some ks
                           /\ StronglySorted Z.le ks).
  { destruct Hmid as [(_ & _ & H2 & _)|(_ & _ & Hfrom & _ & _ & _ & _ & [H2|Hs])];
      try now apply Hempty.
    assert (Hrows : Forall (fun x => ts_key x <> None) rows).
    { eapply Forall_impl; [|exact Hfrom].
      intros x (item & Hin & -> & _).
      rewrite Forall_forall in Hts. now apply Hts. }
    destruct (list_sort_keys_sorted _ _ _ Hrows Hs) as (ks & Hk1 & Hk2).
    exists (firstn n ks). split; [|now apply sorted_firstn].
    now rewrite <- !firstn_map, Hk1. }
  destruct Hks as (ks & Hk1 & Hk2).
  exists w'. eexists. exists ks. split; [exact Hc|].
  rewrite Hn. now split.
Qed.

Lemma alerts_follow_timestamps_witness :
  Forall (fun item => ts_key (normalize_item item) <> None) two_new
  /\ exists w' t ks,
       cycle env_up empty_world = (inr tt, w', t)
       /\ map ts_key (notified_rows t) = map Some ks
       /\ StronglySorted Z.le ks.
Proof.
  assert (H : Forall (fun item => ts_key (normalize_item item) <> None) two_new)
    by (repeat constructor; discriminate).
  split; [exact H|].
  exact (alerts_follow_timestamps env_up empty_world two_new eq_refl H).
Defined.

(** ** The table only grows *)

(** X7. Over any number of iterations the table is only appended to: the
    rows it held are still there, unchanged and in their order, and every
    row behind them was put there by an insert that reported one row. *)
Theorem table_only_grows (E : Env) (n : nat) (w : world) :
  exists w' t rows,
    run E n w = (inr tt, w', t)
    /\ db w' = db w ++ rows
    /\ Forall (fun x => In (EvExecute x (inr 1)) t
                        /\ truthy (transactionHash x) = true) rows.
Proof.
  revert w. induction n as [|n IH]; intros w.
  - exists w, [], []. rewrite app_nil_r. repeat split. constructor.
  - destruct (cycle E w) as [[r1 w1] t1] eqn:Hc.
    destruct (cycle_spec _ _ _ _ _ Hc)
      as (-> & rows1 & sorted & k & tA & tB & tC & Ht & _ & _ & _ & Hdb & _
          & Hnew & _).
    destruct (IH w1) as (w2 & t2 & rows2 & Hrun & Hdb2 & Hin2).
    exists w2, (t1 ++ t2), (rows1 ++ rows2).
    cbn [run]. unfold bind. rewrite Hc, Hrun. split; [reflexivity|].
    split; [now rewrite Hdb2, Hdb, app_assoc|].
    apply Forall_app. split.
    + eapply Forall_impl; [|exact Hnew]. intros x (_ & Htx & Hin).
      split; [|exact Htx]. apply in_or_app. left. subst t1.
      apply in_or_app. now left.
    + eapply Forall_impl; [|exact Hin2]. intros x [Hin Htx].
      split; [|exact Htx]. apply in_or_app. now right.
Qed.

(** ** The message, when it can be built and when not *)

Lemma format_message_total (x : Row) :
  title x = VNone \/ (exists s, title x = VStr s) ->
  exists text, format_message x = inr text.
Proof.
  intros H. unfold format_message, stripped_title.
  destruct H as [->|[s ->]]; cbn [truthy]; [eauto|].
  destruct (negb (String.eqb s "")); eauto.
Qed.

(** X8. [format_message] raises exactly for a title that is truthy and
    not a string (a number, [True]), and what it raises is the
    [AttributeError] of the missing [strip]; for every other row it
    returns, and the message it returns has between three and six lines,
    the first the banner, the last the hash. *)
Theorem format_message_fails_on_odd_title (r : Row) :
  (forall e,
     format_message r = inl e <->
     (truthy (title r) = true /\ (forall s, title r <> VStr s)
      /\ e = Exn "AttributeError"
               ("'" ++ type_name (title r)
                ++ "' object has no attribute 'strip'")%string))
  /\ (forall text,
        format_message r = inr text ->
        exists t,
          text = join nl (message_lines t r)
          /\ (3 <= length (message_lines t r) <= 6)%nat
          /\ hd ""%string (message_lines t r) = line_header
          /\ last (message_lines t r) ""%string
             = line_tx (transactionHash r)).
Proof.
  split.
  - intros e. unfold format_message, stripped_title.
    destruct (title r) as [|[|]|z|f|s] eqn:Ht; cbn [truthy type_name];
      try (destruct (negb _) eqn:Hb);
      (split;
       [intros H; try discriminate H; injection H as <-;
        repeat split; try reflexivity; discriminate
       |intros (H1 & H2 & H3); try discriminate H1; subst e;
        try reflexivity; try (now elim (H2 s))]).
  - intros text H. unfold format_message in H.
    destruct (stripped_title r) as [e|t]; [discriminate H|].
    injection H as <-. exists t. split; [reflexivity|].
    unfold message_lines.
    destruct (negb (String.eqb t ""));
      destruct (negb (is_none (size r)) || negb (is_none (usdcSize r)));
      destruct (negb (is_none (price r))); cbn; repeat split; lia.
Qed.

Lemma format_message_fails_on_odd_title_witness :
  truthy (title row_numbered) = true
  /\ format_message row_numbered
     = inl (Exn "AttributeError" "'int' object has no attribute 'strip'").
Proof.
  split; [reflexivity|].
  apply (proj1 (format_message_fails_on_odd_title row_numbered)).
  split; [reflexivity|]. split; [intros s; discriminate | reflexivity].
Defined.

(** ** The delivery loop *)

Lemma deliver_all (E : Env) (rows : list Row) :
  (forall n, tg_err E n = None) ->
  Forall (fun x => exists text, format_message x = inr text) rows ->
  forall w, exists w' t,
    deliver E rows w = (inr tt, w', t)
    /\ map alert_row t = map Some rows
    /\ Forall delivered t
    /\ n_send w' = (n_send w + length rows)%nat.
Proof.
  intros Htg Hfmt. induction Hfmt as [|x rows [text Hx] _ IH]; intros w.
  - exists w, []. repeat split; [constructor | cbn; lia].
  - cbn [deliver]. unfold bind, lift, telegram_send. rewrite Hx, Htg.
    match goal with
    | |- context [deliver E rows ?w1] =>
        destruct (IH w1) as (w' & t & Hd & Hal & Hok & Hn); rewrite Hd
    end.
    exists w'. eexists. split; [reflexivity|]. cbn [app map alert_row].
    split; [now rewrite Hal|]. split; [now constructor|].
    cbn [n_send length] in *. lia.
Qed.

(** X9. A row whose message cannot be built stops the delivery loop
    before anything is sent for it: with Telegram up, the rows ahead of
    it are alerted, one message each and in order, the exception of
    [format_message] leaves the loop, and neither that row nor the rows
    behind it get a message. *)
Theorem unformattable_row_stops_delivery (E : Env) (pre post : list Row)
    (x : Row) (e : exn) (w : world) :
  (forall n, tg_err E n = None) ->
  Forall (fun y => exists text, format_message y = inr text) pre ->
  format_message x = inl e ->
  exists w' t,
    deliver E (pre ++ x :: post) w = (inl e, w', t)
    /\ map alert_row t = map Some pre
    /\ Forall delivered t
    /\ n_send w' = (n_send w + length pre)%nat.
Proof.
  intros Htg Hpre Hx. revert w.
  induction Hpre as [|y pre [text Hy] _ IH]; intros w.
  - exists w, []. cbn [app deliver]. unfold bind, lift. rewrite Hx.
    repeat split; [constructor | cbn; lia].
  - cbn [app deliver]. unfold bind, lift, telegram_send. rewrite Hy, Htg.
    match goal with
    | |- context [deliver E (pre ++ x :: post) ?w1] =>
        destruct (IH w1) as (w' & t & Hd & Hal & Hok & Hn); rewrite Hd
    end.
    exists w'. eexists. split; [reflexivity|]. cbn [app map alert_row].
    split; [now rewrite Hal|]. split; [now constructor|].
    cbn [n_send length] in *. lia.
Qed.

Lemma unformattable_row_stops_delivery_witness :
  format_message row_numbered
  = inl (Exn "AttributeError" "'int' object has no attribute 'strip'")
  /\ exists w' t,
       deliver env_up ([row_a] ++ row_numbered :: [row_b]) empty_world
       = (inl (Exn "AttributeError" "'int' object has no attribute 'strip'"),
          w', t)
       /\ map alert_row t = [Some row_a]
       /\ Forall delivered t
       /\ n_send w' = 1%nat.
Proof.
  split; [reflexivity|].
  apply (unformattable_row_stops_delivery env_up [row_a] [row_b] row_numbered
           _ empty_world).
  - intros n. reflexivity.
  - repeat constructor. now exists alert_a.
  - reflexivity.
Defined.

(** ** When nothing fails *)

Lemma list_sort_total (E : Env) (rows : list Row) :
  Forall (fun x => ts_key x <> None) rows ->
  exists out, list_sort E rows = inr out.
Proof.
  intros H. destruct (decorate_total _ H) as [d Hd].
  unfold list_sort. rewrite Hd. eauto.
Qed.

(** X10. When the database and Telegram answer and the records of the
    batch can be ordered and formatted, the iteration commits, attempts
    one alert for every row it added, in the sorted order, every message
    is accepted, and no error report is sent. *)
Theorem quiet_world_delivers_everything (E : Env) (w : world)
    (items : list dict) :
  feed E (n_fetch w) = inr (RespList items) ->
  (forall n, db_err E n = None) ->
  (forall n, commit_err E n = None) ->
  (forall n, tg_err E n = None) ->
  Forall (fun item => presentable (normalize_item item)) items ->
  exists w' t rows sorted,
    cycle E w = (inr tt, w', t)
    /\ db w' = db w ++ rows
    /\ list_sort E rows = inr sorted
    /\ notified_rows t = sorted
    /\ Forall delivered t
    /\ count_ev is_report t = 0%nat
    /\ In EvCommit t.
Proof.
  intros Hf Hdb Hcommit Htg Hpres.
  destruct (ingest E items (after_fetch w)) as [[r1 w1] t1] eqn:Hi.
  destruct (cycle_of_ingest _ _ _ _ _ _ Hf Hi) as (w' & tC & Hc & Hw' & HtC).
  destruct (ingest_cases _ _ _ _ _ _ Hi) as (r0 & w0 & t0 & Hrec & Hcase).
  destruct (record_items_ok E items Hdb [] (after_fetch w))
    as (rows & w0' & t0' & Hok).
  rewrite Hok in Hrec. injection Hrec as <- <- <-.
  destruct (record_items_detail _ _ _ _ _ _ _ Hok)
    as (Hex & _ & _ & _ & added & Ha & Hb & Hfrom).
  cbn [app after_fetch db] in *. subst added.
  rewrite Hcommit in Hcase.
  assert (Hrows : Forall presentable rows).
  { eapply Forall_impl; [|exact Hfrom]. intros x (item & Hin & -> & _).
    rewrite Forall_forall in Hpres. now apply Hpres. }
  assert (Hkeys : Forall (fun x => ts_key x <> None) rows)
    by (eapply Forall_impl; [|exact Hrows]; now intros x [H _]).
  destruct (list_sort_total E rows Hkeys) as [sorted Hs].
  rewrite Hs in Hcase. destruct Hcase as (w2 & t2 & Hw2 & _ & Hd & ->).
  assert (Hfmt : Forall (fun x => exists text, format_message x = inr text)
                   sorted).
  { eapply Permutation_Forall; [eapply list_sort_perm; exact Hs|].
    eapply Forall_impl; [|exact Hrows].
    intros x [_ H]. now apply format_message_total. }
  destruct (deliver_all E sorted Htg Hfmt w2) as (w3 & t3 & Hd3 & Hal & Hdel & _).
  rewrite Hd3 in Hd. injection Hd as <- <- <-.
  destruct (deliver_spec _ _ _ _ _ _ Hd3) as (Hdb3 & _).
  subst tC. destruct (execute_no_alert _ Hex) as (Hna & _).
  exists w', (EvFetch :: (t0' ++ EvCommit :: t3) ++ [] ++ [EvSleep]), rows, sorted.
  split; [exact Hc|]. split; [congruence|]. split; [exact Hs|].
  rewrite <- app_assoc. cbn [app].
  split; [|split; [|split]].
  - exact (anatomy_notified t0' t3 [] EvCommit sorted Hex (or_intror eq_refl)
             Hal (or_introl eq_refl)).
  - constructor; [exact I|]. apply Forall_app. split.
    + eapply Forall_impl; [|exact Hex]. now intros [| | | | |].
    + constructor; [exact I|]. apply Forall_app. split; [exact Hdel|].
      repeat constructor.
  - change (EvFetch :: t0' ++ EvCommit :: t3 ++ [EvSleep])
      with ([EvFetch] ++ t0' ++ [EvCommit] ++ t3 ++ [EvSleep]).
    rewrite !count_ev_app.
    rewrite (count_ev_none is_report t0')
      by (eapply Forall_impl; [|exact Hex]; now intros [| | | | |]).
    rewrite (count_alerts is_report t3 _ Hal) by reflexivity.
    reflexivity.
  - right. apply in_or_app. right. now left.
Qed.

Lemma quiet_world_delivers_everything_witness :
  Forall (fun item => presentable (normalize_item item)) two_new
  /\ exists w' t rows sorted,
       cycle env_up empty_world = (inr tt, w', t)
       /\ db w' = rows
       /\ list_sort env_up rows = inr sorted
       /\ notified_rows t = sorted
       /\ Forall delivered t
       /\ count_ev is_report t = 0%nat
       /\ In EvCommit t.
Proof.
  assert (H : Forall (fun item => presentable (normalize_item item)) two_new).
  { repeat constructor; try discriminate; now left. }
  split; [exact H|].
  apply (quiet_world_delivers_everything env_up empty_world two_new eq_refl);
    [intros n; reflexivity | intros n; reflexivity | intros n; reflexivity
    | exact H].
Defined.

(** ** The payload names the record *)

Lemma json_loads_dumps (item : dict) :
  wf_item item -> json_loads (json_dumps item) = Some item.
Proof.
  intros [Hnd Hwf]. unfold json_dumps, json_loads.
  change (skip_ws ("{" ++ json_members item ++ "}")%string)
    with (String "{" (json_members item ++ "}")%string).
  destruct item as [|kv d]; [reflexivity|].
  rewrite skip_ws_members.
  destruct kv as [k v].
  assert (Hq : exists y, (json_members ((k, v) :: d) ++ "}")%string
                         = String (ascii_of_nat 34) y).
  { destruct d as [|kv2 d]; cbn [json_members];
      rewrite ?append_assoc, json_member_shape; eauto. }
  destruct Hq as [y Hy]. rewrite Hy.
  replace (N_of_ascii (ascii_of_nat 34) =? 125)%N with false by reflexivity.
  rewrite <- Hy.
  rewrite (read_members_json ((k, v) :: d) ltac:(discriminate) Hwf _ _ []
             ""%string).
  - cbn [skip_ws].
    replace (N_of_ascii "{" =? 123)%N with true by reflexivity. cbn [negb].
    f_equal. now apply dict_of_fresh.
  - pose proof (members_length ((k, v) :: d)) as Hl.
    rewrite !length_append. lia.
  - apply skip_ws_members.
Qed.

(** X11. Two raw records with the same stored payload are the same
    record: [raw_json] tells apart any two well-formed records that
    differ in a key, a value or the order of their keys, also where the
    sixteen columns do not (a field outside the columns). *)
Theorem payload_determines_record (a b : dict) :
  wf_item a -> wf_item b ->
  raw_json (normalize_item a) = raw_json (normalize_item b) ->
  a = b.
Proof.
  intros Ha Hb H. cbn [raw_json normalize_item] in H.
  apply (f_equal json_loads) in H.
  rewrite (json_loads_dumps a Ha), (json_loads_dumps b Hb) in H.
  now injection H.
Qed.

Lemma payload_determines_record_witness :
  wf_item item_full /\ item_full = item_full.
Proof.
  assert (H : wf_item item_full).
  { split.
    - repeat constructor; simpl; intuition discriminate.
    - repeat constructor. }
  split; [exact H|].
  exact (payload_determines_record item_full item_full H H eq_refl).
Defined.

(** ** The settings read at the start of run *)

Lemma env_inr (vars : environ) (name : string) (default : option string)
    (v : string) :
  env vars name default = inr v ->
  v <> ""%string
  /\ (vars name = Some v \/ (vars name = None /\ default = Some v)).
Proof.
  unfold env, getenv.
  destruct (vars name) as [x|]; [|destruct default as [x|]];
    try discriminate;
    destruct (String.eqb_spec x "") as [->|Hne]; try discriminate;
    intros H; injection H as <-; split; auto.
Qed.

Lemma env_usable (vars : environ) (name : string) :
  usable vars name = true ->
  forall default, exists v, env vars name default = inr v /\ vars name = Some v.
Proof.
  unfold usable, env, getenv. destruct (vars name) as [x|]; [|discriminate].
  intros H default. destruct (String.eqb x ""); [discriminate|]. eauto.
Qed.

Lemma env_unusable (vars : environ) (name : string) :
  usable vars name = false ->
  env vars name None = inl (missing_env_var name).
Proof.
  unfold usable, env, getenv. destruct (vars name) as [x|]; [|reflexivity].
  destruct (String.eqb x ""); [reflexivity | discriminate].
Qed.

(** X12. Of the three required variables (POLY_USER, TELEGRAM_BOT_TOKEN,
    TELEGRAM_CHAT_ID, read in this order) the first that is unset or
    empty is the one the [RuntimeError] names, whatever the variables
    behind it hold and however [int] reads the optional ones. *)
Theorem startup_names_first_missing (py_int : string -> result Z)
    (vars : environ) (pre post : list string) (name : string) :
  required_vars = pre ++ name :: post ->
  Forall (fun n => usable vars n = true) pre ->
  usable vars name = false ->
  run_config py_int vars = inl (missing_env_var name).
Proof.
  intros Hreq Hpre Hname. unfold required_vars in Hreq. unfold run_config.
  destruct pre as [|a [|b [|c pre]]]; cbn [app] in Hreq.
  - injection Hreq as <- _. now rewrite (env_unusable _ _ Hname).
  - injection Hreq as <- <- _. inversion Hpre as [|? ? Ha _]; subst.
    destruct (env_usable _ _ Ha None) as (u & -> & _). cbn [and_then].
    now rewrite (env_unusable _ _ Hname).
  - injection Hreq as <- <- <- _. inversion Hpre as [|? ? Ha Hpre']; subst.
    inversion Hpre' as [|? ? Hb _]; subst.
    destruct (env_usable _ _ Ha None) as (u & -> & _).
    destruct (env_usable _ _ Hb None) as (v & -> & _). cbn [and_then].
    now rewrite (env_unusable _ _ Hname).
  - exfalso. injection Hreq as _ _ _ Hreq. destruct pre; discriminate Hreq.
Qed.

Lemma startup_names_first_missing_witness :
  usable vars_no_chat "TELEGRAM_CHAT_ID" = false
  /\ run_config int_of_digits vars_no_chat
     = inl (Exn "RuntimeError" "Missing env var: TELEGRAM_CHAT_ID").
Proof.
  split; [reflexivity|].
  apply (startup_names_first_missing int_of_digits vars_no_chat
           ["POLY_USER"; "TELEGRAM_BOT_TOKEN"]%string []
           "TELEGRAM_CHAT_ID"%string).
  - reflexivity.
  - repeat constructor.
  - reflexivity.
Defined.

(** X13. When the settings are read without error, the three required
    ones are the values of their variables and none is empty; an
    optional one is the value of its variable when that is set, the
    default ("15", "100", the path under /data) only when it is not set
    at all, and never empty: a variable set to the empty string does not
    fall back to its default, it stops the start. *)
Theorem startup_settings_are_set (py_int : string -> result Z)
    (vars : environ) (c : config) :
  run_config py_int vars = inr c ->
  comes_from vars "POLY_USER" None (user c)
  /\ comes_from vars "TELEGRAM_BOT_TOKEN" None (bot_token c)
  /\ comes_from vars "TELEGRAM_CHAT_ID" None (chat_id c)
  /\ (exists s, comes_from vars "POLL_INTERVAL_SEC" (Some "15"%string) s
                /\ py_int s = inr (poll_interval c))
  /\ (exists s, comes_from vars "LIMIT" (Some "100"%string) s
                /\ py_int s = inr (limit c))
  /\ comes_from vars "DB_PATH" (Some "/data/polymarket.sqlite3"%string)
       (db_path c).
Proof.
  unfold run_config, comes_from. intros H.
  destruct (env vars "POLY_USER" None) as [e|u] eqn:H1; [discriminate H|].
  destruct (env vars "TELEGRAM_BOT_TOKEN" None) as [e|b] eqn:H2;
    [discriminate H|].
  destruct (env vars "TELEGRAM_CHAT_ID" None) as [e|ch] eqn:H3;
    [discriminate H|].
  destruct (env vars "POLL_INTERVAL_SEC" (Some "15"%string)) as [e|p] eqn:H4;
    [discriminate H|].
  cbn [and_then] in H. destruct (py_int p) as [e|pz] eqn:Hp; [discriminate H|].
  destruct (env vars "LIMIT" (Some "100"%string)) as [e|l] eqn:H5;
    [discriminate H|].
  cbn [and_then] in H. destruct (py_int l) as [e|lz] eqn:Hl; [discriminate H|].
  destruct (env vars "DB_PATH" (Some "/data/polymarket.sqlite3"%string))
    as [e|d] eqn:H6; [discriminate H|].
  cbn [and_then] in H. injection H as <-.
  cbn [user bot_token chat_id poll_interval limit db_path].
  split; [now apply env_inr in H1|]. split; [now apply env_inr in H2|].
  split; [now apply env_inr in H3|].
  split; [exists p; split; [now apply env_inr in H4 | exact Hp]|].
  split; [exists l; split; [now apply env_inr in H5 | exact Hl]|].
  now apply env_inr in H6.
Qed.

Lemma startup_settings_are_set_witness :
  run_config int_of_digits vars_ok = inr config_ok
  /\ comes_from vars_ok "POLL_INTERVAL_SEC" (Some "15"%string) "30"
  /\ comes_from vars_ok "DB_PATH" (Some "/data/polymarket.sqlite3"%string)
       "/data/polymarket.sqlite3".
Proof.
  split; [reflexivity|].
  destruct (startup_settings_are_set int_of_digits vars_ok config_ok eq_refl)
    as (_ & _ & _ & (s & Hs & Hi) & _ & Hdb).
  split; [|exact Hdb].
  split; [discriminate|]. left. reflexivity.
Defined.

(** ** What a committed iteration leaves in the table *)

Lemma fresh_rows_known (rt : string -> string) (t : table)
    (items : list dict) :
  Forall (fun item => accounted rt t item = true) items ->
  fresh_rows rt t items = [].
Proof.
  induction 1 as [|item rest Hk _ IH]; cbn [fresh_rows]; [reflexivity|].
  unfold accounted in Hk.
  destruct (truthy (transactionHash (normalize_item item)));
    cbn [negb orb andb] in *; [|exact IH].
  rewrite Hk. exact IH.
Qed.

Lemma has_key_snoc (rt : string -> string) (t : table) (row : Row)
    (k : value) :
  has_key rt (t ++ [row]) k
  = has_key rt t k || same_key rt (transactionHash row) k.
Proof.
  rewrite has_key_app. cbn [has_key existsb]. now rewrite orb_false_r.
Qed.

(** A row the batch adds has a truthy hash whose key was not in the
    table. *)
Lemma fresh_rows_new (rt : string -> string) (items : list dict) :
  forall t y,
    In y (fresh_rows rt t items) ->
    truthy (transactionHash y) = true
    /\ has_key rt t (transactionHash y) = false.
Proof.
  induction items as [|item rest IH]; intros t y Hin; [destruct Hin|].
  cbn [fresh_rows] in Hin.
  destruct (truthy (transactionHash (normalize_item item))) eqn:Htx;
    cbn [andb] in Hin; [|now apply IH].
  destruct (has_key rt t (transactionHash (normalize_item item))) eqn:Hk;
    cbn [negb] in Hin; [now apply IH|].
  destruct Hin as [<-|Hin]; [now split|].
  destruct (IH _ _ Hin) as [Hy Hnew]. split; [exact Hy|].
  rewrite has_key_snoc in Hnew. now apply orb_false_iff in Hnew.
Qed.

(** No two rows the batch adds have one key. *)
Lemma fresh_rows_unique (rt : string -> string) (items : list dict) :
  forall t x y,
    In x (fresh_rows rt t items) -> In y (fresh_rows rt t items) ->
    same_key rt (transactionHash x) (transactionHash y) = true ->
    x = y.
Proof.
  induction items as [|item rest IH]; intros t x y Hx Hy Hxy; [destruct Hx|].
  cbn [fresh_rows] in Hx, Hy.
  destruct (truthy (transactionHash (normalize_item item))
            && negb (has_key rt t (transactionHash (normalize_item item))));
    [|now apply (IH t)].
  assert (Hfar : forall a b,
             a = normalize_item item ->
             In b (fresh_rows rt (t ++ [normalize_item item]) rest) ->
             same_key rt (transactionHash a) (transactionHash b) = false).
  { intros a b -> Hb. destruct (fresh_rows_new _ _ _ _ Hb) as [_ Hnew].
    rewrite has_key_snoc in Hnew. now apply orb_false_iff in Hnew. }
  destruct Hx as [Hx|Hx], Hy as [Hy|Hy].
  - congruence.
  - rewrite (Hfar x y (eq_sym Hx) Hy) in Hxy. discriminate Hxy.
  - rewrite same_key_sym, (Hfar y x (eq_sym Hy) Hx) in Hxy. discriminate Hxy.
  - now apply (IH (t ++ [normalize_item item])).
Qed.

(** The first record of a batch with a truthy hash under a key that is
    not in the table is among the rows the batch adds. *)
Lemma fresh_rows_first (rt : string -> string) (k : value)
    (items : list dict) :
  forall t first,
    has_key rt t k = false ->
    find (fun item => truthy (transactionHash (normalize_item item))
                      && has_hash rt k item) items = Some first ->
    In (normalize_item first) (fresh_rows rt t items).
Proof.
  induction items as [|item rest IH]; intros t first Ht Hf;
    [discriminate Hf|].
  cbn [find fresh_rows] in *. unfold has_hash in Hf at 1.
  destruct (truthy (transactionHash (normalize_item item))) eqn:Htx;
    cbn [andb] in *; [|now apply IH].
  destruct (same_key rt (transactionHash (normalize_item item)) k) eqn:He.
  - injection Hf as <-.
    assert (Hnew : has_key rt t (transactionHash (normalize_item item))
                   = false).
    { destruct (has_key rt t (transactionHash (normalize_item item))) eqn:Hk;
        [|reflexivity].
      unfold has_key in Hk, Ht. apply existsb_exists in Hk.
      destruct Hk as (r & Hin & Hr).
      assert (Hbad : existsb (fun r => same_key rt (transactionHash r) k) t
                     = true).
      { apply existsb_exists. exists r. split; [exact Hin|].
        now apply (same_key_trans rt _ _ _ Hr). }
      congruence. }
    rewrite Hnew. now left.
  - destruct (has_key rt t (transactionHash (normalize_item item)));
      cbn [negb].
    + now apply IH.
    + right. apply IH; [|exact Hf]. rewrite has_key_snoc, Ht, He. reflexivity.
Qed.

Lemma find_has_hash (rt : string -> string) (items : list dict)
    (item : dict) :
  In item items ->
  truthy (transactionHash (normalize_item item)) = true ->
  exists first,
    find (fun i => truthy (transactionHash (normalize_item i))
                   && has_hash rt (transactionHash (normalize_item item)) i)
      items = Some first
    /\ In first items
    /\ truthy (transactionHash (normalize_item first)) = true
    /\ same_key rt (transactionHash (normalize_item first))
         (transactionHash (normalize_item item)) = true.
Proof.
  intros Hin Htx.
  match goal with
  | |- exists first, find ?p items = _ /\ _ =>
      destruct (find p items) as [first|] eqn:Hf
  end.
  - exists first. split; [reflexivity|]. apply find_some in Hf.
    destruct Hf as [H1 H2]. apply andb_true_iff in H2. destruct H2 as [H2 H3].
    repeat split; assumption.
  - apply (find_none _ _ Hf) in Hin. cbn beta in Hin. unfold has_hash in Hin.
    rewrite Htx, same_key_refl in Hin by exact Htx. discriminate Hin.
Qed.

(** Behind the commit the table has grown by the rows the batch should
    add, and an insert for any record of the batch would add nothing. *)
Lemma cycle_commit_fresh (E : Env) (w : world) (items : list dict) :
  feed E (n_fetch w) = inr (RespList items) ->
  exists w' t,
    cycle E w = (inr tt, w', t)
    /\ (In EvCommit t ->
        db w' = db w ++ fresh_rows (real_text E) (db w) items
        /\ Forall (fun item => accounted (real_text E) (db w') item = true)
             items).
Proof.
  intros Hf.
  destruct (ingest E items (after_fetch w)) as [[r1 w1] t1] eqn:Hi.
  destruct (cycle_of_ingest _ _ _ _ _ _ Hf Hi) as (w' & tC & Hc & Hdb & HtC).
  destruct (ingest_cases _ _ _ _ _ _ Hi) as (r0 & w0 & t0 & Hrec & Hcase).
  destruct (record_items_detail _ _ _ _ _ _ _ Hrec) as (Hex & _).
  destruct (execute_no_alert _ Hex) as (_ & _ & _ & Hnc).
  exists w'. eexists. split; [exact Hc|]. intros Hin.
  assert (Hfail : forall e,
             r1 = inl e -> t1 = t0 ++ [EvRollback] -> False).
  { intros e -> ->. subst tC. split_in Hin. now apply Hnc. }
  destruct r0 as [e|rows].
  { destruct Hcase as (Hr & _ & Ht1). elim (Hfail e Hr Ht1). }
  destruct (record_items_fresh _ _ _ _ _ _ _ Hrec) as (Hrows & Hdb0 & Hkn).
  cbn [app after_fetch db] in *.
  assert (Hw0 : db w' = db w0 ->
                db w' = db w ++ fresh_rows (real_text E) (db w) items
                /\ Forall (fun item =>
                             accounted (real_text E) (db w') item = true)
                     items).
  { intros Hw. rewrite Hw. split; assumption. }
  destruct (commit_err E (n_commit w0)) as [e|].
  { destruct Hcase as (Hr & _ & Ht1). elim (Hfail e Hr Ht1). }
  destruct (list_sort E rows) as [e|sorted].
  - destruct Hcase as (_ & Hw1 & _). apply Hw0. congruence.
  - destruct Hcase as (w2 & t2 & Hw2 & _ & Hd & _).
    destruct (deliver_spec _ _ _ _ _ _ Hd) as (Hdb2 & _).
    apply Hw0. congruence.
Qed.

(** X14. The key of a record is the text the [String] column stores for
    its hash, so that the hashes 1 and "1" are one key.  When several
    records of a committed batch have truthy hashes under one key that
    was not in the table, the row stored for that key is the
    normalization of the first of them in the order of the feed, and it
    is the only row of the table under that key. *)
Theorem first_record_of_a_hash_wins (E : Env) (w : world)
    (items : list dict) :
  feed E (n_fetch w) = inr (RespList items) ->
  exists w' t,
    cycle E w = (inr tt, w', t)
    /\ (In EvCommit t ->
        forall item,
          In item items ->
          truthy (transactionHash (normalize_item item)) = true ->
          has_key (real_text E) (db w) (transactionHash (normalize_item item))
          = false ->
          exists first,
            find (fun i =>
                    truthy (transactionHash (normalize_item i))
                    && has_hash (real_text E)
                         (transactionHash (normalize_item item)) i)
              items = Some first
            /\ In (normalize_item first) (db w')
            /\ forall x,
                 In x (db w') ->
                 same_key (real_text E) (transactionHash x)
                   (transactionHash (normalize_item item)) = true ->
                 x = normalize_item first).
Proof.
  intros Hf.
  destruct (cycle_commit_fresh E w items Hf) as (w' & t & Hc & Hcommit).
  exists w', t. split; [exact Hc|]. intros Hin item Hitem Htx Hk.
  destruct (Hcommit Hin) as (Hdb & _).
  destruct (find_has_hash (real_text E) items item Hitem Htx)
    as (first & Hfind & _ & _ & Hsame).
  exists first. split; [exact Hfind|].
  pose proof (fresh_rows_first _ _ _ _ _ Hk Hfind) as Hfirst.
  rewrite Hdb. split; [apply in_or_app; now right|].
  intros x Hx Hxk. apply in_app_or in Hx. destruct Hx as [Hx|Hx].
  - exfalso. unfold has_key in Hk.
    assert (H : existsb (fun r => same_key (real_text E) (transactionHash r)
                                    (transactionHash (normalize_item item)))
                  (db w) = true)
      by (apply existsb_exists; eauto).
    congruence.
  - apply (fresh_rows_unique _ _ _ _ _ Hx Hfirst).
    apply (same_key_trans _ _ _ _ Hxk). now rewrite same_key_sym.
Qed.

Lemma first_record_of_a_hash_wins_witness :
  exists w' t,
    cycle env_same empty_world = (inr tt, w', t)
    /\ (In EvCommit t ->
        In (normalize_item same_first) (db w')
        /\ ~ In (normalize_item same_second) (db w')).
Proof.
  destruct (first_record_of_a_hash_wins env_same empty_world two_same eq_refl)
    as (w' & t & Hc & H).
  exists w', t. split; [exact Hc|]. intros Hin.
  destruct (H Hin same_second (or_intror (or_introl eq_refl))
              eq_refl eq_refl) as (first & Hfirst & Hstored & Honly).
  injection Hfirst as <-. split; [exact Hstored|].
  intros Hbad. apply Honly in Hbad; [discriminate Hbad | reflexivity].
Defined.

(** ** Polling the same window again *)

(** X15. Two iterations that fetch the same batch: when the first one
    committed, the second one leaves the table as the first left it and
    attempts no alert.  So the alerts the first iteration did not get to
    (Telegram failed in the middle of the delivery) are not made up for
    by the next one. *)
Theorem repolling_changes_nothing (E : Env) (w : world)
    (items : list dict) :
  (forall n, feed E n = inr (RespList items)) ->
  exists w1 t1 w2 t2,
    cycle E w = (inr tt, w1, t1)
    /\ cycle E w1 = (inr tt, w2, t2)
    /\ (In EvCommit t1 -> db w2 = db w1 /\ notified_rows t2 = []).
Proof.
  intros Hf.
  destruct (cycle_commit_fresh E w items (Hf _)) as (w1 & t1 & Hc1 & Hcommit).
  destruct (cycle_anatomy E w1 items (Hf _))
    as (w2 & t0 & mid & t2 & tC & rows & sorted & n & Hc2 & Hex & _ & Hal & HC
        & Hmid).
  exists w1, t1, w2. eexists. split; [exact Hc1|]. split; [exact Hc2|].
  intros Hin. destruct (Hcommit Hin) as (_ & Hkn).
  destruct Hmid as [(-> & Hdb & -> & _)
                   |(-> & Hdb & _ & _ & _ & _ & Hperm & _)].
  - split; [exact Hdb|].
    apply (anatomy_notified t0 [] tC EvRollback []); auto.
  - assert (Hrows : rows = []).
    { destruct (cycle_commit_fresh E w1 items (Hf _))
        as (w2' & t2' & Hc2' & Hfresh).
      rewrite Hc2 in Hc2'. injection Hc2' as <- <-.
      destruct Hfresh as (Hdb' & _).
      { right. apply in_or_app. right. now left. }
      rewrite (fresh_rows_known _ _ _ Hkn), Hdb in Hdb'.
      now apply app_inv_head in Hdb'. }
    subst rows. apply Permutation_nil in Hperm. subst sorted.
    rewrite app_nil_r in Hdb. split; [exact Hdb|].
    rewrite firstn_nil in Hal.
    apply (anatomy_notified t0 t2 tC EvCommit []); auto.
Qed.

Lemma repolling_changes_nothing_witness :
  exists w1 t1 w2 t2,
    cycle env_first_down empty_world = (inr tt, w1, t1)
    /\ cycle env_first_down w1 = (inr tt, w2, t2)
    /\ (In EvCommit t1 -> db w2 = db w1 /\ notified_rows t2 = []).
Proof.
  apply (repolling_changes_nothing env_first_down empty_world two_new).
  intros n. reflexivity.
Defined.

(** ** The order in which an iteration alerts *)

(** C3, amended.  The rows an iteration has newly recorded are [rows], in
    the order of the fetch: when it commits, they are the records of the
    batch with a truthy hash and a new key, in the order of the batch.
    Its notifications are attempted for the first rows of a
    rearrangement of [rows], one after the other.  When
    the timestamps of these rows are integers or missing, the
    rearrangement is the stable sort by timestamp ascending: the sort
    raises no error, the notifications go out in non-decreasing order of
    timestamp, rows with one timestamp in the order of the fetch, the
    sequence of timestamps is the same for every order in which the feed
    could have returned the batch, and a row without timestamp is
    treated as timestamp 0: no row with a positive timestamp is ahead of
    it and no row with a negative one is behind it. *)
Theorem delivery_order_by_timestamp (E : Env) (w : world)
    (items : list dict) :
  feed E (n_fetch w) = inr (RespList items) ->
  exists w' t rows,
    cycle E w = (inr tt, w', t)
    /\ db w' = db w ++ rows
    /\ (rows = [] \/ rows = fresh_rows (real_text E) (db w) items)
    /\ (exists sorted n,
          Permutation rows sorted /\ notified_rows t = firstn n sorted
          /\ (notified_rows t = [] \/ list_sort E rows = inr sorted))
    /\ (Forall (fun x => ts_key x <> None) rows ->
        exists sorted ks n,
          list_sort E rows = inr sorted
          /\ notified_rows t = firstn n sorted
          /\ map ts_key (notified_rows t) = map Some (firstn n ks)
          /\ StronglySorted Z.le (firstn n ks)
          /\ Permutation rows sorted
          /\ map ts_key sorted = map Some ks /\ StronglySorted Z.le ks
          /\ (forall k, filter (has_ts k) sorted = filter (has_ts k) rows)
          /\ (forall rows',
                Permutation rows rows' ->
                exists sorted',
                  list_sort E rows' = inr sorted'
                  /\ map ts_key sorted' = map ts_key sorted)
          /\ (forall pre x post,
                sorted = pre ++ x :: post -> timestamp x = VNone ->
                ts_key x = Some 0
                /\ Forall (fun y => exists k, ts_key y = Some k /\ k <= 0) pre
                /\ Forall (fun y => exists k, ts_key y = Some k /\ 0 <= k)
                     post)).
Proof.
  intros Hf.
  destruct (cycle_anatomy E w items Hf)
    as (w' & t0 & mid & t2 & tC & rows & sorted & n & Hc & Hex & _ & Hal & HC
        & Hmid).
  assert (Hgen : forall rows n',
             (forall out, list_sort E rows = inr out ->
                          notified_rows
                            (EvFetch :: t0 ++ mid :: t2 ++ tC ++ [EvSleep])
                          = firstn n' out) ->
             Forall (fun x => ts_key x <> None) rows ->
             exists sorted ks n,
               list_sort E rows = inr sorted
               /\ notified_rows (EvFetch :: t0 ++ mid :: t2 ++ tC ++ [EvSleep])
                  = firstn n sorted
               /\ map ts_key
                    (notified_rows
                       (EvFetch :: t0 ++ mid :: t2 ++ tC ++ [EvSleep]))
                  = map Some (firstn n ks)
               /\ StronglySorted Z.le (firstn n ks)
               /\ Permutation rows sorted
               /\ map ts_key sorted = map Some ks /\ StronglySorted Z.le ks
               /\ (forall k,
                     filter (has_ts k) sorted = filter (has_ts k) rows)
               /\ (forall rows',
                     Permutation rows rows' ->
                     exists sorted',
                       list_sort E rows' = inr sorted'
                       /\ map ts_key sorted' = map ts_key sorted)
               /\ (forall pre x post,
                     sorted = pre ++ x :: post -> timestamp x = VNone ->
                     ts_key x = Some 0
                     /\ Forall (fun y => exists k, ts_key y = Some k /\ k <= 0)
                          pre
                     /\ Forall (fun y => exists k, ts_key y = Some k /\ 0 <= k)
                          post)).
  { intros rows0 n' Hnot Hall.
    destruct (list_sort_stable E rows0 Hall)
      as (out & ks & Hs & Hp & Hks & Hsorted & Hties & Hsplit).
    exists out, ks, n'. split; [exact Hs|].
    split; [now apply Hnot|]. split.
    { rewrite (Hnot out Hs), <- !firstn_map. now rewrite Hks. }
    split; [now apply sorted_firstn|].
    repeat (split; [assumption|]). split.
    - intros rows' Hperm.
      destruct (list_sort_rearranged E rows0 rows' Hperm Hall)
        as (o1 & o2 & H1 & H2 & Hsame & _).
      rewrite Hs in H1. injection H1 as <-.
      exists o2. split; [exact H2 | now symmetry].
    - intros pre x post Hout Hx.
      assert (Hx0 : ts_key x = Some 0)
        by (unfold ts_key, sort_key; now rewrite Hx).
      split; [exact Hx0|]. now apply (Hsplit pre x post 0). }
  destruct Hmid as [(-> & Hdb & -> & _)
                   |(-> & Hdb & _ & _ & _ & _ & Hperm & Hsort)].
  - exists w'. eexists. exists []. split; [exact Hc|]. rewrite app_nil_r.
    split; [exact Hdb|]. split; [now left|].
    assert (Hnone : notified_rows
                      (EvFetch :: t0 ++ EvRollback :: [] ++ tC ++ [EvSleep])
                    = [])
      by (apply (anatomy_notified t0 [] tC EvRollback []); auto).
    split.
    + exists [], 0%nat. split; [constructor|]. split; [exact Hnone | now left].
    + apply (Hgen [] 0%nat). intros out _. exact Hnone.
  - exists w'. eexists. exists rows. split; [exact Hc|]. split; [exact Hdb|].
    split.
    { right. destruct (cycle_commit_fresh E w items Hf)
        as (w2 & t2' & Hc2 & Hfresh).
      rewrite Hc in Hc2. injection Hc2 as <- <-.
      destruct Hfresh as (Hdb' & _).
      { right. apply in_or_app. right. now left. }
      rewrite Hdb in Hdb'. now apply app_inv_head in Hdb'. }
    assert (Hnot : notified_rows
                     (EvFetch :: t0 ++ EvCommit :: t2 ++ tC ++ [EvSleep])
                   = firstn n sorted)
      by (apply (anatomy_notified t0 t2 tC EvCommit); auto).
    split.
    { exists sorted, n. split; [exact Hperm|]. split; [exact Hnot|].
      destruct Hsort as [->|Hsort]; [left | now right].
      apply (anatomy_notified t0 [] tC EvCommit []); auto. }
    destruct Hsort as [->|Hsort].
    + apply (Hgen rows 0%nat). intros out _.
      apply (anatomy_notified t0 [] tC EvCommit []); auto.
    + apply (Hgen rows n). intros out Hout.
      rewrite Hsort in Hout. injection Hout as <-. exact Hnot.
Qed.

Lemma delivery_order_by_timestamp_witness :
  exists w' t rows sorted ks n,
    cycle env_three empty_world = (inr tt, w', t)
    /\ db w' = rows
    /\ Forall (fun x => ts_key x <> None) rows
    /\ list_sort env_three rows = inr sorted
    /\ notified_rows t = firstn n sorted
    /\ map ts_key sorted = map Some ks /\ StronglySorted Z.le ks.
Proof.
  destruct (delivery_order_by_timestamp env_three empty_world three_new
              eq_refl) as (w' & t & rows & Hc & Hdb & Hrows & _ & H).
  assert (Hall : Forall (fun x => ts_key x <> None) rows).
  { destruct Hrows as [-> | ->]; [constructor|].
    repeat constructor; discriminate. }
  destruct (H Hall) as (sorted & ks & n & H1 & H2 & _ & _ & _ & H6 & H7 & _).
  exists w', t, rows, sorted, ks, n. repeat split; assumption.
Defined.

(** ** The order of the feed and the order of the alerts *)

Lemma sort_decorated_sorted_id (d : list (Z * Row)) :
  StronglySorted key_le d -> sort_decorated d = d.
Proof.
  induction 1 as [|kx d Hd IH Hall]; [reflexivity|].
  change (sort_decorated (kx :: d)) with (insert_stable kx (sort_decorated d)).
  rewrite IH. destruct d as [|ky d]; [reflexivity|].
  cbn [insert_stable]. inversion Hall as [|? ? Hle _]; subst.
  unfold key_le in Hle. apply Z.leb_le in Hle. now rewrite Hle.
Qed.

Lemma decorate_app (a b : list Row) (da db : list (Z * Row)) :
  decorate a = Some da -> decorate b = Some db ->
  decorate (a ++ b) = Some (da ++ db).
Proof.
  revert da. induction a as [|x a IH]; intros da Ha Hb.
  - injection Ha as <-. exact Hb.
  - cbn [decorate app] in *. destruct (ts_key x) as [k|]; [|discriminate Ha].
    destruct (decorate a) as [d'|]; [|discriminate Ha].
    injection Ha as <-. now rewrite (IH d' eq_refl Hb).
Qed.

Lemma decorate_rev (rows : list Row) (d : list (Z * Row)) :
  decorate rows = Some d -> decorate (rev rows) = Some (rev d).
Proof.
  revert d. induction rows as [|x rows IH]; intros d H.
  - injection H as <-. reflexivity.
  - cbn [decorate] in H. destruct (ts_key x) as [k|] eqn:Hk; [|discriminate H].
    destruct (decorate rows) as [d'|]; [|discriminate H].
    injection H as <-. cbn [rev]. apply decorate_app; [now apply IH|].
    cbn [decorate]. now rewrite Hk.
Qed.

Lemma oldest_first_decorate (rows : list Row) (ks : list Z) :
  map ts_key rows = map Some ks ->
  exists d, decorate rows = Some d /\ map fst d = ks /\ map snd d = rows.
Proof.
  revert ks. induction rows as [|x rows IH]; intros [|k ks] H;
    try discriminate H.
  - now exists [].
  - cbn [map] in H. injection H as Hk Hrest.
    destruct (IH ks Hrest) as (d & Hd & Hfst & Hsnd).
    exists ((k, x) :: d). cbn [decorate map fst snd].
    rewrite Hk, Hd, Hfst, Hsnd. auto.
Qed.

Lemma key_le_sorted (d : list (Z * Row)) :
  StronglySorted Z.le (map fst d) -> StronglySorted key_le d.
Proof.
  induction d as [|kx d IH]; intros H; [constructor|].
  cbn [map] in H. inversion H as [|? ? Hs Hall]; subst.
  constructor; [now apply IH|].
  rewrite Forall_map in Hall. exact Hall.
Qed.

(** X16. A batch whose rows are in ascending order of their timestamps
    (ties included) is delivered in the order it has; and when the
    timestamps are all different, the same batch in the opposite order,
    newest first as the feed gives it, is put back into that order. *)
Theorem delivery_order_of_ordered_batch (E : Env) (rows : list Row) :
  oldest_first rows ->
  list_sort E rows = inr rows
  /\ (NoDup (map ts_key rows) -> list_sort E (rev rows) = inr rows).
Proof.
  intros (ks & Hks & Hsorted).
  destruct (oldest_first_decorate rows ks Hks) as (d & Hd & Hfst & Hsnd).
  assert (Hdk : StronglySorted key_le d).
  { apply key_le_sorted. now rewrite Hfst. }
  split.
  - unfold list_sort. rewrite Hd, (sort_decorated_sorted_id d Hdk).
    now rewrite Hsnd.
  - intros Hnd. unfold list_sort. rewrite (decorate_rev _ _ Hd).
    assert (Hnd' : NoDup (map fst d)).
    { rewrite Hks, <- Hfst in Hnd. now apply NoDup_map_inv in Hnd. }
    rewrite <- (sorted_perm_eq_distinct d (sort_decorated (rev d)) Hdk
                  (sort_decorated_sorted _)); [now rewrite Hsnd | | exact Hnd'].
    rewrite <- sort_decorated_perm. apply Permutation_rev.
Qed.

Lemma delivery_order_of_ordered_batch_witness :
  oldest_first [row_old; row_undated; row_a]
  /\ list_sort env_up [row_old; row_undated; row_a]
     = inr [row_old; row_undated; row_a]
  /\ list_sort env_up [row_a; row_undated; row_old]
     = inr [row_old; row_undated; row_a].
Proof.
  assert (H : oldest_first [row_old; row_undated; row_a]).
  { exists [-1; 0; 10]. split; [reflexivity|].
    repeat constructor; discriminate. }
  split; [exact H|].
  destruct (delivery_order_of_ordered_batch env_up _ H) as [H1 H2].
  split; [exact H1|]. apply H2.
  repeat constructor; simpl; intuition discriminate.
Defined.

(** ** What the messages say *)


